(** * Transaction categorisation and reconciliation engine (app.py)

    A shallow embedding of the bank-statement application: the merchant
    normaliser, the merchant cache, batch categorisation through an external
    classifier, CSV import, the reconciliation operations and the
    per-category aggregation.

    Conventions of the embedding.
    - A Python [str] is a [string] whose characters are read as code points
      below 256.
    - A Python [float] is a primitive binary64 [float].
    - The JSON files are passed explicitly: every operation takes the
      collections it loads and returns the collections it saves.
    - Library functions whose code is not part of the application ([hash],
      [float()], [strptime], number formatting, [json.loads] and the remote
      classifier) are the fields of the class [PyEnv]. *)

From Stdlib Require Import ZArith List String Ascii Bool Lia Floats Sorted.
From Stdlib Require Import DecimalString.
From Stdlib Require OrderedTypeEx.
From stdpp Require Import gmap strings sorting.

(** ** Characters and strings *)

Definition chars (s : string) : list ascii := list_ascii_of_string s.
Definition str (l : list ascii) : string := string_of_list_ascii l.

(** [str.isspace] and the regular-expression class [\s] on code points
    below 256. *)
Definition is_space (c : ascii) : bool :=
  let n := N_of_ascii c in
  ((9 <=? n) && (n <=? 13) || (28 <=? n) && (n <=? 32)
   || (n =? 133) || (n =? 160))%N.

(** The class [\d]. *)
Definition is_digit (c : ascii) : bool :=
  let n := N_of_ascii c in ((48 <=? n) && (n <=? 57))%N.

(** The class [[A-Z]]. *)
Definition is_upper (c : ascii) : bool :=
  let n := N_of_ascii c in ((65 <=? n) && (n <=? 90))%N.

Definition newline : ascii := "010"%char.
Definition dquote : ascii := "034"%char.

Fixpoint take_while {A} (p : A → bool) (l : list A) : list A :=
  match l with
  | [] => []
  | x :: l' => if p x then x :: take_while p l' else []
  end.

Fixpoint drop_while {A} (p : A → bool) (l : list A) : list A :=
  match l with
  | [] => []
  | x :: l' => if p x then drop_while p l' else l
  end.

(** [s.strip()] *)
Definition strip_chars (l : list ascii) : list ascii :=
  rev (drop_while is_space (rev (drop_while is_space l))).

Definition py_strip (s : string) : string := str (strip_chars (chars s)).

(** [s.lower()] on code points below 256. *)
Definition lower_char (c : ascii) : ascii :=
  let n := N_of_ascii c in
  if ((65 <=? n) && (n <=? 90)
      || (192 <=? n) && (n <=? 222) && negb (n =? 215))%N
  then ascii_of_N (n + 32) else c.

Definition py_lower (s : string) : string := str (map lower_char (chars s)).

(** [s.replace(c, '')] for a one-character [c]. *)
Definition remove_char (c : ascii) (s : string) : string :=
  str (List.filter (λ x, negb (Ascii.eqb x c)) (chars s)).

(** ** The regular expressions of the application *)

(** [re.split(r'\s{2,}', s)[0]]: the text before the leftmost position at
    which two whitespace characters follow each other, all of [s] when there
    is none. *)
Fixpoint re_split_gap_head (s : list ascii) : list ascii :=
  match s with
  | [] => []
  | c :: s' =>
      match s' with
      | d :: _ => if is_space c && is_space d then [] else c :: re_split_gap_head s'
      | [] => [c]
      end
  end.

(** The anchor [$]: the end of the text, or just before a newline that ends
    the text. *)
Definition at_end (s : list ascii) : bool :=
  match s with
  | [] => true
  | [c] => Ascii.eqb c newline
  | _ => false
  end.

(** Greedy [C{,hi}] ([None] is no upper bound). *)
Fixpoint take_upto {A} (hi : option nat) (p : A → bool) (l : list A) : list A :=
  match hi, l with
  | Some O, _ => []
  | _, [] => []
  | _, x :: l' => if p x then x :: take_upto (pred <$> hi) p l' else []
  end.

(** An attempt to match [\s+C{lo,hi}$] at the start of [s]; the result is the
    text after the match.  Both repetitions are greedy.  Giving a character
    back never helps: the character after a shorter [\s+] is whitespace, not
    in [C]; the character after a shorter [C{lo,hi}] is in [C], so [$] fails
    there. *)
Definition match_trailing (cls : ascii → bool) (lo : nat) (hi : option nat)
    (s : list ascii) : option (list ascii) :=
  let w := take_while is_space s in
  let r := drop_while is_space s in
  let tok := take_upto hi cls r in
  let rest := drop (length tok) r in
  if negb (length w =? 0) && (lo <=? length tok) && at_end rest
  then Some rest else None.

(** [re.sub(r'\s+C{lo,hi}$', '', s)]: the leftmost match is deleted; what
    follows a match is at most one newline, where no second match starts. *)
Fixpoint re_sub_trailing (cls : ascii → bool) (lo : nat) (hi : option nat)
    (s : list ascii) : list ascii :=
  match match_trailing cls lo hi s with
  | Some rest => rest
  | None =>
      match s with
      | [] => []
      | c :: s' => c :: re_sub_trailing cls lo hi s'
      end
  end.

Fixpoint drop_until (c : ascii) (s : list ascii) : list ascii :=
  match s with
  | [] => []
  | x :: s' => if Ascii.eqb x c then s else drop_until c s'
  end.

(** [re.search(r'\[[\s\S]*\]', s)]: from the first opening bracket to the
    last closing bracket after it. *)
Definition re_search_array (s : string) : option string :=
  match drop_until "["%char (chars s) with
  | [] => None
  | _ :: r =>
      match drop_until "]"%char (rev r) with
      | [] => None
      | body => Some (str ("["%char :: rev body))
      end
  end.

(** ** extract_merchant_name *)

Definition extract_merchant_chars (description : list ascii) : list ascii :=
  let desc := strip_chars description in
  let desc := re_split_gap_head desc in
  let desc := re_sub_trailing is_digit 1 None desc in
  let desc := re_sub_trailing is_upper 2 (Some 3) desc in
  strip_chars desc.

Definition extract_merchant_name (description : string) : string :=
  str (extract_merchant_chars (chars description)).

(** The cache key, [extract_merchant_name(d).lower()]. *)
Definition merchant_key (description : string) : string :=
  py_lower (extract_merchant_name description).

(** ** The normaliser as the specification words it

    Trim; truncate at the first run of two or more spaces; strip a trailing
    numeric token; strip a trailing token of two or three upper-case letters.
    A space is a character of the class [\s].  The trailing token is the text
    after the last run of spaces; a text without spaces is the merchant name
    itself and has no trailing token. *)
Module NormalizeSpec.

Fixpoint gap_index (s : list ascii) : option nat :=
  match s with
  | c :: (d :: _) as s' =>
      if is_space c && is_space d then Some O else S <$> gap_index s'
  | _ => None
  end.

Definition truncate_at_gap (s : list ascii) : list ascii :=
  match gap_index s with
  | Some i => take i s
  | None => s
  end.

Definition numeric (tok : list ascii) : bool :=
  forallb is_digit tok && (1 <=? length tok).

Definition upper_code (tok : list ascii) : bool :=
  forallb is_upper tok && (2 <=? length tok) && (length tok <=? 3).

Definition strip_trailing_token (ok : list ascii → bool) (s : list ascii)
    : list ascii :=
  let r := rev s in
  let tok := rev (take_while (λ c, negb (is_space c)) r) in
  let before := drop_while (λ c, negb (is_space c)) r in
  let gap := take_while is_space before in
  if ok tok && negb (length gap =? 0)
  then rev (drop_while is_space before) else s.

Definition normalize (description : string) : string :=
  str (strip_trailing_token upper_code
        (strip_trailing_token numeric
          (truncate_at_gap (strip_chars (chars description))))).

End NormalizeSpec.

(** ** Values and records

    The optional keys of the stored dictionaries hold [null], a boolean or a
    string; [None] is an absent key.  Python's equality on these values is
    structural, and all of them can be dictionary keys. *)

Inductive jval : Type :=
  | JNull
  | JBool (b : bool)
  | JStr (s : string).

Global Instance jval_eq_dec : EqDecision jval.
Proof. solve_decision. Defined.

(** Truth value of a Python object. *)
Definition truthy (v : jval) : bool :=
  match v with
  | JNull => false
  | JBool b => b
  | JStr s => negb (String.eqb s "")
  end.

(** Truth value of [d.get(key)]: an absent key reads as [None]. *)
Definition truthy_get (o : option jval) : bool :=
  match o with
  | Some v => truthy v
  | None => false
  end.

(** [str(v)], as an f-string renders it. *)
Definition py_str (v : jval) : string :=
  match v with
  | JNull => "None"
  | JBool true => "True"
  | JBool false => "False"
  | JStr s => s
  end.

Module Transaction.
(** A transaction dictionary.  The four keys written by the import are
    always present and never rewritten. *)
Record transaction : Type := mk {
  id : string;
  date : string;
  amount : float;
  description : string;
  category_code : option jval;
  reconciled : option jval;
  note : option jval;
  ai_suggested_code : option jval;
  ai_confidence : option jval;
  ai_from_cache : option jval
}.

Definition set_category_code (v : jval) (t : transaction) : transaction :=
  mk (id t) (date t) (amount t) (description t) (Some v) (reconciled t)
     (note t) (ai_suggested_code t) (ai_confidence t) (ai_from_cache t).

Definition set_reconciled (v : jval) (t : transaction) : transaction :=
  mk (id t) (date t) (amount t) (description t) (category_code t) (Some v)
     (note t) (ai_suggested_code t) (ai_confidence t) (ai_from_cache t).

Definition set_note (v : jval) (t : transaction) : transaction :=
  mk (id t) (date t) (amount t) (description t) (category_code t)
     (reconciled t) (Some v) (ai_suggested_code t) (ai_confidence t)
     (ai_from_cache t).

(** The three assignments [t['ai_suggested_code'] = code],
    [t['ai_confidence'] = confidence], [t['ai_from_cache'] = from_cache]. *)
Definition set_ai (code confidence from_cache : jval) (t : transaction)
    : transaction :=
  mk (id t) (date t) (amount t) (description t) (category_code t)
     (reconciled t) (note t) (Some code) (Some confidence) (Some from_cache).
End Transaction.
Abbreviation transaction := Transaction.transaction.

Module Category.
Record category : Type := mk {
  code : jval;
  name : string;
  type : string;
  category_type : string
}.
End Category.
Abbreviation category := Category.category.

Module CacheEntry.
Record cache_entry : Type := mk {
  category_code : jval;
  confidence : string;
  learned_from : string
}.
End CacheEntry.
Abbreviation cache_entry := CacheEntry.cache_entry.

(** One element of the array decoded from the classifier's reply.  Of an
    object only the keys the prompt asks for are kept; anything that is not an
    object has no [get] method. *)
Module Reply.
Record object : Type := mk {
  id : option Z;
  category_code : option jval;
  confidence : option jval
}.
Inductive entry : Type :=
  | NotObject
  | Object (o : object).
End Reply.

(** ** The environment of the application *)

Class PyEnv : Type := {
  (** [hash(s)] of the running interpreter (the hash of a [str] is salted
      per process: one environment is one process). *)
  hash : string → Z;
  (** [datetime.strptime(s, '%d/%m/%Y').strftime('%Y-%m-%d')]; [None] is a
      [ValueError]. *)
  reformat_date : string → option string;
  (** [float(s)]; [None] is a [ValueError]. *)
  float_of_string : string → option float;
  (** [str(x)] of a float, as [f"{x}"] renders it. *)
  repr_float : float → string;
  (** [f"{x:.2f}"]. *)
  format_2f : float → string;
  (** [client.messages.create(...)] followed by [response.content[0].text]
      for the given prompt; [None] is any exception raised on the way. *)
  messages_create : string → option string;
  (** [json.loads] of a text that starts with an opening bracket: a decoded
      value is an array; [None] is a [JSONDecodeError]. *)
  json_loads : string → option (list Reply.entry)
}.

(** [str(n)] of a natural number or an integer. *)
Definition str_of_nat (n : nat) : string := NilZero.string_of_uint (Nat.to_uint n).
Definition str_of_Z (z : Z) : string := NilZero.string_of_int (Z.to_int z).

(** [sep.join(l)] *)
Fixpoint join (sep : string) (l : list string) : string :=
  match l with
  | [] => ""
  | [s] => s
  | s :: l' => s +:+ sep +:+ join sep l'
  end.

Definition nl : string := String newline "".
Definition quoted (s : string) : string := String dquote (s +:+ String dquote "").

(** ** Python's sorted(..., reverse=True)

    The list is reversed, sorted stably in ascending order with [<] on the
    keys alone, and reversed again.  The stable sort is by insertion; on keys
    that [<] orders totally every stable sort gives this list.  A NaN key is
    ordered by [<] with no other key: the list that CPython's merge sort
    returns then depends on the runs it finds, and the insertion stands for
    it only where the two agree, as on a list in which no key is smaller
    than the key before it, which CPython takes for a single run and leaves
    as it is, as the insertion does.  The order of a sorted list is stated
    for keys without NaN. *)
Section Sorting.
Context {A : Type} (lt : A → A → bool).

Fixpoint insert_sorted (x : A) (l : list A) : list A :=
  match l with
  | [] => [x]
  | y :: l' => if lt y x then y :: insert_sorted x l' else x :: l
  end.

Definition stable_sort (l : list A) : list A := foldr insert_sorted [] l.

Definition sorted_reverse (l : list A) : list A := rev (stable_sort (rev l)).
End Sorting.

(** ** An insertion-ordered dictionary *)
Section Dict.
Context {K V : Type} `{EqDecision K}.

Fixpoint dict_get (k : K) (d : list (K * V)) : option V :=
  match d with
  | [] => None
  | (k', v) :: d' => if decide (k' = k) then Some v else dict_get k d'
  end.

(** [d[k] = v]: an existing key keeps its place, a new key goes last. *)
Fixpoint dict_set (k : K) (v : V) (d : list (K * V)) : list (K * V) :=
  match d with
  | [] => [(k, v)]
  | (k', v') :: d' =>
      if decide (k' = k) then (k, v) :: d' else (k', v') :: dict_set k v d'
  end.
End Dict.

(** ** categorize_transactions_batch *)

Definition default_code : jval := JStr "500".

Definition cache_lookup (merchant_cache : gmap string cache_entry)
    (t : transaction) : option cache_entry :=
  merchant_cache !! merchant_key (Transaction.description t).

(** The first loop.  The batch is a list of dictionaries that are updated in
    place; [uncached_transactions] holds references to some of them, here
    their positions in the batch.  [i] is the position of the head. *)
Fixpoint separate_cached (merchant_cache : gmap string cache_entry) (i : nat)
    (transactions : list transaction) : list transaction * list nat :=
  match transactions with
  | [] => ([], [])
  | t :: rest =>
      let '(rest', uncached) := separate_cached merchant_cache (S i) rest in
      match cache_lookup merchant_cache t with
      | Some cached =>
          (Transaction.set_ai (CacheEntry.category_code cached) (JStr "high")
             (JBool true) t :: rest', uncached)
      | None => (t :: rest', i :: uncached)
      end
  end.

Definition category_line (c : category) : string :=
  "- " +:+ py_str (Category.code c) +:+ ": " +:+ Category.name c
  +:+ " (" +:+ Category.category_type c +:+ ")".

Definition transaction_line `{PyEnv} (i : nat) (t : transaction) : string :=
  str_of_nat (i + 1) +:+ ". [" +:+ Transaction.date t +:+ "] "
  +:+ Transaction.description t +:+ " | $"
  +:+ format_2f (PrimFloat.abs (Transaction.amount t))
  +:+ " ("
  +:+ (if PrimFloat.ltb (Transaction.amount t) 0 then "expense" else "income")
  +:+ ")".

Definition build_prompt `{PyEnv} (categories : list category)
    (uncached_transactions : list transaction) : string :=
  let category_list := join nl (category_line <$> categories) in
  let transaction_list := join nl (imap transaction_line uncached_transactions) in
  join nl [
    "Categorize these bank transactions. For each transaction, determine the best category.";
    "";
    "Available categories:";
    category_list;
    "";
    "Transactions to categorize:";
    transaction_list;
    "";
    "Respond with ONLY a JSON array, one object per transaction in order:";
    "[{" +:+ quoted "id" +:+ ": 1, " +:+ quoted "category_code" +:+ ": "
      +:+ quoted "XXX" +:+ ", " +:+ quoted "confidence" +:+ ": "
      +:+ quoted "high/medium/low" +:+ "}, ...]";
    "";
    "Rules:";
    "- Positive amounts (income) should use category " +:+ quoted "1000";
    "- MONTHLY FEE = " +:+ quoted "500" +:+ " (other)";
    "- Groceries (Coles, Woolworths, etc) = " +:+ quoted "100";
    "- Restaurants/cafes/takeaway = " +:+ quoted "200";
    "- Transport (Uber, Myki, parking) = " +:+ quoted "300";
    "- Software/tech (GitHub, Claude, AWS, OpenAI) = " +:+ quoted "600";
    "- Pharmacy/medical = " +:+ quoted "700";
    "- Entertainment (museums, cinemas) = " +:+ quoted "800";
    "- Phone/utilities (Optus) = " +:+ quoted "900";
    "- If unsure, use " +:+ quoted "500" +:+ " with low confidence"
  ].

(** The loop over [enumerate(results)], from index [i] on.  The boolean tells
    whether the loop raised: [result.get] of an entry that is not an object
    is an [AttributeError].  The assignments made before it stay. *)
Fixpoint apply_results (uncached : list nat) (i : nat)
    (results : list Reply.entry) (batch : list transaction)
    : list transaction * bool :=
  match results with
  | [] => (batch, false)
  | result :: rest =>
      match uncached !! i with
      | Some pos =>                       (* i < len(uncached_transactions) *)
          match result with
          | Reply.NotObject => (batch, true)
          | Reply.Object o =>
              apply_results uncached (S i) rest
                (alter (Transaction.set_ai
                          (default default_code (Reply.category_code o))
                          (default (JStr "low") (Reply.confidence o))
                          (JBool false)) pos batch)
          end
      | None => apply_results uncached (S i) rest batch
      end
  end.

(** The [except] branch: every uncached transaction gets the default. *)
Definition mark_all_other (uncached : list nat) (batch : list transaction)
    : list transaction :=
  fold_left
    (λ b pos, alter (Transaction.set_ai default_code (JStr "low") (JBool false)) pos b)
    uncached batch.

(** The result is the batch together with the prompts sent to the
    classifier. *)
Definition categorize_transactions_batch `{PyEnv}
    (merchant_cache : gmap string cache_entry)
    (transactions : list transaction) (categories : list category)
    : list transaction * list string :=
  let '(batch, uncached) := separate_cached merchant_cache 0 transactions in
  match uncached with
  | [] => (batch, [])
  | _ =>
      let uncached_transactions := omap (λ pos, batch !! pos) uncached in
      let prompt := build_prompt categories uncached_transactions in
      match messages_create prompt with
      | None => (mark_all_other uncached batch, [prompt])
      | Some text =>
          let response_text := py_strip text in
          match re_search_array response_text with
          | Some json_match =>
              match json_loads json_match with
              | None => (mark_all_other uncached batch, [prompt])
              | Some results =>
                  match apply_results uncached 0 results batch with
                  | (batch', true) => (mark_all_other uncached batch', [prompt])
                  | (batch', false) => (batch', [prompt])
                  end
              end
          | None => (batch, [prompt])
          end
      end
  end.

(** ** upload_csv *)

Inductive upload_response : Type :=
  | UploadOk (imported : nat) (transactions : list transaction)
  | UploadError.

Definition make_trans_id `{PyEnv} (date_formatted : string) (amount : float)
    (description : string) : string :=
  date_formatted +:+ "_" +:+ repr_float (PrimFloat.abs amount) +:+ "_"
  +:+ str_of_Z (hash description mod 10000).

(** The loop over the rows; [None] when a row raises, which the handler of
    the route turns into the error response. *)
Fixpoint read_rows `{PyEnv} (existing_ids : gset string)
    (reader : list (list string)) : option (list transaction) :=
  match reader with
  | [] => Some []
  | row :: reader' =>
      match row with
      | date_str :: amount_str :: description :: _ =>      (* len(row) >= 3 *)
          let date_formatted := default date_str (reformat_date date_str) in
          match float_of_string (remove_char ","%char (remove_char dquote amount_str)) with
          | None => None
          | Some amount =>
              let trans_id := make_trans_id date_formatted amount description in
              new_transactions ← read_rows existing_ids reader';
              Some (if decide (trans_id ∈ existing_ids) then new_transactions
                    else Transaction.mk trans_id date_formatted amount
                           (py_strip description) (Some JNull)
                           (Some (JBool false)) None None None None
                         :: new_transactions)
          end
      | _ => read_rows existing_ids reader'
      end
  end.

Definition date_lt (a b : transaction) : bool :=
  String.ltb (Transaction.date a) (Transaction.date b).

(** The response, the transactions held by the store afterwards, and the
    prompts sent to the classifier. *)
Definition upload_csv `{PyEnv} (reader : list (list string))
    (transactions : list transaction) (categories : list category)
    (merchant_cache : gmap string cache_entry)
    : upload_response * list transaction * list string :=
  let existing_ids : gset string :=
    list_to_set (Transaction.id <$> transactions) in
  match read_rows existing_ids reader with
  | None => (UploadError, transactions, [])
  | Some [] => (UploadOk 0 transactions, transactions, [])
  | Some new_transactions =>
      let '(new_transactions, calls) :=
        categorize_transactions_batch merchant_cache new_transactions categories in
      let transactions := sorted_reverse date_lt (transactions ++ new_transactions) in
      (UploadOk (length new_transactions) transactions, transactions, calls)
  end.

(** ** The merchant cache *)

(** [merchant_cache[merchant.lower()] = {...}] with confidence ['high']. *)
Definition learn (description : string) (category_code : jval)
    (learned_from : string) (merchant_cache : gmap string cache_entry)
    : gmap string cache_entry :=
  <[merchant_key description := CacheEntry.mk category_code "high" learned_from]>
    merchant_cache.

(** ** api_transaction (PUT /api/transactions/<trans_id>) *)

Module UpdateRequest.
(** The keys of the request body that the route reads. *)
Record data : Type := mk {
  category_code : option jval;
  reconciled : option jval;
  note : option jval;
  update_cache : option jval
}.
End UpdateRequest.

Definition assign_if_present (set : jval → transaction → transaction)
    (field : option jval) (t : transaction) : transaction :=
  match field with
  | Some v => set v t
  | None => t
  end.

Definition update_transaction (data : UpdateRequest.data) (t : transaction)
    : transaction :=
  let t := assign_if_present Transaction.set_category_code
             (UpdateRequest.category_code data) t in
  let t := assign_if_present Transaction.set_reconciled
             (UpdateRequest.reconciled data) t in
  assign_if_present Transaction.set_note (UpdateRequest.note data) t.

(** The loop stops at the first transaction with the id. *)
Fixpoint api_transaction (trans_id : string) (data : UpdateRequest.data)
    (transactions : list transaction) (merchant_cache : gmap string cache_entry)
    : list transaction * gmap string cache_entry :=
  match transactions with
  | [] => ([], merchant_cache)
  | t :: rest =>
      if String.eqb (Transaction.id t) trans_id then
        let t' := update_transaction data t in
        let merchant_cache :=
          if truthy_get (UpdateRequest.category_code data)
             && truthy (default (JBool true) (UpdateRequest.update_cache data))
          then learn (Transaction.description t')
                 (default JNull (UpdateRequest.category_code data)) trans_id
                 merchant_cache
          else merchant_cache in
        (t' :: rest, merchant_cache)
      else
        let '(rest', merchant_cache) :=
          api_transaction trans_id data rest merchant_cache in
        (t :: rest', merchant_cache)
  end.

(** ** reconcile_transaction (POST /api/reconcile) *)

Fixpoint reconcile_loop (trans_id : string) (category_code : jval)
    (transactions : list transaction) (merchant_cache : gmap string cache_entry)
    : list transaction * gmap string cache_entry :=
  match transactions with
  | [] => ([], merchant_cache)
  | t :: rest =>
      if String.eqb (Transaction.id t) trans_id then
        (Transaction.set_reconciled (JBool true)
           (Transaction.set_category_code category_code t) :: rest,
         learn (Transaction.description t) category_code trans_id merchant_cache)
      else
        let '(rest', merchant_cache) :=
          reconcile_loop trans_id category_code rest merchant_cache in
        (t :: rest', merchant_cache)
  end.

(** [None] is the 400 response, which saves nothing.  An id that is not a
    string equals no stored id. *)
Definition reconcile_transaction (transaction_id category_code : option jval)
    (transactions : list transaction) (merchant_cache : gmap string cache_entry)
    : option (list transaction * gmap string cache_entry) :=
  if negb (truthy_get transaction_id) || negb (truthy_get category_code)
  then None
  else
    match transaction_id, category_code with
    | Some (JStr trans_id), Some code =>
        Some (reconcile_loop trans_id code transactions merchant_cache)
    | _, _ => Some (transactions, merchant_cache)
    end.

(** ** reconcile_all (POST /api/reconcile-all) *)

Definition wants_reconcile (t : transaction) : bool :=
  negb (truthy_get (Transaction.reconciled t))
  && truthy_get (Transaction.ai_suggested_code t).

Definition accept_suggestion (t : transaction) : transaction :=
  Transaction.set_reconciled (JBool true)
    (Transaction.set_category_code
       (default JNull (Transaction.ai_suggested_code t)) t).

(** The saved transactions, the saved cache and the count reported. *)
Fixpoint reconcile_all_loop (transactions : list transaction)
    (merchant_cache : gmap string cache_entry) (reconciled_count : nat)
    : list transaction * gmap string cache_entry * nat :=
  match transactions with
  | [] => ([], merchant_cache, reconciled_count)
  | t :: rest =>
      if wants_reconcile t then
        let t' := accept_suggestion t in
        let '(rest', cache', n) :=
          reconcile_all_loop rest
            (learn (Transaction.description t')
               (default JNull (Transaction.ai_suggested_code t'))
               (Transaction.id t') merchant_cache)
            (S reconciled_count) in
        (t' :: rest', cache', n)
      else
        let '(rest', cache', n) :=
          reconcile_all_loop rest merchant_cache reconciled_count in
        (t :: rest', cache', n)
  end.

Definition reconcile_all (transactions : list transaction)
    (merchant_cache : gmap string cache_entry)
    : list transaction * gmap string cache_entry * nat :=
  reconcile_all_loop transactions merchant_cache 0.

(** ** round(x, 2)

    The built-in rounds the exact value of the float to two decimals, ties
    to even, and returns the float nearest to that decimal. *)
Definition round_half_even (n d : Z) : Z :=
  let q := (n / d)%Z in
  match (2 * (n mod d) ?= d)%Z with
  | Lt => q
  | Gt => (q + 1)%Z
  | Eq => if Z.even q then q else (q + 1)%Z
  end.

Definition round2 (x : float) : float :=
  match Prim2SF x with
  | S754_finite s m e =>
      if (0 <=? e)%Z then x
      else
        match round_half_even (Z.pos m * 100) (2 ^ (- e)) with
        | Z.pos k =>
            SF2Prim (SFdiv prec emax (S754_finite s k 0) (S754_finite false 100 0))
        | _ => SF2Prim (S754_zero s)
        end
  | _ => x
  end.

(** ** api_analysis (GET /api/analysis?type=...) *)

Module Analysis.
Record row : Type := mk {
  code : jval;
  name : string;
  type : string;
  total : float;
  transactions : list transaction
}.
End Analysis.

Definition eligible (transaction_type : string) (t : transaction) : bool :=
  if String.eqb transaction_type "expenses" then
    truthy_get (Transaction.reconciled t) && PrimFloat.ltb (Transaction.amount t) 0
  else if String.eqb transaction_type "income" then
    truthy_get (Transaction.reconciled t) && PrimFloat.ltb 0 (Transaction.amount t)
  else truthy_get (Transaction.reconciled t).

(** [t.get('category_code', '500')]: the default is for an absent key. *)
Definition group_code (t : transaction) : jval :=
  default default_code (Transaction.category_code t).

(** One round of the grouping loop on the two dictionaries. *)
Definition group_step
    (acc : list (jval * float) * list (jval * list transaction))
    (t : transaction)
    : list (jval * float) * list (jval * list transaction) :=
  let '(category_totals, category_transactions) := acc in
  let code := group_code t in
  let amount := PrimFloat.abs (Transaction.amount t) in
  let '(category_totals, category_transactions) :=
    match dict_get code category_totals with
    | None => (dict_set code 0%float category_totals,
               dict_set code [] category_transactions)
    | Some _ => (category_totals, category_transactions)
    end in
  (dict_set code
     (PrimFloat.add (default 0%float (dict_get code category_totals)) amount)
     category_totals,
   dict_set code
     (default [] (dict_get code category_transactions) ++ [t])
     category_transactions).

(** [{c['code']: c for c in categories}.get(code)]: the last category with
    the code. *)
Definition category_map_get (categories : list category) (code : jval)
    : option category :=
  List.find (λ c, bool_decide (Category.code c = code)) (rev categories).

Definition total_lt (a b : jval * float) : bool := PrimFloat.ltb a.2 b.2.

Definition analysis_row (categories : list category)
    (category_transactions : list (jval * list transaction))
    (item : jval * float) : Analysis.row :=
  let '(code, total) := item in
  let '(name, type) :=
    match category_map_get categories code with
    | Some cat => (Category.name cat, Category.type cat)
    | None => ("Unknown", "variable")
    end in
  Analysis.mk code name type (round2 total)
    (default [] (dict_get code category_transactions)).

Definition api_analysis (transaction_type : string)
    (transactions : list transaction) (categories : list category)
    : list Analysis.row :=
  let filtered := List.filter (eligible transaction_type) transactions in
  let '(category_totals, category_transactions) :=
    fold_left group_step filtered ([], []) in
  analysis_row categories category_transactions
    <$> sorted_reverse total_lt category_totals.

(** ** The data files and load_json

    [os.path.join] of the POSIX path module, for two components. *)
Definition ends_with_sep (s : string) : bool :=
  match rev (chars s) with
  | c :: _ => Ascii.eqb c "/"%char
  | [] => false
  end.

Definition path_join (a b : string) : string :=
  if String.prefix "/" b then b
  else if String.eqb a "" || ends_with_sep a then a +:+ b
  else a +:+ "/" +:+ b.

(** The paths of the data files; [dirname] is [os.path.dirname(__file__)],
    the directory of the application. *)
Definition DATA_DIR (dirname : string) : string := path_join dirname "data".
Definition CATEGORIES_FILE (dirname : string) : string :=
  path_join (DATA_DIR dirname) "categories.json".
Definition TRANSACTIONS_FILE (dirname : string) : string :=
  path_join (DATA_DIR dirname) "transactions.json".
Definition MERCHANT_CACHE_FILE (dirname : string) : string :=
  path_join (DATA_DIR dirname) "merchant_cache.json".

(** [sub in s] on strings. *)
Fixpoint py_in (sub s : string) : bool :=
  String.prefix sub s
  || match s with
     | EmptyString => false
     | String _ s' => py_in sub s'
     end.

(** The file system is read through [path_exists], which is
    [os.path.exists], and [read_json], which is [json.load] of the opened
    file ([None] when opening or decoding raises); [J] is the type of the
    decoded documents, with the empty array and the empty object. *)
Section Files.
Context {J : Type} (empty_list empty_dict : J).
Context (path_exists : string → bool) (read_json : string → option J).

Definition load_json (filepath : string) : option J :=
  if path_exists filepath then read_json filepath
  else
    Some (if py_in "categories" filepath || py_in "transactions" filepath
          then empty_list else empty_dict).
End Files.

(** ** api_categories (GET, POST /api/categories) *)

Inductive http_method : Type := GET | POST | PUT | DELETE.

Module CategoryRequest.
(** The keys of the request body that the routes read. *)
Record data : Type := mk {
  code : option jval;
  name : option string;
  type : option string;
  category_type : option string
}.
End CategoryRequest.

Inductive category_response : Type :=
  | CategoryList (categories : list category)     (* jsonify(categories) *)
  | CategorySuccess                                (* {'success': True} *)
  | CategoryError (status : nat) (error : string)
  | CategoryKeyError.                  (* data['code'] or data['name'] raises *)

(** The response and the categories held by the store afterwards. *)
Definition api_categories (method : http_method) (data : CategoryRequest.data)
    (categories : list category) : category_response * list category :=
  match method with
  | POST =>
      match CategoryRequest.code data with
      | None => (CategoryKeyError, categories)
      | Some code =>
          if existsb (λ c, bool_decide (Category.code c = code)) categories
          then (CategoryError 400 "Category code already exists", categories)
          else
            match CategoryRequest.name data with
            | None => (CategoryKeyError, categories)
            | Some name =>
                (CategorySuccess,
                 categories
                 ++ [Category.mk code name
                       (default "variable" (CategoryRequest.type data))
                       (default "Expense" (CategoryRequest.category_type data))])
            end
      end
  | _ => (CategoryList categories, categories)
  end.

(** ** api_category (PUT, DELETE /api/categories/<code>) *)

Definition update_category (data : CategoryRequest.data) (c : category)
    : category :=
  Category.mk (Category.code c)
    (default (Category.name c) (CategoryRequest.name data))
    (default (Category.type c) (CategoryRequest.type data))
    (default (Category.category_type c) (CategoryRequest.category_type data)).

(** The loop of the PUT branch stops at the first category with the code. *)
Fixpoint update_first_category (code : string) (data : CategoryRequest.data)
    (categories : list category) : list category :=
  match categories with
  | [] => []
  | c :: rest =>
      if bool_decide (Category.code c = JStr code)
      then update_category data c :: rest
      else c :: update_first_category code data rest
  end.

Definition api_category (method : http_method) (code : string)
    (data : CategoryRequest.data) (categories : list category)
    : category_response * list category :=
  match method with
  | DELETE =>
      (CategorySuccess,
       List.filter (λ c, negb (bool_decide (Category.code c = JStr code)))
         categories)
  | PUT => (CategorySuccess, update_first_category code data categories)
  | _ => (CategoryError 405 "Method not allowed", categories)
  end.

(** ** api_transactions (GET /api/transactions?filter=...) *)

Definition api_transactions (filter_type : string)
    (transactions : list transaction) : list transaction :=
  if String.eqb filter_type "unreconciled" then
    List.filter (λ t, negb (truthy_get (Transaction.reconciled t))) transactions
  else if String.eqb filter_type "reconciled" then
    List.filter (λ t, truthy_get (Transaction.reconciled t)) transactions
  else transactions.

(** ** clear_transactions and clear_data

    The transactions and the merchant cache held by the store afterwards. *)

Definition clear_transactions (transactions : list transaction)
    (merchant_cache : gmap string cache_entry)
    : list transaction * gmap string cache_entry :=
  ([], merchant_cache).

Definition clear_data (transactions : list transaction)
    (merchant_cache : gmap string cache_entry)
    : list transaction * gmap string cache_entry :=
  ([], ∅).

(** ** Auxiliary notions used in the statements *)

(** The transaction has no entry in the merchant cache. *)
Definition cache_miss (merchant_cache : gmap string cache_entry)
    (t : transaction) : bool :=
  match cache_lookup merchant_cache t with
  | Some _ => false
  | None => true
  end.

(** What the first loop of [categorize_transactions_batch] does to one
    transaction. *)
Definition tag_cached (merchant_cache : gmap string cache_entry)
    (t : transaction) : transaction :=
  match cache_lookup merchant_cache t with
  | Some cached =>
      Transaction.set_ai (CacheEntry.category_code cached) (JStr "high")
        (JBool true) t
  | None => t
  end.

(** The cache misses of a batch, in order: the transactions rendered in the
    request. *)
Definition misses (merchant_cache : gmap string cache_entry)
    (transactions : list transaction) : list transaction :=
  List.filter (cache_miss merchant_cache) transactions.

Definition mark_other (t : transaction) : transaction :=
  Transaction.set_ai default_code (JStr "low") (JBool false) t.

Definition is_not_object (e : Reply.entry) : bool :=
  match e with
  | Reply.NotObject => true
  | Reply.Object _ => false
  end.

(** What the loop over the decoded reply does to the miss that has the
    entry [e] at its position. *)
Definition apply_entry (e : option Reply.entry) (t : transaction)
    : transaction :=
  match e with
  | Some (Reply.Object o) =>
      Transaction.set_ai (default default_code (Reply.category_code o))
        (default (JStr "low") (Reply.confidence o)) (JBool false) t
  | _ => t
  end.

(** What [categorize_transactions_batch] returns for the transaction [t] at
    position [k] of the batch [transactions]. *)
Definition categorized `{PyEnv} (merchant_cache : gmap string cache_entry)
    (transactions : list transaction) (categories : list category)
    (k : nat) (t : transaction) : transaction :=
  match cache_lookup merchant_cache t with
  | Some cached =>
      Transaction.set_ai (CacheEntry.category_code cached) (JStr "high")
        (JBool true) t
  | None =>
      let uncached := misses merchant_cache transactions in
      match messages_create (build_prompt categories uncached) with
      | None => mark_other t
      | Some text =>
          match re_search_array (py_strip text) with
          | None => t
          | Some json_match =>
              match json_loads json_match with
              | None => mark_other t
              | Some results =>
                  if existsb is_not_object (take (length uncached) results)
                  then mark_other t
                  else apply_entry
                         (results !! length (misses merchant_cache (take k transactions)))
                         t
              end
          end
      end
  end.

(** The identity key that the import computes for a row: defined for a row
    of three fields or more whose amount parses. *)
Definition row_key `{PyEnv} (row : list string) : option string :=
  match row with
  | date_str :: amount_str :: description :: _ =>
      amount ← float_of_string (remove_char ","%char (remove_char dquote amount_str));
      Some (make_trans_id (default date_str (reformat_date date_str)) amount
              description)
  | _ => None
  end.

(** What reconcile_all teaches the cache for one accepted transaction. *)
Definition learn_suggestion (c : gmap string cache_entry) (t : transaction)
    : gmap string cache_entry :=
  learn (Transaction.description t)
    (default JNull (Transaction.ai_suggested_code t)) (Transaction.id t) c.

(** The transactions of a list that are grouped under [code]. *)
Definition members (code : jval) (l : list transaction) : list transaction :=
  List.filter (λ t, bool_decide (group_code t = code)) l.

(** The running total of the grouping loop over a list of transactions:
    starting from 0, the absolute amounts are added in order. *)
Definition sum_abs (l : list transaction) : float :=
  fold_left (λ acc t, PrimFloat.add acc (PrimFloat.abs (Transaction.amount t)))
    l 0%float.

(** The codes of a list of transactions, each once, in the order in which
    they first occur. *)
Definition codes_seen (l : list transaction) : list jval :=
  fold_left
    (λ acc t, if decide (group_code t ∈ acc) then acc else acc ++ [group_code t])
    l [].

(** The row that the aggregation reports for a code, given the eligible
    transactions. *)
Definition row_for (categories : list category) (filtered : list transaction)
    (code : jval) : Analysis.row :=
  analysis_row categories ((λ c, (c, members c filtered)) <$> codes_seen filtered)
    (code, sum_abs (members code filtered)).

(** The floats that are neither NaN nor negative: what a sum of absolute
    values of numbers is. *)
Definition sf_nonneg (f : spec_float) : Prop :=
  match f with
  | S754_zero false | S754_infinity false | S754_finite false _ _ => True
  | _ => False
  end.

(** No whitespace at the start, no whitespace at the end. *)
Definition no_lead (l : list ascii) : Prop :=
  match l with
  | c :: _ => is_space c = false
  | [] => True
  end.

Definition no_trail (l : list ascii) : Prop := no_lead (rev l).

(** The tokens that [\s+C{lo,hi}$] deletes: made of the class, with a length
    within the bounds. *)
Definition token_ok (cls : ascii → bool) (lo : nat) (hi : option nat)
    (tok : list ascii) : bool :=
  forallb cls tok && (lo <=? length tok)
  && match hi with
     | Some h => length tok <=? h
     | None => true
     end.

(** The environment of another process of the same interpreter: CPython
    salts the hashes of strings anew for every process (unless PYTHONHASHSEED
    fixes the salt), everything else is the same. *)
Definition with_hash (env : PyEnv) (salted : string → Z) : PyEnv := {|
  hash := salted;
  reformat_date := @reformat_date env;
  float_of_string := @float_of_string env;
  repr_float := @repr_float env;
  format_2f := @format_2f env;
  messages_create := @messages_create env;
  json_loads := @json_loads env
|}.

(** ** Example data *)

(** A stand-in environment for the examples: dates are not reformatted,
    the amount parser knows three amounts, the hash is the length of the text
    and the classifier always answers [reply], which [json.loads] decodes to
    [decoded]. *)
Definition example_env (reply : option string)
    (decoded : option (list Reply.entry)) : PyEnv := {|
  hash := λ s, Z.of_nat (String.length s);
  reformat_date := λ _, None;
  float_of_string := λ s,
    if String.eqb s "-12.50" then Some (-12.5)%float
    else if String.eqb s "-7.50" then Some (-7.5)%float
    else if String.eqb s "1000.00" then Some 1000%float
    else None;
  repr_float := λ x,
    if PrimFloat.eqb x 12.5 then "12.5"
    else if PrimFloat.eqb x 7.5 then "7.5"
    else if PrimFloat.eqb x 1000 then "1000.0"
    else "0.0";
  format_2f := λ x,
    if PrimFloat.eqb x 12.5 then "12.50"
    else if PrimFloat.eqb x 7.5 then "7.50"
    else if PrimFloat.eqb x 1000 then "1000.00"
    else "0.00";
  messages_create := λ _, reply;
  json_loads := λ _, decoded
|}.

(** A freshly imported transaction. *)
Definition imported (id date : string) (amount : float) (description : string)
    : transaction :=
  Transaction.mk id date amount description (Some JNull) (Some (JBool false))
    None None None None.

Definition coles : transaction :=
  imported "2024-03-01_12.5_18" "2024-03-01" (-12.5) "COLES 0123  SYDNEY".
Definition uber : transaction :=
  imported "2024-03-02_7.5_9" "2024-03-02" (-7.5) "UBER TRIP".

Definition example_categories : list category :=
  [Category.mk (JStr "100") "Groceries" "variable" "Expense";
   Category.mk (JStr "500") "Other" "variable" "Expense"].

(** A cache that knows the merchant of [coles]. *)
Definition example_cache : gmap string cache_entry :=
  {[ "coles" := CacheEntry.mk (JStr "100") "high" "2024-02-01_30.0_14" ]}.

(** A reply of three entries: an object with an id that is no ordinal of the
    request, an empty object, and a number. *)
Definition example_reply : string :=
  "[{" +:+ quoted "id" +:+ ": 9, " +:+ quoted "category_code" +:+ ": "
  +:+ quoted "300" +:+ "}, {}, 7]".

Definition example_results : list Reply.entry :=
  [Reply.Object (Reply.mk (Some 9%Z) (Some (JStr "300")) None);
   Reply.Object (Reply.mk None None None);
   Reply.NotObject].

(** A statement with the same purchase on two lines. *)
Definition example_statement : list (list string) :=
  [["2024-03-01"; "-12.50"; "COLES 0123  SYDNEY"];
   ["2024-03-02"; "-7.50"; "UBER TRIP"];
   ["2024-03-01"; "-12.50"; "COLES 0123  SYDNEY"]].

(** A transaction whose suggestion is the empty string. *)
Definition blank_suggestion : transaction :=
  Transaction.mk "2024-03-03_1000.0_6" "2024-03-03" 1000 "SALARY" (Some JNull)
    (Some (JBool false)) None (Some (JStr "")) (Some (JStr "low"))
    (Some (JBool false)).

(** A reconciled transaction. *)
Definition settled : transaction :=
  Transaction.mk "2024-03-02_7.5_9" "2024-03-02" (-7.5) "UBER TRIP"
    (Some (JStr "300")) (Some (JBool true)) None (Some (JStr "300"))
    (Some (JStr "high")) (Some (JBool false)).

(** The four transactions of the aggregation example. *)
Definition spend (id : string) (amount : float) (code : string)
    (reconciled : bool) : transaction :=
  Transaction.mk id "2024-03-01" amount "SHOP" (Some (JStr code))
    (Some (JBool reconciled)) None None None None.

Definition example_ledger : list transaction :=
  [spend "t1" (-12.5) "A" true; spend "t2" (-7.5) "A" true;
   spend "t3" (-10) "B" true; spend "t4" (-5) "A" false].

Definition ledger_categories : list category :=
  [Category.mk (JStr "A") "Groceries" "variable" "Expense";
   Category.mk (JStr "B") "Transport" "variable" "Expense"].

(** A reconciled transaction whose category_code is null, as an update by
    id with reconciled = true leaves an imported transaction. *)
Definition uncoded : transaction :=
  Transaction.mk "2024-03-02_7.5_9" "2024-03-02" (-7.5) "UBER TRIP"
    (Some JNull) (Some (JBool true)) None None None None.

(** ** Example data for the category catalogue *)

Definition transport_request : CategoryRequest.data :=
  CategoryRequest.mk (Some (JStr "300")) (Some "Transport") None None.

Definition transport : category :=
  Category.mk (JStr "300") "Transport" "variable" "Expense".

(** ** Example data for the reconciliation *)

(** An unreconciled transaction with a suggestion. *)
Definition suggested : transaction :=
  Transaction.mk "2024-03-01_12.5_18" "2024-03-01" (-12.5) "COLES 0123  SYDNEY"
    (Some JNull) (Some (JBool false)) None (Some (JStr "100"))
    (Some (JStr "medium")) (Some (JBool false)).

(** A later purchase at the same merchant. *)
Definition coles_again : transaction :=
  imported "2024-04-05_30.0_16" "2024-04-05" (-30) "Coles 0456  PERTH".

(** ** Auxiliary notions for the merchant normaliser *)

(** [s.rstrip()]: [strip_chars] is [rstrip_chars] after the leading
    whitespace is dropped. *)
Definition rstrip_chars (l : list ascii) : list ascii :=
  rev (drop_while is_space (rev l)).

(** ** Auxiliary notions for the import *)

(** The transaction that the import builds from a row of the file: defined
    for a row of three fields or more whose amount parses. *)
Definition row_transaction `{PyEnv} (row : list string) : option transaction :=
  match row with
  | date_str :: amount_str :: description :: _ =>
      amount ← float_of_string (remove_char ","%char (remove_char dquote amount_str));
      let date_formatted := default date_str (reformat_date date_str) in
      Some (Transaction.mk (make_trans_id date_formatted amount description)
              date_formatted amount (py_strip description) (Some JNull)
              (Some (JBool false)) None None None None)
  | _ => None
  end.

(** ** Auxiliary notions for the paths of the data files *)

(** No text that [sub] ends with (and that is not empty) is a text that
    [tail] starts with: then an occurrence of [sub] in a text followed by
    [tail] lies in the text or in [tail]. *)
Fixpoint no_straddle (sub tail : string) : bool :=
  match sub with
  | EmptyString => true
  | String _ sub' => negb (String.prefix sub tail) && no_straddle sub' tail
  end.

(** * Proofs *)

(** ** The first loop of the categorisation *)

Lemma separate_cached_fst cache i ts :
  (separate_cached cache i ts).1 = tag_cached cache <$> ts.
Proof.
  revert i. induction ts as [|t ts IH]; intros i; simpl; [done|].
  specialize (IH (S i)). destruct (separate_cached cache (S i) ts) as [b u].
  simpl in IH. unfold tag_cached. destruct (cache_lookup cache t); simpl; by f_equal.
Qed.

Lemma separate_cached_snd_elem cache i ts pos :
  pos ∈ (separate_cached cache i ts).2 →
  ∃ k t, pos = i + k ∧ ts !! k = Some t ∧ cache_lookup cache t = None.
Proof.
  revert i. induction ts as [|t ts IH]; intros i; simpl.
  - intros H. by apply elem_of_nil in H.
  - specialize (IH (S i)). destruct (separate_cached cache (S i) ts) as [b u].
    simpl in IH. destruct (cache_lookup cache t) eqn:Hc; simpl.
    + intros H. destruct (IH H) as (k & t' & -> & Hk & Hm).
      exists (S k), t'. split_and!; [lia|done|done].
    + intros [->|H]%elem_of_cons.
      * exists 0, t. split_and!; [lia|done|done].
      * destruct (IH H) as (k & t' & -> & Hk & Hm).
        exists (S k), t'. split_and!; [lia|done|done].
Qed.

Lemma separate_cached_snd_lookup cache i ts k t :
  ts !! k = Some t → cache_lookup cache t = None →
  (separate_cached cache i ts).2 !! length (misses cache (take k ts))
  = Some (i + k).
Proof.
  revert i k. induction ts as [|t0 ts IH]; intros i k Hk Hm; [done|].
  simpl. pose proof (IH (S i)) as IH'.
  destruct (separate_cached cache (S i) ts) as [b u]. simpl in IH'.
  destruct k as [|k]; simpl in Hk.
  - simplify_eq. rewrite Hm. simpl. f_equal. lia.
  - specialize (IH' k Hk Hm). unfold misses in *. simpl.
    unfold cache_miss at 1.
    destruct (cache_lookup cache t0); simpl; rewrite IH'; f_equal; lia.
Qed.

Lemma separate_cached_snd_length cache i ts :
  length (separate_cached cache i ts).2 = length (misses cache ts).
Proof.
  revert i. induction ts as [|t ts IH]; intros i; simpl; [done|].
  specialize (IH (S i)). destruct (separate_cached cache (S i) ts) as [b u].
  simpl in IH. unfold misses in *. simpl. unfold cache_miss at 1.
  destruct (cache_lookup cache t); simpl; lia.
Qed.

Lemma separate_cached_snd_bound cache i ts pos :
  pos ∈ (separate_cached cache i ts).2 → i ≤ pos.
Proof.
  intros H. apply separate_cached_snd_elem in H as (k & t & -> & _). lia.
Qed.

Lemma separate_cached_snd_NoDup cache i ts :
  NoDup (separate_cached cache i ts).2.
Proof.
  revert i. induction ts as [|t ts IH]; intros i; simpl; [constructor|].
  pose proof (IH (S i)) as IH'.
  pose proof (separate_cached_snd_bound cache (S i) ts) as Hb.
  destruct (separate_cached cache (S i) ts) as [b u]. simpl in *.
  destruct (cache_lookup cache t); simpl; [done|].
  constructor; [|done]. intros H. apply Hb in H. lia.
Qed.

(** The transactions the references point to are the cache misses. *)
Lemma uncached_transactions_misses cache pre ts :
  omap (λ pos, (pre ++ (tag_cached cache <$> ts)) !! pos)
    (separate_cached cache (length pre) ts).2
  = misses cache ts.
Proof.
  revert pre. induction ts as [|t ts IH]; intros pre; simpl; [done|].
  specialize (IH (pre ++ [tag_cached cache t])).
  rewrite length_app in IH. simpl in IH.
  replace (length pre + 1) with (S (length pre)) in IH by lia.
  destruct (separate_cached cache (S (length pre)) ts) as [b u]. simpl in *.
  rewrite <- app_assoc in IH. simpl in IH.
  unfold misses in *. simpl. unfold cache_miss at 1.
  destruct (cache_lookup cache t) eqn:Hc; simpl; [done|].
  rewrite list_lookup_middle by done. simpl.
  unfold tag_cached at 1. rewrite Hc. by f_equal.
Qed.

(** ** The loops that write through the references *)

Lemma mark_other_set_ai c f g t :
  mark_other (Transaction.set_ai c f g t) = mark_other t.
Proof. by destruct t. Qed.

Lemma mark_all_other_length U b : length (mark_all_other U b) = length b.
Proof.
  unfold mark_all_other. revert b. induction U as [|u U IH]; intros b; simpl; [done|].
  by rewrite IH, length_alter.
Qed.

Lemma mark_all_other_lookup U b pos :
  mark_all_other U b !! pos
  = if decide (pos ∈ U) then mark_other <$> b !! pos else b !! pos.
Proof.
  unfold mark_all_other. revert b. induction U as [|u U IH]; intros b; simpl.
  - destruct (decide (pos ∈ @nil nat)) as [H|H]; [by apply elem_of_nil in H|done].
  - rewrite IH. fold mark_other.
    destruct (decide (pos ∈ u :: U)) as [Hin|Hin],
      (decide (pos ∈ U)) as [HU|HU], (decide (pos = u)) as [->|Hne];
      rewrite ?list_lookup_alter_eq, ?list_lookup_alter_ne by done; try done.
    + destruct (b !! u); simpl; [|done]. by rewrite (mark_other_set_ai _ _ _ t).
    + apply elem_of_cons in Hin as [?|?]; done.
    + exfalso. apply Hin. by right.
    + exfalso. apply Hin. by right.
    + exfalso. apply Hin. by left.
Qed.

Lemma apply_results_length U i rs b :
  length (apply_results U i rs b).1 = length b.
Proof.
  revert i b. induction rs as [|r rs IH]; intros i b; simpl; [done|].
  destruct (U !! i); [|done]. destruct r; [done|].
  by rewrite IH, length_alter.
Qed.

Lemma apply_results_outside U i rs b pos :
  pos ∉ U → (apply_results U i rs b).1 !! pos = b !! pos.
Proof.
  intros Hpos. revert i b. induction rs as [|r rs IH]; intros i b; simpl; [done|].
  destruct (U !! i) as [p|] eqn:Hp; [|done]. destruct r; [done|].
  rewrite IH. apply list_lookup_alter_ne. intros ->.
  apply Hpos. by eapply list_elem_of_lookup_2.
Qed.

(** Whatever the loop wrote is overwritten by the fallback. *)
Lemma apply_results_mark_other U i rs b pos :
  mark_other <$> (apply_results U i rs b).1 !! pos = mark_other <$> b !! pos.
Proof.
  revert i b. induction rs as [|r rs IH]; intros i b; simpl; [done|].
  destruct (U !! i) as [p|] eqn:Hp; [|done]. destruct r; [done|].
  rewrite IH. destruct (decide (p = pos)) as [->|Hne].
  - rewrite list_lookup_alter_eq. destruct (b !! pos); simpl; [|done].
    by rewrite mark_other_set_ai.
  - by rewrite list_lookup_alter_ne.
Qed.

Lemma apply_results_raised U i rs b :
  (apply_results U i rs b).2
  = existsb is_not_object (take (length U - i) rs).
Proof.
  revert i b. induction rs as [|r rs IH]; intros i b; simpl.
  - by rewrite take_nil.
  - destruct (U !! i) as [p|] eqn:Hp.
    + apply lookup_lt_Some in Hp.
      replace (length U - i) with (S (length U - S i)) by lia. simpl.
      destruct r; simpl; [done|]. apply IH.
    + apply lookup_ge_None in Hp.
      replace (length U - i) with 0 by lia. simpl.
      rewrite IH. replace (length U - S i) with 0 by lia. done.
Qed.

Lemma apply_results_lookup U i rs b j pos :
  NoDup U → (apply_results U i rs b).2 = false → U !! j = Some pos →
  (apply_results U i rs b).1 !! pos
  = (if decide (i ≤ j) then apply_entry (rs !! (j - i)) else id) <$> b !! pos.
Proof.
  intros HU. revert i b. induction rs as [|r rs IH]; intros i b Hr Hj; simpl.
  - case_decide; simpl; by rewrite option_fmap_id.
  - simpl in Hr. destruct (U !! i) as [p|] eqn:Hp.
    + destruct r as [|o]; [done|]. rewrite (IH _ _ Hr Hj).
      destruct (decide (j = i)) as [->|Hne].
      * simplify_eq. rewrite decide_False by lia. rewrite decide_True by lia.
        rewrite Nat.sub_diag. simpl.
        rewrite option_fmap_id. apply list_lookup_alter_eq.
      * assert (p ≠ pos) as Hpp.
        { intros ->. apply Hne. eapply NoDup_lookup; eauto. }
        rewrite list_lookup_alter_ne by done.
        destruct (decide (S i ≤ j)), (decide (i ≤ j)); try lia; [|done].
        replace (j - i) with (S (j - S i)) by lia. done.
    + rewrite (IH _ _ Hr Hj). apply lookup_ge_None in Hp.
      apply lookup_lt_Some in Hj.
      rewrite decide_False by lia. by rewrite decide_False by lia.
Qed.

(** ** The batch, position by position *)

Lemma categorize_length `{PyEnv} cache ts cats :
  length (categorize_transactions_batch cache ts cats).1 = length ts.
Proof.
  unfold categorize_transactions_batch.
  pose proof (separate_cached_fst cache 0 ts) as Hb.
  destruct (separate_cached cache 0 ts) as [batch U]. simpl in Hb. subst batch.
  assert (length (tag_cached cache <$> ts) = length ts) as Hl by apply length_fmap.
  destruct U as [|u U]; [by simpl|].
  destruct (messages_create _) as [text|]; cbn [fst snd];
    [|by rewrite mark_all_other_length].
  destruct (re_search_array _) as [m|]; cbn [fst snd]; [|done].
  destruct (json_loads m) as [results|]; cbn [fst snd];
    [|by rewrite mark_all_other_length].
  pose proof (apply_results_length (u :: U) 0 results
                (tag_cached cache <$> ts)) as Hlen.
  destruct (apply_results _ _ _ _) as [b' [|]]; cbn [fst snd] in *;
    rewrite ?mark_all_other_length; lia.
Qed.

Lemma categorize_calls `{PyEnv} cache ts cats :
  (categorize_transactions_batch cache ts cats).2
  = match misses cache ts with
    | [] => []
    | uncached => [build_prompt cats uncached]
    end.
Proof.
  unfold categorize_transactions_batch.
  pose proof (separate_cached_fst cache 0 ts) as Hb.
  pose proof (separate_cached_snd_length cache 0 ts) as Hl.
  pose proof (uncached_transactions_misses cache [] ts) as Hm.
  simpl in Hm.
  destruct (separate_cached cache 0 ts) as [batch U]. cbn [fst snd] in *.
  subst batch.
  destruct U as [|u U].
  - destruct (misses cache ts); [done|simpl in Hl; lia].
  - rewrite Hm. destruct (misses cache ts) as [|m ms]; [simpl in Hl; lia|].
    destruct (messages_create _) as [text|]; cbn [fst snd]; [|done].
    destruct (re_search_array _) as [m'|]; cbn [fst snd]; [|done].
    destruct (json_loads m') as [results|]; cbn [fst snd]; [|done].
    by destruct (apply_results _ _ _ _) as [b' [|]].
Qed.

Lemma categorize_lookup `{PyEnv} cache ts cats k t :
  ts !! k = Some t →
  (categorize_transactions_batch cache ts cats).1 !! k
  = Some (categorized cache ts cats k t).
Proof.
  intros Hk. unfold categorize_transactions_batch, categorized.
  pose proof (separate_cached_fst cache 0 ts) as Hb.
  pose proof (separate_cached_snd_length cache 0 ts) as Hl.
  pose proof (uncached_transactions_misses cache [] ts) as Hm.
  pose proof (separate_cached_snd_NoDup cache 0 ts) as Hnd.
  pose proof (separate_cached_snd_elem cache 0 ts k) as Hel.
  pose proof (separate_cached_snd_lookup cache 0 ts k t Hk) as Hlk.
  simpl in Hm.
  destruct (separate_cached cache 0 ts) as [batch U]. cbn [fst snd] in *.
  subst batch.
  assert ((tag_cached cache <$> ts) !! k = Some (tag_cached cache t)) as Htag.
  { by rewrite list_lookup_fmap, Hk. }
  destruct (cache_lookup cache t) as [cached|] eqn:Hc.
  - (* a cache hit is not referenced *)
    assert (k ∉ U) as HkU.
    { intros (k' & t' & Hkk & Hk' & Hc')%Hel. simpl in Hkk. subst k'.
      congruence. }
    assert (tag_cached cache t
            = Transaction.set_ai (CacheEntry.category_code cached)
                (JStr "high") (JBool true) t) as Ht.
    { unfold tag_cached. by rewrite Hc. }
    rewrite <- Ht.
    destruct U as [|u U]; [done|]. rewrite Hm.
    destruct (messages_create _) as [text|]; cbn [fst snd].
    2: { rewrite mark_all_other_lookup. by rewrite decide_False. }
    destruct (re_search_array _) as [m|]; cbn [fst snd]; [|done].
    destruct (json_loads m) as [results|]; cbn [fst snd].
    2: { rewrite mark_all_other_lookup. by rewrite decide_False. }
    pose proof (apply_results_outside (u :: U) 0 results
                  (tag_cached cache <$> ts) k HkU) as Hout.
    destruct (apply_results _ _ _ _) as [b' [|]]; cbn [fst snd] in *.
    + rewrite mark_all_other_lookup. rewrite decide_False by done. congruence.
    + congruence.
  - (* a cache miss is the j-th reference *)
    specialize (Hlk eq_refl). simpl in Hlk.
    assert (tag_cached cache t = t) as Ht.
    { unfold tag_cached. by rewrite Hc. }
    rewrite Ht in Htag.
    assert (k ∈ U) as HkU by by eapply list_elem_of_lookup_2.
    destruct U as [|u U]; [by apply elem_of_nil in HkU|]. rewrite Hm.
    destruct (messages_create _) as [text|]; cbn [fst snd].
    2: { rewrite mark_all_other_lookup. rewrite decide_True by done.
         by rewrite Htag. }
    destruct (re_search_array _) as [m|]; cbn [fst snd]; [|done].
    destruct (json_loads m) as [results|]; cbn [fst snd].
    2: { rewrite mark_all_other_lookup. rewrite decide_True by done.
         by rewrite Htag. }
    pose proof (apply_results_raised (u :: U) 0 results
                  (tag_cached cache <$> ts)) as Hraised.
    pose proof (apply_results_mark_other (u :: U) 0 results
                  (tag_cached cache <$> ts) k) as Hmark.
    pose proof (apply_results_lookup (u :: U) 0 results
                  (tag_cached cache <$> ts)
                  (length (misses cache (take k ts))) k Hnd) as Hlook.
    rewrite Nat.sub_0_r, Hl in Hraised.
    destruct (apply_results _ _ _ _) as [b' raised]; cbn [fst snd] in *.
    rewrite <- Hraised. destruct raised; cbn [fst snd].
    + rewrite mark_all_other_lookup. rewrite decide_True by done.
      by rewrite Hmark, Htag.
    + rewrite (Hlook eq_refl Hlk). rewrite decide_True by lia.
      by rewrite Nat.sub_0_r, Htag.
Qed.

(** ** Claims on categorize_transactions_batch *)

(** If the call raises, if the matched text does not decode, or if an entry
    within the range of the request is not an object, every cache miss gets
    the default code at low confidence. *)
Lemma fallback_on_exception `{PyEnv} cache ts cats k t :
  ts !! k = Some t → cache_lookup cache t = None →
  match messages_create (build_prompt cats (misses cache ts)) with
  | None => True
  | Some text =>
      match re_search_array (py_strip text) with
      | None => False
      | Some json_match =>
          match json_loads json_match with
          | None => True
          | Some results =>
              existsb is_not_object (take (length (misses cache ts)) results) = true
          end
      end
  end →
  (categorize_transactions_batch cache ts cats).1 !! k = Some (mark_other t).
Proof.
  intros Hk Hc Hreply. rewrite (categorize_lookup _ _ _ _ _ Hk).
  unfold categorized. rewrite Hc.
  destruct (messages_create _) as [text|]; [|done].
  destruct (re_search_array _) as [m|]; [|done].
  destruct (json_loads m) as [results|]; [|done].
  by rewrite Hreply.
Qed.

(** C1 (as the code behaves): when the classifier answers with a text in
    which no bracketed array is found, no exception is raised and no fallback
    runs: every cache-miss transaction of the batch is returned exactly as it
    was passed in, so one whose ai_* keys were unset still has them unset.
    The batch is returned in full. *)
Theorem C1_reply_without_array_leaves_misses_as_they_were
    `{PyEnv} cache ts cats text k t :
  messages_create (build_prompt cats (misses cache ts)) = Some text →
  re_search_array (py_strip text) = None →
  ts !! k = Some t →
  cache_lookup cache t = None →
  length (categorize_transactions_batch cache ts cats).1 = length ts
  ∧ (categorize_transactions_batch cache ts cats).1 !! k = Some t.
Proof.
  intros Hcall Hsearch Hk Hc. split; [apply categorize_length|].
  rewrite (categorize_lookup _ _ _ _ _ Hk). unfold categorized.
  by rewrite Hc, Hcall, Hsearch.
Qed.

Lemma C1_witness :
  let env := example_env (Some "I cannot categorize these.") None in
  @messages_create env
    (@build_prompt env example_categories (misses example_cache [coles; uber]))
  = Some "I cannot categorize these."
  ∧ re_search_array (py_strip "I cannot categorize these.") = None
  ∧ [coles; uber] !! 1 = Some uber
  ∧ cache_lookup example_cache uber = None
  ∧ Transaction.ai_suggested_code uber = None
  ∧ length (@categorize_transactions_batch env example_cache [coles; uber]
              example_categories).1 = 2
  ∧ (@categorize_transactions_batch env example_cache [coles; uber]
       example_categories).1 !! 1 = Some uber.
Proof.
  intros env.
  assert (re_search_array (py_strip "I cannot categorize these.") = None)
    as Hsearch by (vm_compute; reflexivity).
  assert (cache_lookup example_cache uber = None) as Hmiss
    by (vm_compute; reflexivity).
  destruct (@C1_reply_without_array_leaves_misses_as_they_were env
              example_cache [coles; uber] example_categories _ 1 uber
              eq_refl Hsearch eq_refl Hmiss) as [Hlen Hout].
  split_and!;
    [reflexivity | exact Hsearch | reflexivity | exact Hmiss | reflexivity
    | exact Hlen | exact Hout].
Defined.

(** C3: in categorize_transactions_batch every transaction whose lower-cased
    merchant name is a key of the merchant cache comes back with
    ai_suggested_code the cached code, ai_confidence 'high' and ai_from_cache
    true (its other keys untouched); the only request that can be sent is the
    one built from the cache misses, none of which has its key in the cache;
    and when every transaction of the batch is a hit no request is sent. *)
Theorem C3_cache_hits_tagged_and_kept_out_of_request
    `{PyEnv} (merchant_cache : gmap string cache_entry)
    (transactions : list transaction) (categories : list category) :
  let '(out, calls) :=
    categorize_transactions_batch merchant_cache transactions categories in
  length out = length transactions
  ∧ (∀ k t cached,
       transactions !! k = Some t →
       merchant_cache !! py_lower (extract_merchant_name (Transaction.description t))
         = Some cached →
       out !! k
       = Some (Transaction.mk (Transaction.id t) (Transaction.date t)
                 (Transaction.amount t) (Transaction.description t)
                 (Transaction.category_code t) (Transaction.reconciled t)
                 (Transaction.note t)
                 (Some (CacheEntry.category_code cached))
                 (Some (JStr "high")) (Some (JBool true))))
  ∧ calls = match misses merchant_cache transactions with
            | [] => []
            | uncached => [build_prompt categories uncached]
            end
  ∧ (∀ t, In t (misses merchant_cache transactions) →
       In t transactions
       ∧ merchant_cache !! py_lower (extract_merchant_name (Transaction.description t))
         = None)
  ∧ ((∀ t, In t transactions →
        is_Some (merchant_cache
                   !! py_lower (extract_merchant_name (Transaction.description t)))) →
     calls = []).
Proof.
  pose proof (categorize_length merchant_cache transactions categories) as Hlen.
  pose proof (categorize_calls merchant_cache transactions categories) as Hcalls.
  pose proof (categorize_lookup merchant_cache transactions categories) as Hlook.
  destruct (categorize_transactions_batch _ _ _) as [out calls].
  cbn [fst snd] in *.
  assert (∀ t, In t (misses merchant_cache transactions) →
            In t transactions
            ∧ merchant_cache
                !! py_lower (extract_merchant_name (Transaction.description t))
              = None) as Hmiss.
  { intros t [Hin Hm]%filter_In. split; [done|].
    unfold cache_miss, cache_lookup, merchant_key in Hm.
    by destruct (merchant_cache !! _). }
  split_and!; [done| |done|done|].
  - intros k t cached Hk Hc. rewrite (Hlook k t Hk). unfold categorized.
    unfold cache_lookup, merchant_key. by rewrite Hc.
  - intros Hall. rewrite Hcalls.
    destruct (misses merchant_cache transactions) as [|t ms] eqn:Hms; [done|].
    destruct (Hmiss t) as [Hin Hnone]; [by left|].
    destruct (Hall t Hin) as [e He]. congruence.
Qed.

(** C7, against the claim as first stated: a decoded entry that is an object
    without the keys category_code and confidence is not skipped; the
    transaction at its position gets the default code '500' and 'low'. *)
Lemma C7_counterexample :
  let env := example_env (Some "[{}]") (Some [Reply.Object (Reply.mk None None None)]) in
  re_search_array (py_strip "[{}]") = Some "[{}]"
  ∧ cache_lookup example_cache uber = None
  ∧ Transaction.ai_suggested_code uber = None
  ∧ (@categorize_transactions_batch env example_cache [coles; uber]
       example_categories).1 !! 1
    = Some (Transaction.set_ai (JStr "500") (JStr "low") (JBool false) uber).
Proof. vm_compute. done. Qed.

(** C7 (amended): when the reply decodes to an array, the entries are matched
    to the cache misses by their position in the array (the id they carry is
    not read).  Entries beyond the number of misses are ignored.  If an entry
    within that range is not an object, every miss gets the default '500' /
    'low'.  Otherwise a miss with no entry at its position is returned
    unchanged, and a miss with an object at its position gets that object's
    category_code and confidence, '500' and 'low' standing in for a missing
    key.  The batch is returned in full in every case. *)
Theorem C7_reply_entries_are_matched_by_position
    `{PyEnv} cache ts cats text json_match results k t :
  messages_create (build_prompt cats (misses cache ts)) = Some text →
  re_search_array (py_strip text) = Some json_match →
  json_loads json_match = Some results →
  ts !! k = Some t →
  cache_lookup cache t = None →
  let n := length (misses cache ts) in
  let j := length (misses cache (take k ts)) in
  let out := (categorize_transactions_batch cache ts cats).1 in
  length out = length ts
  ∧ out !! k
    = Some (if existsb is_not_object (take n results)
            then Transaction.set_ai (JStr "500") (JStr "low") (JBool false) t
            else
              match results !! j with
              | Some (Reply.Object o) =>
                  Transaction.set_ai
                    (default (JStr "500") (Reply.category_code o))
                    (default (JStr "low") (Reply.confidence o))
                    (JBool false) t
              | Some Reply.NotObject | None => t
              end).
Proof.
  intros Hcall Hsearch Hloads Hk Hc n j out. subst n j out.
  split; [apply categorize_length|].
  rewrite (categorize_lookup _ _ _ _ _ Hk). unfold categorized.
  rewrite Hc, Hcall, Hsearch, Hloads. reflexivity.
Qed.

Lemma C7_witness :
  let reply := example_reply in
  let results := example_results in
  let env := example_env (Some reply) (Some results) in
  let ts := [uber; coles; uber] in
  (@messages_create env (@build_prompt env example_categories (misses example_cache ts))
   = Some reply
   ∧ re_search_array (py_strip reply) = Some reply
   ∧ @json_loads env reply = Some results
   ∧ ts !! 0 = Some uber
   ∧ cache_lookup example_cache uber = None)
  ∧ length (@categorize_transactions_batch env example_cache ts example_categories).1
    = 3
  ∧ (@categorize_transactions_batch env example_cache ts example_categories).1 !! 0
    = Some (Transaction.set_ai (JStr "300") (JStr "low") (JBool false) uber).
Proof.
  intros reply results env ts.
  assert (re_search_array (py_strip reply) = Some reply) as Hsearch
    by (vm_compute; reflexivity).
  assert (cache_lookup example_cache uber = None) as Hmiss
    by (vm_compute; reflexivity).
  destruct (@C7_reply_entries_are_matched_by_position env example_cache ts
              example_categories reply reply results 0 uber
              eq_refl Hsearch eq_refl eq_refl Hmiss) as [Hlen Hout].
  split_and!;
    [reflexivity | exact Hsearch | reflexivity | reflexivity | exact Hmiss
    | exact Hlen | exact Hout].
Defined.

(** ** Sorting *)

Lemma insert_sorted_Permutation {A} (lt : A → A → bool) x l :
  Permutation (insert_sorted lt x l) (x :: l).
Proof.
  induction l as [|y l IH]; simpl; [done|].
  destruct (lt y x); [|done]. rewrite IH. apply perm_swap.
Qed.

Lemma stable_sort_Permutation {A} (lt : A → A → bool) l :
  Permutation (stable_sort lt l) l.
Proof.
  induction l as [|x l IH]; simpl; [done|].
  rewrite insert_sorted_Permutation. by constructor.
Qed.

Lemma sorted_reverse_Permutation {A} (lt : A → A → bool) l :
  Permutation (sorted_reverse lt l) l.
Proof.
  unfold sorted_reverse. rewrite <- Permutation_rev.
  rewrite stable_sort_Permutation. by rewrite <- Permutation_rev.
Qed.

(** ** The import *)

Lemma categorized_id `{PyEnv} cache ts cats k t :
  Transaction.id (categorized cache ts cats k t) = Transaction.id t.
Proof.
  unfold categorized, mark_other, apply_entry.
  repeat case_match; done.
Qed.

Lemma categorize_ids `{PyEnv} cache ts cats :
  Transaction.id <$> (categorize_transactions_batch cache ts cats).1
  = Transaction.id <$> ts.
Proof.
  apply list_eq. intros k. rewrite !list_lookup_fmap.
  destruct (ts !! k) as [t|] eqn:Hk.
  - rewrite (categorize_lookup _ _ _ _ _ Hk). simpl. by rewrite categorized_id.
  - rewrite (proj2 (lookup_ge_None _ _)); [done|].
    rewrite categorize_length. by apply lookup_ge_None.
Qed.

(** The rows a file offers for import: what the loop collects when nothing
    is stored yet. *)
Lemma read_rows_filter `{PyEnv} (existing_ids : gset string) reader :
  read_rows existing_ids reader
  = List.filter (λ t, bool_decide (Transaction.id t ∉ existing_ids))
      <$> read_rows ∅ reader.
Proof.
  induction reader as [|row reader IH]; simpl; [done|].
  destruct row as [|date_str [|amount_str [|description rest]]]; try done.
  destruct (float_of_string _) as [amount|]; [|done].
  rewrite IH. destruct (read_rows ∅ reader) as [cands|]; simpl; [|done].
  destruct (decide (_ ∈@{gset string} ∅)) as [Hin0|_]; [set_solver|]. simpl.
  destruct (decide (_ ∈ existing_ids)) as [Hin|Hin].
  - by rewrite bool_decide_false by (intros Hn; by apply Hn).
  - by rewrite bool_decide_true.
Qed.

(** A row of three fields or more whose amount parses offers the transaction
    with its identity key. *)
Lemma read_rows_offers `{PyEnv} reader cands date_str amount_str description rest amount :
  read_rows ∅ reader = Some cands →
  In (date_str :: amount_str :: description :: rest) reader →
  float_of_string (remove_char ","%char (remove_char dquote amount_str))
    = Some amount →
  In (make_trans_id (default date_str (reformat_date date_str)) amount description)
     (Transaction.id <$> cands).
Proof.
  revert cands. induction reader as [|row reader IH]; intros cands Hr Hin Hf;
    [done|].
  simpl in Hr. destruct Hin as [->|Hin].
  - rewrite Hf in Hr. destruct (read_rows ∅ reader) as [c|]; simpl in Hr; [|done].
    destruct (decide (_ ∈@{gset string} ∅)) as [Hin0|_]; [set_solver|].
    simplify_eq. by left.
  - destruct row as [|d [|a [|de re]]]; try by apply IH.
    destruct (float_of_string (remove_char _ (remove_char _ a))) as [am|]; [|done].
    destruct (read_rows ∅ reader) as [c|]; simpl in Hr; [|done].
    destruct (decide (_ ∈@{gset string} ∅)) as [Hin0|_]; [set_solver|].
    simplify_eq. right. by apply IH.
Qed.

(** What the route does, in terms of the rows offered. *)
Lemma upload_csv_unfold `{PyEnv} reader ts cats cache :
  upload_csv reader ts cats cache
  = match read_rows ∅ reader with
    | None => (UploadError, ts, [])
    | Some cands =>
        let new :=
          List.filter (λ t, bool_decide (Transaction.id t ∉@{gset string}
                                          list_to_set (Transaction.id <$> ts)))
            cands in
        match new with
        | [] => (UploadOk 0 ts, ts, [])
        | _ =>
            let r := categorize_transactions_batch cache new cats in
            let stored := sorted_reverse date_lt (ts ++ r.1) in
            (UploadOk (length r.1) stored, stored, r.2)
        end
    end.
Proof.
  unfold upload_csv. rewrite read_rows_filter.
  destruct (read_rows ∅ reader) as [cands|]; simpl; [|done].
  destruct (List.filter _ cands) as [|t new]; [done|].
  by destruct (categorize_transactions_batch _ _ _).
Qed.

Lemma stored_ids_after_upload `{PyEnv} reader ts cats cache cands x :
  read_rows ∅ reader = Some cands →
  In x (Transaction.id <$> ts) ∨ In x (Transaction.id <$> cands) →
  In x (Transaction.id <$> (upload_csv reader ts cats cache).1.2).
Proof.
  intros Hr Hx. rewrite upload_csv_unfold, Hr. cbn zeta.
  set (new := List.filter _ cands).
  assert (In x (Transaction.id <$> ts) ∨ In x (Transaction.id <$> new)) as Hx'.
  { destruct Hx as [Hx|Hx]; [by left|].
    destruct (decide (x ∈@{gset string} list_to_set (Transaction.id <$> ts)))
      as [Hin|Hin].
    - left. apply list_elem_of_In. by apply elem_of_list_to_set in Hin.
    - right. apply in_map_iff in Hx as (t & <- & Ht).
      apply in_map. apply filter_In. split; [done|]. by apply bool_decide_eq_true. }
  clearbody new. destruct new as [|t new].
  - simpl. destruct Hx' as [?|[]]. done.
  - cbn [fst snd].
    eapply Permutation_in.
    { apply Permutation_map. symmetry. apply sorted_reverse_Permutation. }
    rewrite fmap_app, categorize_ids. apply in_or_app. done.
Qed.

Lemma read_rows_None `{PyEnv} (existing_ids : gset string) reader :
  read_rows existing_ids reader = None
  ↔ ∃ date_str amount_str description rest,
      In (date_str :: amount_str :: description :: rest) reader
      ∧ float_of_string (remove_char ","%char (remove_char dquote amount_str))
        = None.
Proof.
  induction reader as [|row reader IH].
  - simpl. split; [done|]. by intros (? & ? & ? & ? & [] & _).
  - assert ((∃ date_str amount_str description rest,
               In (date_str :: amount_str :: description :: rest) (row :: reader)
               ∧ float_of_string (remove_char ","%char (remove_char dquote amount_str))
                 = None)
            ↔ (∃ date_str amount_str description rest,
                 row = date_str :: amount_str :: description :: rest
                 ∧ float_of_string (remove_char ","%char (remove_char dquote amount_str))
                   = None)
              ∨ read_rows existing_ids reader = None) as ->.
    { rewrite IH. split.
      - intros (d & a & de & re & [Hrow|Hin] & Hf); [left|right]; eauto 10.
      - intros [(d & a & de & re & -> & Hf)|(d & a & de & re & Hin & Hf)];
          exists d, a, de, re; (split; [|done]); [by left|by right]. }
    destruct row as [|d [|a [|de re]]]; simpl;
      try (split; [by right|by intros [(? & ? & ? & ? & ? & _)|?]]).
    destruct (float_of_string _) as [amount|] eqn:Hf.
    + destruct (read_rows existing_ids reader) as [new|]; simpl.
      * split; [done|]. intros [(? & ? & ? & ? & ? & ?)|?]; [|done].
        by simplify_eq.
      * split; [by right|done].
    + split; [|done]. intros _. left. by exists d, a, de, re.
Qed.


Lemma read_rows_keys `{PyEnv} reader cands :
  read_rows ∅ reader = Some cands →
  Transaction.id <$> cands = omap row_key reader.
Proof.
  revert cands. induction reader as [|row reader IH]; intros cands Hr; simpl in *.
  - by simplify_eq.
  - destruct row as [|d [|a [|de re]]]; simpl; try by apply IH.
    destruct (float_of_string _) as [am|]; simpl in *; [|done].
    destruct (read_rows ∅ reader) as [c|]; simpl in Hr; [|done].
    destruct (decide (_ ∈@{gset string} ∅)) as [Hin0|_]; [set_solver|].
    simplify_eq. simpl. f_equal. by apply IH.
Qed.

Lemma filter_none {A} (f : A → bool) l :
  (∀ x, In x l → f x = false) → List.filter f l = [].
Proof.
  induction l as [|x l IH]; intros Hf; simpl; [done|].
  rewrite (Hf x) by by left. apply IH. intros y Hy. apply Hf. by right.
Qed.

(** Within one process a second import of a file adds nothing, and after a
    successful import the key of every row read is a stored id. *)
Lemma reimport_in_one_process
    `{PyEnv} (reader : list (list string)) (transactions : list transaction)
    (categories : list category) (merchant_cache : gmap string cache_entry) :
  let first := upload_csv reader transactions categories merchant_cache in
  upload_csv reader first.1.2 categories merchant_cache
  = (match first.1.1 with
     | UploadOk _ _ => UploadOk 0 first.1.2
     | UploadError => UploadError
     end, first.1.2, [])
  ∧ (first.1.1 ≠ UploadError →
     ∀ date_str amount_str description rest amount,
       In (date_str :: amount_str :: description :: rest) reader →
       float_of_string (remove_char ","%char (remove_char dquote amount_str))
         = Some amount →
       In (make_trans_id (default date_str (reformat_date date_str)) amount
             description)
          (Transaction.id <$> first.1.2)).
Proof.
  intros first. subst first.
  pose proof (stored_ids_after_upload reader transactions categories
                merchant_cache) as Hids.
  pose proof (upload_csv_unfold reader transactions categories merchant_cache)
    as H1.
  destruct (upload_csv reader transactions categories merchant_cache)
    as [[response1 stored1] calls1].
  cbn [fst snd] in *.
  rewrite upload_csv_unfold.
  destruct (read_rows ∅ reader) as [cands|] eqn:Hr.
  - assert (List.filter
              (λ t, bool_decide (Transaction.id t ∉@{gset string}
                                   list_to_set (Transaction.id <$> stored1)))
              cands = []) as ->.
    { apply filter_none. intros t Ht. apply bool_decide_eq_false.
      intros Hn. apply Hn. apply elem_of_list_to_set, list_elem_of_In.
      apply (Hids cands); [done|]. right. by apply in_map. }
    cbn zeta. split.
    + cbn zeta in H1. destruct (List.filter _ cands); by simplify_eq.
    + intros _ date_str amount_str description rest amount Hin Hf.
      apply (Hids cands); [done|]. right.
      by eapply read_rows_offers.
  - simplify_eq. split; done.
Qed.

(** The import reads the hash of a description only modulo 10000, in the
    identity key. *)
Lemma read_rows_hash_ext (env : PyEnv) (salted : string → Z)
    (existing_ids : gset string) (reader : list (list string)) :
  (∀ date_str amount_str description rest,
     In (date_str :: amount_str :: description :: rest) reader →
     (salted description mod 10000)%Z = (@hash env description mod 10000)%Z) →
  @read_rows (with_hash env salted) existing_ids reader
  = @read_rows env existing_ids reader.
Proof.
  induction reader as [|row reader IH]; intros Hsame; [done|].
  assert (@read_rows (with_hash env salted) existing_ids reader
          = @read_rows env existing_ids reader) as IH'.
  { apply IH. intros d a de re Hin. apply (Hsame d a de re). by right. }
  destruct row as [|d [|a [|de re]]]; simpl; try exact IH'.
  rewrite IH'. unfold make_trans_id. simpl.
  by rewrite (Hsame d a de re (or_introl eq_refl)).
Qed.

Lemma upload_csv_hash_ext (env : PyEnv) (salted : string → Z)
    (reader : list (list string)) (transactions : list transaction)
    (categories : list category) (merchant_cache : gmap string cache_entry) :
  (∀ date_str amount_str description rest,
     In (date_str :: amount_str :: description :: rest) reader →
     (salted description mod 10000)%Z = (@hash env description mod 10000)%Z) →
  @upload_csv (with_hash env salted) reader transactions categories
    merchant_cache
  = @upload_csv env reader transactions categories merchant_cache.
Proof.
  intros Hsame. unfold upload_csv.
  rewrite (read_rows_hash_ext env salted _ reader Hsame). reflexivity.
Qed.

(** C5 (as the code behaves): the identity key of a row is the text
    <date>_<absolute amount>_<hash(description) mod 10000>, and hash is the
    hash of the running process, which CPython salts anew for each process
    while the store is a file that outlives it.  A second import by the same
    process (or by one whose hashes agree modulo 10000 on the descriptions of
    the file) adds nothing.  A second import by a process with another salt
    does not recognise the rows: after a successful first import every row
    read has its key among the stored ids, and whenever the key that the
    second process computes for a row is not a stored id, the second import
    succeeds, adds at least one transaction and leaves the row stored under
    both keys.  For the file with the one row 2024-03-02,-7.50,UBER TRIP
    imported into an empty store by a process whose hash of the description is
    9 and again by a process whose hash is 10, the store holds the purchase
    twice, with the ids 2024-03-02_7.5_9 and 2024-03-02_7.5_10. *)
Theorem C5_a_reimport_by_another_process_stores_the_rows_again :
  (let env := example_env None None in
   let env' := with_hash env (λ s, Z.of_nat (String.length s) + 1)%Z in
   let reader := [["2024-03-02"; "-7.50"; "UBER TRIP"]] in
   let first := @upload_csv env reader [] example_categories ∅ in
   let again := @upload_csv env' reader first.1.2 example_categories ∅ in
   Transaction.id <$> first.1.2 = ["2024-03-02_7.5_9"]
   ∧ Transaction.id <$> again.1.2 = ["2024-03-02_7.5_9"; "2024-03-02_7.5_10"]
   ∧ Transaction.description <$> again.1.2 = ["UBER TRIP"; "UBER TRIP"]
   ∧ again.1.1 = UploadOk 1 again.1.2)
  ∧ ∀ (env : PyEnv) (salted : string → Z) (reader : list (list string))
      (transactions : list transaction) (categories : list category)
      (merchant_cache : gmap string cache_entry),
      let env' := with_hash env salted in
      let first :=
        @upload_csv env reader transactions categories merchant_cache in
      let again :=
        @upload_csv env' reader first.1.2 categories merchant_cache in
      ((∀ date_str amount_str description rest,
          In (date_str :: amount_str :: description :: rest) reader →
          (salted description mod 10000)%Z
          = (@hash env description mod 10000)%Z) →
       again
       = (match first.1.1 with
          | UploadOk _ _ => UploadOk 0 first.1.2
          | UploadError => UploadError
          end, first.1.2, []))
      ∧ (first.1.1 ≠ UploadError →
         ∀ date_str amount_str description rest amount,
           In (date_str :: amount_str :: description :: rest) reader →
           @float_of_string env
             (remove_char ","%char (remove_char dquote amount_str))
           = Some amount →
           let date := default date_str (@reformat_date env date_str) in
           let key (h : string → Z) :=
             date +:+ "_" +:+ @repr_float env (PrimFloat.abs amount) +:+ "_"
             +:+ str_of_Z (h description mod 10000) in
           In (key (@hash env)) (Transaction.id <$> first.1.2)
           ∧ (¬ In (key salted) (Transaction.id <$> first.1.2) →
              ∃ imported,
                again.1.1 = UploadOk imported again.1.2
                ∧ 1 ≤ imported
                ∧ length again.1.2 = length first.1.2 + imported
                ∧ In (key (@hash env)) (Transaction.id <$> again.1.2)
                ∧ In (key salted) (Transaction.id <$> again.1.2))).
Proof.
  split; [by vm_compute|].
  intros env salted reader transactions categories merchant_cache env' first
    again.
  destruct (@reimport_in_one_process env reader transactions categories
              merchant_cache) as [Hsame Hkeys].
  fold first in Hsame, Hkeys. split.
  - intros Hhash. subst again env'.
    by rewrite (upload_csv_hash_ext env salted reader _ _ _ Hhash).
  - intros Hok date_str amount_str description rest amount Hin Hf date key.
    split; [exact (Hkeys Hok date_str amount_str description rest amount Hin Hf)|].
    intros Hfresh.
    assert (is_Some (@read_rows env' ∅ reader)) as [cands' Hr'].
    { destruct (@read_rows env' ∅ reader) as [c|] eqn:Hr; [by eexists|].
      exfalso. apply Hok.
      apply (@read_rows_None env') in Hr as (d & a & de & re & Hrow & Hbad).
      assert (@read_rows env ∅ reader = None) as Hnone.
      { apply (@read_rows_None env). by exists d, a, de, re. }
      subst first. rewrite upload_csv_unfold, Hnone. done. }
    assert (In (key salted) (Transaction.id <$> cands')) as Hcand.
    { exact (@read_rows_offers env' reader cands' date_str amount_str
               description rest amount Hr' Hin Hf). }
    pose proof (@stored_ids_after_upload env' reader first.1.2 categories
                  merchant_cache cands') as Hids.
    fold again in Hids. subst again.
    rewrite (@upload_csv_unfold env') in Hids |- *. rewrite Hr' in Hids |- *.
    cbn zeta in Hids |- *.
    set (new := List.filter _ cands') in *.
    assert (In (key salted) (Transaction.id <$> new)) as Hnew.
    { apply in_map_iff in Hcand as (t & Ht & Hin'). apply in_map_iff.
      exists t. split; [done|]. apply filter_In. split; [done|].
      apply bool_decide_eq_true. rewrite elem_of_list_to_set, list_elem_of_In.
      by rewrite Ht. }
    clearbody new. destruct new as [|t0 new0]; [done|].
    pose proof (@categorize_length env' merchant_cache (t0 :: new0) categories)
      as Hlen.
    cbn [fst snd] in *. eexists. split_and!; [done| | | |].
    + rewrite Hlen. simpl. lia.
    + rewrite (Permutation_length (sorted_reverse_Permutation _ _)).
      by rewrite length_app.
    + apply (Hids _ eq_refl). left.
      exact (Hkeys Hok date_str amount_str description rest amount Hin Hf).
    + apply (Hids _ eq_refl). by right.
Qed.

Lemma omap_two_rows `{PyEnv} (reader : list (list string)) i j rowA rowB key :
  i < j → reader !! i = Some rowA → reader !! j = Some rowB →
  row_key rowA = Some key → row_key rowB = Some key →
  ∃ l1 l2 l3, omap row_key reader = l1 ++ key :: l2 ++ key :: l3.
Proof.
  intros Hij Hi Hj HA HB.
  rewrite <- (take_drop_middle reader i rowA Hi).
  assert (drop (S i) reader !! (j - S i) = Some rowB) as Hj'.
  { rewrite lookup_drop. rewrite <- Hj. f_equal. lia. }
  rewrite <- (take_drop_middle (drop (S i) reader) (j - S i) rowB Hj').
  exists (omap row_key (take i reader)),
         (omap row_key (take (j - S i) (drop (S i) reader))),
         (omap row_key (drop (S (j - S i)) (drop (S i) reader))).
  rewrite omap_app. simpl. rewrite HA. f_equal. f_equal.
  rewrite omap_app. simpl. by rewrite HB.
Qed.

(** C10: the import compares the identity key of a row only with the ids
    stored before the upload: the ids in the store after a successful import
    are those stored before together with the key of every row read whose key
    was not stored before, one per row.  So when two rows of one file have
    the same key, and that key was not stored before, both are imported and
    the store holds at least two transactions with this id. *)
Theorem C10_rows_of_one_file_with_the_same_key_are_all_imported
    `{PyEnv} (reader : list (list string)) (transactions : list transaction)
    (categories : list category) (merchant_cache : gmap string cache_entry)
    (i j : nat) (rowA rowB : list string) (trans_id : string) :
  i < j →
  reader !! i = Some rowA →
  reader !! j = Some rowB →
  row_key rowA = Some trans_id →
  row_key rowB = Some trans_id →
  ¬ In trans_id (Transaction.id <$> transactions) →
  (upload_csv reader transactions categories merchant_cache).1.1 ≠ UploadError →
  let '(response, stored, _) :=
    upload_csv reader transactions categories merchant_cache in
  Permutation (Transaction.id <$> stored)
    ((Transaction.id <$> transactions)
     ++ List.filter (λ key, bool_decide (key ∉ Transaction.id <$> transactions))
          (omap row_key reader))
  ∧ (∃ imported, response = UploadOk imported stored ∧ 2 ≤ imported)
  ∧ 2 ≤ count_occ string_dec (Transaction.id <$> stored) trans_id.
Proof.
  intros Hij Hi Hj HA HB Hnew Hok.
  rewrite upload_csv_unfold in *.
  destruct (read_rows ∅ reader) as [cands|] eqn:Hr; [|done].
  cbn zeta in *. clear Hok.
  pose proof (read_rows_keys _ _ Hr) as Hkeys.
  destruct (omap_two_rows reader i j rowA rowB trans_id Hij Hi Hj HA HB)
    as (l1 & l2 & l3 & Hsplit).
  set (keep := λ key : string,
         bool_decide (key ∉ Transaction.id <$> transactions)).
  set (new := List.filter _ cands).
  assert (Transaction.id <$> new = List.filter keep (omap row_key reader))
    as Hnew_ids.
  { rewrite <- Hkeys. subst new keep. clear.
    induction cands as [|t cands IH]; simpl; [done|].
    destruct (decide (Transaction.id t ∈ Transaction.id <$> transactions))
      as [Hin|Hin].
    - rewrite !bool_decide_eq_false_2; [done| |]; intros Hn; apply Hn;
        [done|by apply elem_of_list_to_set].
    - rewrite !bool_decide_eq_true_2; [|done|by rewrite elem_of_list_to_set].
      simpl. by f_equal. }
  assert (keep trans_id = true) as Hkeep.
  { apply bool_decide_eq_true. intros Hin. apply Hnew.
    by apply list_elem_of_In. }
  assert (2 ≤ count_occ string_dec (Transaction.id <$> new) trans_id) as Hcount.
  { rewrite Hnew_ids, Hsplit. rewrite !List.filter_app. simpl. rewrite Hkeep.
    rewrite !List.filter_app. simpl. rewrite Hkeep.
    rewrite !count_occ_app. simpl.
    destruct (string_dec trans_id trans_id); [|done].
    rewrite !count_occ_app. simpl.
    destruct (string_dec trans_id trans_id); [|done]. lia. }
  clearbody new. destruct new as [|t new]; [simpl in Hcount; lia|].
  pose proof (categorize_ids merchant_cache (t :: new) categories) as Hcat.
  pose proof (categorize_length merchant_cache (t :: new) categories) as Hlen.
  destruct (categorize_transactions_batch _ _ _) as [out calls].
  cbn [fst snd] in *.
  assert (Permutation (Transaction.id <$> sorted_reverse date_lt (transactions ++ out))
            ((Transaction.id <$> transactions) ++ (Transaction.id <$> t :: new)))
    as Hperm.
  { rewrite sorted_reverse_Permutation. by rewrite fmap_app, Hcat. }
  split_and!.
  - by rewrite Hperm, Hnew_ids.
  - eexists. split; [done|].
    rewrite Hlen.
    etrans; [exact Hcount|]. rewrite <- (length_fmap Transaction.id).
    apply count_occ_bound.
  - rewrite (proj1 (Permutation_count_occ string_dec _ _) Hperm).
    rewrite count_occ_app. lia.
Qed.

Lemma C10_witness :
  let env := example_env (Some "I cannot categorize these.") None in
  let row := ["2024-03-01"; "-12.50"; "COLES 0123  SYDNEY"] in
  let key := "2024-03-01_12.5_18" in
  (0 < 2
   ∧ example_statement !! 0 = Some row
   ∧ example_statement !! 2 = Some row
   ∧ @row_key env row = Some key
   ∧ ¬ In key (Transaction.id <$> [])
   ∧ (@upload_csv env example_statement [] example_categories example_cache).1.1
     ≠ UploadError)
  ∧ let '(response, stored, _) :=
      @upload_csv env example_statement [] example_categories example_cache in
    Permutation (Transaction.id <$> stored)
      ((Transaction.id <$> [])
       ++ List.filter (λ key, bool_decide (key ∉ Transaction.id <$> []))
            (omap (@row_key env) example_statement))
    ∧ (∃ imported, response = UploadOk imported stored ∧ 2 ≤ imported)
    ∧ 2 ≤ count_occ string_dec (Transaction.id <$> stored) key.
Proof.
  intros env row key.
  assert (0 < 2) as H1 by lia.
  assert (example_statement !! 0 = Some row) as H2 by reflexivity.
  assert (example_statement !! 2 = Some row) as H3 by reflexivity.
  assert (@row_key env row = Some key) as H4 by (vm_compute; reflexivity).
  assert (¬ In key (Transaction.id <$> [])) as H5 by (simpl; tauto).
  assert ((@upload_csv env example_statement [] example_categories
             example_cache).1.1 ≠ UploadError) as H6
    by (vm_compute; discriminate).
  split; [split_and!; assumption|].
  exact (@C10_rows_of_one_file_with_the_same_key_are_all_imported env
           example_statement [] example_categories example_cache 0 2 row row
           key H1 H2 H3 H4 H4 H5 H6).
Defined.

(** ** The reconciliation operations *)

Lemma update_transaction_reconciled data t :
  Transaction.reconciled (update_transaction data t)
  = match UpdateRequest.reconciled data with
    | Some v => Some v
    | None => Transaction.reconciled t
    end.
Proof.
  unfold update_transaction, assign_if_present.
  by destruct data as [[?|] [?|] [?|] ?], t.
Qed.

Lemma api_transaction_lookup trans_id data ts cache k t :
  ts !! k = Some t →
  (api_transaction trans_id data ts cache).1 !! k = Some t
  ∨ (api_transaction trans_id data ts cache).1 !! k
    = Some (update_transaction data t).
Proof.
  revert k. induction ts as [|t0 ts IH]; intros k Hk; [done|]. simpl.
  destruct (String.eqb _ _); simpl.
  - destruct k; simpl in *; simplify_eq; auto.
  - specialize (IH (pred k)).
    destruct (api_transaction trans_id data ts cache). simpl in *.
    destruct k; simpl in *; simplify_eq; auto.
Qed.

Lemma api_transaction_first trans_id data before t after cache :
  (∀ t0, In t0 before → Transaction.id t0 ≠ trans_id) →
  Transaction.id t = trans_id →
  (api_transaction trans_id data (before ++ t :: after) cache).1
  = before ++ update_transaction data t :: after.
Proof.
  intros Hb Ht. induction before as [|t0 before IH]; simpl.
  - by rewrite (proj2 (String.eqb_eq _ _) Ht).
  - rewrite (proj2 (String.eqb_neq _ _)) by (apply Hb; by left).
    destruct (api_transaction _ _ _ _). simpl in *. f_equal. apply IH.
    intros t1 H1. apply Hb. by right.
Qed.

Lemma reconcile_loop_lookup trans_id code ts cache k t :
  ts !! k = Some t →
  (reconcile_loop trans_id code ts cache).1 !! k = Some t
  ∨ (reconcile_loop trans_id code ts cache).1 !! k
    = Some (Transaction.set_reconciled (JBool true)
              (Transaction.set_category_code code t)).
Proof.
  revert k. induction ts as [|t0 ts IH]; intros k Hk; [done|]. simpl.
  destruct (String.eqb _ _); simpl.
  - destruct k; simpl in *; simplify_eq; auto.
  - specialize (IH (pred k)).
    destruct (reconcile_loop trans_id code ts cache). simpl in *.
    destruct k; simpl in *; simplify_eq; auto.
Qed.

(** reconcile_all, transaction by transaction. *)
Lemma reconcile_all_loop_spec ts cache count :
  reconcile_all_loop ts cache count
  = ((λ t, if wants_reconcile t then accept_suggestion t else t) <$> ts,
     fold_left
       (λ c t, learn (Transaction.description t)
                 (default JNull (Transaction.ai_suggested_code t))
                 (Transaction.id t) c)
       (List.filter wants_reconcile ts) cache,
     count + length (List.filter wants_reconcile ts)).
Proof.
  revert cache count. induction ts as [|t ts IH]; intros cache count; simpl.
  - by rewrite Nat.add_0_r.
  - destruct (wants_reconcile t) eqn:Hw; rewrite IH; simpl.
    + f_equal. lia.
    + done.
Qed.

(** ** What reconcile_all teaches the cache *)

Lemma learned_elsewhere l c key :
  (∀ t, In t l → merchant_key (Transaction.description t) ≠ key) →
  fold_left learn_suggestion l c !! key = c !! key.
Proof.
  revert c. induction l as [|t l IH]; intros c Hl; simpl; [done|].
  rewrite IH by (intros t' Ht'; apply Hl; by right).
  unfold learn_suggestion, learn. apply lookup_insert_ne. apply Hl. by left.
Qed.

Lemma learned_last l1 t l2 c :
  (∀ t', In t' l2 →
     merchant_key (Transaction.description t')
     ≠ merchant_key (Transaction.description t)) →
  fold_left learn_suggestion (l1 ++ t :: l2) c
    !! merchant_key (Transaction.description t)
  = Some (CacheEntry.mk (default JNull (Transaction.ai_suggested_code t))
            "high" (Transaction.id t)).
Proof.
  intros Hl2. rewrite fold_left_app. simpl.
  rewrite learned_elsewhere by done.
  unfold learn_suggestion at 1, learn. apply lookup_insert_eq.
Qed.

Lemma learned_high_kept l c key :
  (∃ e, c !! key = Some e ∧ CacheEntry.confidence e = "high") →
  ∃ e, fold_left learn_suggestion l c !! key = Some e
       ∧ CacheEntry.confidence e = "high".
Proof.
  revert c. induction l as [|t l IH]; intros c Hc; simpl; [done|].
  apply IH. unfold learn_suggestion, learn.
  destruct (decide (merchant_key (Transaction.description t) = key)) as [<-|Hne].
  - rewrite lookup_insert_eq. eauto.
  - by rewrite lookup_insert_ne.
Qed.

Lemma learned_high l c t :
  In t l →
  ∃ e, fold_left learn_suggestion l c !! merchant_key (Transaction.description t)
       = Some e
       ∧ CacheEntry.confidence e = "high".
Proof.
  revert c. induction l as [|t0 l IH]; intros c Hin; [done|]. simpl.
  destruct Hin as [->|Hin]; [|by apply IH].
  apply learned_high_kept. unfold learn_suggestion at 1, learn.
  rewrite lookup_insert_eq. eauto.
Qed.

(** C9, against the claim as first stated: an unreconciled transaction whose
    ai_suggested_code is the empty string, which is not null, is left as it
    is and is not counted. *)
Lemma C9_counterexample :
  Transaction.ai_suggested_code blank_suggestion = Some (JStr "")
  ∧ truthy_get (Transaction.reconciled blank_suggestion) = false
  ∧ reconcile_all [blank_suggestion] ∅ = ([blank_suggestion], ∅, 0).
Proof. split_and!; reflexivity. Qed.

(** C9 (amended): reconcile_all accepts the suggestion of every transaction
    that is unreconciled and carries a truthy ai_suggested_code (a non-empty
    string): category_code becomes the suggestion, reconciled becomes true,
    the other keys stay, and the cache gets an entry with confidence 'high'
    under the merchant key, which holds this code and this id unless a later
    accepted transaction has the same merchant key.  Every other transaction
    (reconciled already, or with an absent, null or empty suggestion) is
    saved unchanged.  The count returned is the number of transactions
    accepted, and cache keys of no accepted transaction are untouched. *)
Theorem C9_reconcile_all_accepts_every_truthy_suggestion
    (transactions : list transaction)
    (merchant_cache : gmap string cache_entry) :
  let accepted (t : transaction) : bool :=
    negb (truthy_get (Transaction.reconciled t))
    && truthy_get (Transaction.ai_suggested_code t) in
  let '(saved, cache', reconciled_count) :=
    reconcile_all transactions merchant_cache in
  length saved = length transactions
  ∧ (∀ k t,
       transactions !! k = Some t →
       if accepted t then
         ∃ code,
           Transaction.ai_suggested_code t = Some code
           ∧ saved !! k
             = Some (Transaction.mk (Transaction.id t) (Transaction.date t)
                       (Transaction.amount t) (Transaction.description t)
                       (Some code) (Some (JBool true)) (Transaction.note t)
                       (Transaction.ai_suggested_code t)
                       (Transaction.ai_confidence t)
                       (Transaction.ai_from_cache t))
           ∧ ∃ e,
               cache' !! py_lower (extract_merchant_name (Transaction.description t))
               = Some e
               ∧ CacheEntry.confidence e = "high"
               ∧ ((∀ k' t',
                     k < k' → transactions !! k' = Some t' → accepted t' = true →
                     merchant_key (Transaction.description t')
                     ≠ merchant_key (Transaction.description t)) →
                  e = CacheEntry.mk code "high" (Transaction.id t))
       else saved !! k = Some t)
  ∧ reconciled_count = length (List.filter accepted transactions)
  ∧ (∀ key,
       (∀ t, In t transactions → accepted t = true →
          merchant_key (Transaction.description t) ≠ key) →
       cache' !! key = merchant_cache !! key).
Proof.
  intros accepted. unfold reconcile_all. rewrite reconcile_all_loop_spec.
  change wants_reconcile with accepted.
  fold learn_suggestion.
  split_and!.
  - apply length_fmap.
  - intros k t Hk. rewrite list_lookup_fmap, Hk. simpl.
    destruct (accepted t) eqn:Hacc; [|done].
    assert (∃ code, Transaction.ai_suggested_code t = Some code) as [code Hcode].
    { unfold accepted in Hacc. destruct (Transaction.ai_suggested_code t); [eauto|].
      by rewrite andb_false_r in Hacc. }
    exists code. split; [done|]. split.
    { unfold accept_suggestion. destruct t. simpl in *. by subst. }
    assert (In t (List.filter accepted transactions)) as Hin.
    { apply filter_In. split; [|done]. apply list_elem_of_In.
      by eapply list_elem_of_lookup_2. }
    destruct (learned_high _ merchant_cache t Hin) as (e & He & Hhigh).
    exists e. split_and!; [done|done|].
    intros Hlast.
    rewrite <- (take_drop_middle transactions k t Hk) in He.
    rewrite List.filter_app in He. simpl in He. rewrite Hacc in He.
    rewrite learned_last in He.
    + rewrite Hcode in He. simpl in He. congruence.
    + intros t' [Ht' Hacc']%filter_In.
      apply list_elem_of_In, list_elem_of_lookup in Ht' as [i Hi].
      rewrite lookup_drop in Hi. eapply (Hlast (S k + i)); [lia|done|done].
  - done.
  - intros key Hkey. apply learned_elsewhere.
    intros t [Ht Hacc]%filter_In. by apply Hkey.
Qed.

(** ** Comparison of floats *)

Lemma SFcompare_Lt_antisym a b :
  SFcompare a b = Some Lt → SFcompare b a = Some Gt.
Proof.
  destruct a as [sa|sa| |sa ma ea], b as [sb|sb| |sb mb eb]; simpl; try done;
    repeat match goal with s : bool |- _ => destruct s end; simpl; try done.
  all: change (PosDef.Pos.compare_cont Eq mb ma) with (Pos.compare mb ma);
    change (PosDef.Pos.compare_cont Eq ma mb) with (Pos.compare ma mb);
    rewrite (Z.compare_antisym ea eb), (Pos.compare_antisym ma mb);
    destruct (ea ?= eb)%Z; simpl; try done;
    destruct (ma ?= mb)%positive; simpl; done.
Qed.

(** [<] on floats is asymmetric. *)
Lemma float_ltb_asym (x y : float) :
  PrimFloat.ltb x y = true → PrimFloat.ltb y x = false.
Proof.
  rewrite !ltb_spec. unfold SFltb. intros H.
  destruct (SFcompare (Prim2SF x) (Prim2SF y)) as [[]|] eqn:Hc; try done.
  by rewrite (SFcompare_Lt_antisym _ _ Hc).
Qed.

(** ** The stable sort sorts *)

Section SortingProofs.
Context {A : Type} (lt : A → A → bool).
Hypothesis lt_asym : ∀ a b, lt a b = true → lt b a = false.

Lemma insert_sorted_Sorted x l :
  Sorted (λ a b, lt b a = false) l →
  Sorted (λ a b, lt b a = false) (insert_sorted lt x l).
Proof.
  induction 1 as [|y l Hs IH Hhd]; simpl; [by repeat constructor|].
  destruct (lt y x) eqn:Hyx.
  - constructor; [done|].
    destruct Hhd as [|z l Hz]; simpl.
    + constructor. by apply lt_asym.
    + destruct (lt z x); constructor; [done|by apply lt_asym].
  - constructor; [by constructor|]. by constructor.
Qed.

Lemma stable_sort_Sorted l : Sorted (λ a b, lt b a = false) (stable_sort lt l).
Proof.
  induction l as [|x l IH]; simpl; [constructor|].
  by apply insert_sorted_Sorted.
Qed.

(** In the result no element is smaller than its successor. *)
Lemma sorted_reverse_Sorted l :
  Sorted (λ a b, lt a b = false) (sorted_reverse lt l).
Proof.
  unfold sorted_reverse. rewrite rev_alt. fold (reverse (stable_sort lt (rev l))).
  apply (Sorted_reverse (λ a b, lt b a = false)). apply stable_sort_Sorted.
Qed.
End SortingProofs.

(** ** The insertion-ordered dictionary *)

Section DictProofs.
Context {K V : Type} `{EqDecision K}.
Implicit Types (f g : K → V) (L : list K).

Local Abbreviation keyed f L := ((λ c, (c, f c)) <$> L).

Lemma dict_get_keyed f L k :
  dict_get k (keyed f L) = if decide (k ∈ L) then Some (f k) else None.
Proof.
  induction L as [|c L IH]; csimpl.
  - destruct (decide (k ∈ [])) as [Hin|]; [by apply elem_of_nil in Hin|done].
  - destruct (decide (c = k)) as [->|Hne].
    + by rewrite decide_True by left.
    + rewrite IH. destruct (decide (k ∈ L)) as [Hin|Hin].
      * by rewrite decide_True by by right.
      * rewrite decide_False; [done|]. by intros [?|?]%elem_of_cons.
Qed.

Lemma dict_set_keyed_new f L k v :
  k ∉ L → dict_set k v (keyed f L) = keyed f L ++ [(k, v)].
Proof.
  induction L as [|c L IH]; intros Hk; csimpl; [done|].
  destruct (decide (c = k)) as [->|Hne]; [exfalso; apply Hk; by left|].
  f_equal. apply IH. intros Hin. apply Hk. by right.
Qed.

Lemma keyed_ext f g L : (∀ c, c ∈ L → f c = g c) → keyed f L = keyed g L.
Proof.
  intros Hfg. apply list_fmap_ext. intros i c Hc. f_equal. apply Hfg.
  by eapply list_elem_of_lookup_2.
Qed.

Lemma dict_set_keyed_old f L k v :
  NoDup L → k ∈ L →
  dict_set k v (keyed f L) = keyed (λ c, if decide (c = k) then v else f c) L.
Proof.
  induction L as [|c L IH]; intros Hnd Hk; [by apply elem_of_nil in Hk|].
  apply NoDup_cons in Hnd as [Hc Hnd]. csimpl.
  destruct (decide (c = k)) as [->|Hne].
  - f_equal. apply keyed_ext. intros c Hin. rewrite decide_False; [done|].
    by intros ->.
  - f_equal. apply IH; [done|]. by apply elem_of_cons in Hk as [?|?].
Qed.
End DictProofs.

(** ** The grouping loop *)

Lemma members_snoc code l t :
  members code (l ++ [t])
  = members code l ++ (if decide (group_code t = code) then [t] else []).
Proof.
  unfold members. rewrite List.filter_app. simpl.
  destruct (decide (group_code t = code)).
  - by rewrite bool_decide_eq_true_2.
  - by rewrite bool_decide_eq_false_2.
Qed.

Lemma sum_abs_snoc l t :
  sum_abs (l ++ [t])
  = PrimFloat.add (sum_abs l) (PrimFloat.abs (Transaction.amount t)).
Proof. unfold sum_abs. by rewrite fold_left_app. Qed.

Lemma codes_seen_snoc l t :
  codes_seen (l ++ [t])
  = if decide (group_code t ∈ codes_seen l) then codes_seen l
    else codes_seen l ++ [group_code t].
Proof. unfold codes_seen. by rewrite fold_left_app. Qed.

Lemma codes_seen_NoDup l : NoDup (codes_seen l).
Proof.
  induction l as [|t l IH] using rev_ind; [constructor|].
  rewrite codes_seen_snoc. case_decide; [done|].
  apply NoDup_app. split_and!; [done| |apply NoDup_singleton].
  intros c Hc Hc'. apply list_elem_of_singleton in Hc' as ->. done.
Qed.

Lemma codes_seen_elem l code :
  code ∈ codes_seen l ↔ ∃ t, In t l ∧ group_code t = code.
Proof.
  induction l as [|t l IH] using rev_ind.
  - split; [by intros ?%elem_of_nil|by intros (t & [] & _)].
  - rewrite codes_seen_snoc. split.
    + intros Hc. case_decide as Hd.
      * apply IH in Hc as (t' & Ht' & <-). exists t'. split; [|done].
        apply in_or_app. by left.
      * apply elem_of_app in Hc as [Hc|Hc];
          [|apply list_elem_of_singleton in Hc as ->].
        -- apply IH in Hc as (t' & Ht' & <-). exists t'. split; [|done].
           apply in_or_app. by left.
        -- exists t. split; [|done]. apply in_or_app. right. by left.
    + intros (t' & Hin & <-). apply in_app_or in Hin as [Ht'|[->|[]]].
      * assert (group_code t' ∈ codes_seen l) by (apply IH; eauto).
        case_decide; [done|]. apply elem_of_app. by left.
      * case_decide; [done|]. apply elem_of_app. right. by left.
Qed.

Lemma members_unseen l code : code ∉ codes_seen l → members code l = [].
Proof.
  intros Hc. apply filter_none. intros t Ht. apply bool_decide_eq_false.
  intros Heq. apply Hc. apply codes_seen_elem. eauto.
Qed.

(** The two dictionaries after the loop: for every code seen, the running
    total and the list of its transactions. *)
Lemma grouping_loop l :
  fold_left group_step l ([], [])
  = ((λ c, (c, sum_abs (members c l))) <$> codes_seen l,
     (λ c, (c, members c l)) <$> codes_seen l).
Proof.
  induction l as [|t l IH] using rev_ind; [done|].
  rewrite fold_left_app, IH. simpl. unfold group_step.
  set (code := group_code t).
  pose proof (codes_seen_NoDup l) as Hnd.
  pose proof (codes_seen_NoDup (l ++ [t])) as Hnd'.
  rewrite codes_seen_snoc in *. fold code in Hnd' |- *.
  rewrite dict_get_keyed.
  destruct (decide (code ∈ codes_seen l)) as [Hin|Hin].
  - rewrite !dict_get_keyed, !decide_True by done. simpl.
    rewrite !dict_set_keyed_old by done.
    f_equal; apply keyed_ext; intros c Hc;
      rewrite members_snoc; fold code;
      destruct (decide (c = code)) as [->|Hne].
    + rewrite decide_True by done. by rewrite sum_abs_snoc.
    + rewrite decide_False by done. by rewrite app_nil_r.
    + by rewrite decide_True by done.
    + rewrite decide_False by done. by rewrite app_nil_r.
  - rewrite !dict_set_keyed_new by done.
    assert (code ∈ codes_seen l ++ [code]) as Hin'.
    { apply elem_of_app. right. by left. }
    replace (((λ c, (c, sum_abs (members c l))) <$> codes_seen l)
             ++ [(code, 0%float)])
      with ((λ c, (c, if decide (c = code) then 0%float
                      else sum_abs (members c l)))
              <$> (codes_seen l ++ [code])).
    2: { rewrite fmap_app. simpl. rewrite decide_True by done. f_equal.
         apply keyed_ext. intros c Hc. rewrite decide_False; [done|].
         by intros ->. }
    replace (((λ c, (c, members c l)) <$> codes_seen l) ++ [(code, [])])
      with ((λ c, (c, if decide (c = code) then [] else members c l))
              <$> (codes_seen l ++ [code])).
    2: { rewrite fmap_app. simpl. rewrite decide_True by done. f_equal.
         apply keyed_ext. intros c Hc. rewrite decide_False; [done|].
         by intros ->. }
    rewrite !dict_get_keyed, !decide_True by done. simpl.
    rewrite !dict_set_keyed_old by done.
    f_equal; apply keyed_ext; intros c Hc;
      rewrite members_snoc; fold code;
      destruct (decide (c = code)) as [->|Hne].
    + rewrite !decide_True by done. rewrite (members_unseen l code Hin).
      done.
    + rewrite !decide_False by done. by rewrite app_nil_r.
    + rewrite !decide_True by done. by rewrite (members_unseen l code Hin).
    + rewrite !decide_False by done. by rewrite app_nil_r.
Qed.

(** ** The rows of the aggregation *)

Lemma row_for_fields cats filtered code :
  code ∈ codes_seen filtered →
  Analysis.code (row_for cats filtered code) = code
  ∧ Analysis.total (row_for cats filtered code)
    = round2 (sum_abs (members code filtered))
  ∧ Analysis.transactions (row_for cats filtered code) = members code filtered
  ∧ (Analysis.name (row_for cats filtered code),
     Analysis.type (row_for cats filtered code))
    = match category_map_get cats code with
      | Some cat => (Category.name cat, Category.type cat)
      | None => ("Unknown", "variable")
      end.
Proof.
  intros Hc. unfold row_for, analysis_row.
  rewrite dict_get_keyed, decide_True by done.
  by destruct (category_map_get cats code).
Qed.

Lemma api_analysis_rows kind ts cats :
  let filtered := List.filter (eligible kind) ts in
  api_analysis kind ts cats
  = (λ item, row_for cats filtered item.1)
      <$> sorted_reverse total_lt
            ((λ c, (c, sum_abs (members c filtered))) <$> codes_seen filtered).
Proof.
  intros filtered. unfold api_analysis. fold filtered.
  rewrite grouping_loop. apply list_fmap_ext. intros i item Hi.
  assert (item ∈ (λ c, (c, sum_abs (members c filtered))) <$> codes_seen filtered)
    as Hin.
  { rewrite <- (sorted_reverse_Permutation total_lt).
    by eapply list_elem_of_lookup_2. }
  apply list_elem_of_fmap in Hin as (c & -> & Hc). done.
Qed.

Lemma api_analysis_codes kind ts cats :
  Permutation (Analysis.code <$> api_analysis kind ts cats)
    (codes_seen (List.filter (eligible kind) ts)).
Proof.
  rewrite api_analysis_rows. cbn zeta.
  set (filtered := List.filter (eligible kind) ts).
  set (items := (λ c, (c, sum_abs (members c filtered))) <$> codes_seen filtered).
  assert (Analysis.code <$> ((λ item, row_for cats filtered item.1)
                               <$> sorted_reverse total_lt items)
          = fst <$> sorted_reverse total_lt items) as ->.
  { rewrite <- list_fmap_compose. apply list_fmap_ext. intros i item Hi.
    assert (item ∈ items) as Hin.
    { rewrite <- (sorted_reverse_Permutation total_lt).
      by eapply list_elem_of_lookup_2. }
    apply list_elem_of_fmap in Hin as (c & -> & Hc). simpl.
    by apply row_for_fields. }
  rewrite sorted_reverse_Permutation. subst items.
  rewrite <- list_fmap_compose. simpl. by rewrite list_fmap_id.
Qed.

Lemma api_analysis_row kind ts cats r :
  In r (api_analysis kind ts cats) →
  let filtered := List.filter (eligible kind) ts in
  Analysis.code r ∈ codes_seen filtered
  ∧ r = row_for cats filtered (Analysis.code r).
Proof.
  intros Hr filtered. rewrite api_analysis_rows in Hr. fold filtered in Hr.
  apply list_elem_of_In, list_elem_of_fmap in Hr as (item & -> & Hitem).
  rewrite (sorted_reverse_Permutation total_lt) in Hitem.
  apply list_elem_of_fmap in Hitem as (c & -> & Hc). simpl.
  destruct (row_for_fields cats filtered c Hc) as (-> & _). done.
Qed.

Lemma api_analysis_Sorted kind ts cats :
  Sorted (λ r1 r2,
            PrimFloat.ltb (sum_abs (Analysis.transactions r1))
              (sum_abs (Analysis.transactions r2)) = false)
    (api_analysis kind ts cats).
Proof.
  rewrite api_analysis_rows. cbn zeta.
  set (filtered := List.filter (eligible kind) ts).
  set (items := (λ c, (c, sum_abs (members c filtered))) <$> codes_seen filtered).
  assert (Forall (λ item, item ∈ items) (sorted_reverse total_lt items)) as Hall.
  { apply Forall_forall. intros item Hin.
    by rewrite (sorted_reverse_Permutation total_lt) in Hin. }
  pose proof (sorted_reverse_Sorted total_lt
                (λ a b, float_ltb_asym a.2 b.2) items) as Hs.
  induction Hs as [|item l Hs IH Hhd]; simpl; [constructor|].
  apply Forall_cons in Hall as [Hitem Hall].
  constructor; [by apply IH|].
  destruct Hhd as [|item' l' Hlt]; simpl; constructor.
  apply Forall_cons in Hall as [Hitem' _].
  apply list_elem_of_fmap in Hitem as (c & -> & Hc).
  apply list_elem_of_fmap in Hitem' as (c' & -> & Hc'). simpl.
  destruct (row_for_fields cats filtered c Hc) as (_ & _ & -> & _).
  destruct (row_for_fields cats filtered c' Hc') as (_ & _ & -> & _).
  exact Hlt.
Qed.

(** ** Sums of absolute amounts

    A sum of absolute values that are not NaN is not NaN, and is not
    negative; on such floats [<=] is a total preorder. *)

Lemma shr_1_nonneg mrs : (0 ≤ shr_m mrs)%Z → (0 ≤ shr_m (shr_1 mrs))%Z.
Proof.
  destruct mrs as [[|[p|p|]|p] r s]; simpl; lia.
Qed.

Lemma iter_pos_shr_1_nonneg n mrs :
  (0 ≤ shr_m mrs)%Z → (0 ≤ shr_m (SpecFloat.iter_pos shr_1 n mrs))%Z.
Proof.
  revert mrs. induction n as [n IH|n IH|]; intros mrs Hm; simpl.
  - apply IH, IH. by apply shr_1_nonneg.
  - by apply IH, IH.
  - by apply shr_1_nonneg.
Qed.

Lemma shr_fexp_nonneg m e l :
  (0 ≤ m)%Z → (0 ≤ shr_m (shr_fexp prec emax m e l).1)%Z.
Proof.
  intros Hm. unfold shr_fexp, shr.
  assert (shr_m (shr_record_of_loc m l) = m) as Hrec by by destruct l as [|[]].
  destruct (_ - e)%Z; simpl; rewrite ?Hrec; try done.
  apply iter_pos_shr_1_nonneg. by rewrite Hrec.
Qed.

Lemma round_nearest_even_nonneg m l :
  (0 ≤ m)%Z → (0 ≤ round_nearest_even m l)%Z.
Proof.
  intros Hm. destruct l as [|[]]; simpl; try lia. destruct (Z.even m); lia.
Qed.

Lemma binary_round_aux_nonneg m e l :
  (0 ≤ m)%Z → sf_nonneg (binary_round_aux prec emax false m e l).
Proof.
  intros Hm. unfold binary_round_aux.
  pose proof (shr_fexp_nonneg m e l Hm) as H1.
  destruct (shr_fexp prec emax m e l) as [mrs' e']. simpl in H1.
  pose proof (shr_fexp_nonneg _ e' loc_Exact
                (round_nearest_even_nonneg _ (loc_of_shr_record mrs') H1)) as H2.
  destruct (shr_fexp prec emax _ e' loc_Exact) as [mrs'' e'']. simpl in H2.
  destruct (shr_m mrs'') as [|p|p]; [done| |lia].
  by destruct (e'' <=? emax - prec)%Z.
Qed.

Lemma SFadd_nonneg a b :
  sf_nonneg a → sf_nonneg b → sf_nonneg (SFadd prec emax a b).
Proof.
  destruct a as [[]|[]| |[] ma ea], b as [[]|[]| |[] mb eb]; simpl; try done.
  intros _ _. unfold binary_round. destruct (shl_align _ _ _) as [mz ez].
  by apply binary_round_aux_nonneg.
Qed.

Lemma SFabs_nonneg a : a ≠ S754_nan → sf_nonneg (SFabs a).
Proof. by destruct a. Qed.

Lemma SFcompare_refl a : a ≠ S754_nan → SFcompare a a = Some Eq.
Proof.
  destruct a as [[]|[]| |[] m e]; simpl; try done; intros _.
  all: change (PosDef.Pos.compare_cont Eq m m) with (Pos.compare m m);
    by rewrite Z.compare_refl, Pos.compare_refl.
Qed.

Lemma is_nan_false x : is_nan x = false ↔ Prim2SF x ≠ S754_nan.
Proof.
  unfold is_nan. rewrite FloatAxioms.eqb_spec. unfold SFeqb. split.
  - intros H Hnan. rewrite Hnan in H. done.
  - intros H. by rewrite SFcompare_refl.
Qed.

Lemma sf_nonneg_not_nan x : sf_nonneg (Prim2SF x) → is_nan x = false.
Proof. intros H. apply is_nan_false. intros Hn. by rewrite Hn in H. Qed.

Lemma sum_abs_nonneg_from (l : list transaction) (acc : float) :
  sf_nonneg (Prim2SF acc) →
  (∀ t, In t l → is_nan (Transaction.amount t) = false) →
  sf_nonneg
    (Prim2SF
       (fold_left
          (λ acc t, PrimFloat.add acc (PrimFloat.abs (Transaction.amount t)))
          l acc)).
Proof.
  revert acc. induction l as [|t l IH]; intros acc Hacc Hl; simpl; [done|].
  apply IH; [|intros t' Ht'; apply Hl; by right].
  rewrite add_spec, abs_spec. apply SFadd_nonneg; [done|].
  apply SFabs_nonneg, is_nan_false, Hl. by left.
Qed.

Lemma sum_abs_nonneg (l : list transaction) :
  (∀ t, In t l → is_nan (Transaction.amount t) = false) →
  sf_nonneg (Prim2SF (sum_abs l)).
Proof. apply sum_abs_nonneg_from. done. Qed.

(** [<=] on the floats that are not negative. *)
Lemma SFcompare_nonneg_total a b :
  sf_nonneg a → sf_nonneg b →
  SFltb a b = false → SFleb b a = true.
Proof.
  unfold SFltb, SFleb.
  destruct a as [[]|[]| |[] ma ea], b as [[]|[]| |[] mb eb]; simpl; try done.
  intros _ _.
  change (PosDef.Pos.compare_cont Eq mb ma) with (Pos.compare mb ma);
    change (PosDef.Pos.compare_cont Eq ma mb) with (Pos.compare ma mb).
  rewrite (Z.compare_antisym ea eb), (Pos.compare_antisym ma mb).
  destruct (ea ?= eb)%Z; simpl; try done.
  by destruct (ma ?= mb)%positive.
Qed.

Lemma SFleb_nonneg_trans a b c :
  sf_nonneg a → sf_nonneg b → sf_nonneg c →
  SFleb a b = true → SFleb b c = true → SFleb a c = true.
Proof.
  unfold SFleb.
  destruct a as [[]|[]| |[] ma ea], b as [[]|[]| |[] mb eb],
    c as [[]|[]| |[] mc ec]; simpl; try done.
  intros _ _ _.
  change (PosDef.Pos.compare_cont Eq ma mb) with (Pos.compare ma mb);
    change (PosDef.Pos.compare_cont Eq mb mc) with (Pos.compare mb mc);
    change (PosDef.Pos.compare_cont Eq ma mc) with (Pos.compare ma mc).
  destruct (Z.compare_spec ea eb), (Z.compare_spec eb ec),
    (Z.compare_spec ea ec); try done; try lia.
  all: destruct (Pos.compare_spec ma mb), (Pos.compare_spec mb mc),
    (Pos.compare_spec ma mc); try done; lia.
Qed.

(** ** Claims on api_analysis *)

Lemma find_all_false {A} (f : A → bool) l :
  (∀ x, In x l → f x = false) → List.find f l = None.
Proof.
  induction l as [|x l IH]; intros Hf; simpl; [done|].
  rewrite (Hf x) by by left. apply IH. intros y Hy. apply Hf. by right.
Qed.

(** C4 (as the code behaves): a reconciled transaction whose category_code
    is null is not grouped under '500'.  The default of
    [t.get('category_code', '500')] is used for an absent key only; a key
    that holds null yields null, so the transaction is reported in a row whose
    code is null, which carries the placeholder name 'Unknown' unless some
    category has the code null.  For the store that holds the single
    reconciled, uncategorised expense [uncoded] and the categories '100' and
    '500', the report is one row: code null, 'Unknown', total 7.5. *)
Theorem C4_null_code_is_grouped_under_null_not_500 :
  api_analysis "expenses" [uncoded] example_categories
  = [Analysis.mk JNull "Unknown" "variable" 7.5 [uncoded]]
  ∧ ∀ transaction_type transactions categories t,
      In t transactions →
      eligible transaction_type t = true →
      Transaction.category_code t = Some JNull →
      (∃ r, In r (api_analysis transaction_type transactions categories)
            ∧ Analysis.code r = JNull
            ∧ In t (Analysis.transactions r)
            ∧ ((∀ c, In c categories → Category.code c ≠ JNull) →
               Analysis.name r = "Unknown"))
      ∧ ∀ r, In r (api_analysis transaction_type transactions categories) →
             Analysis.code r = JStr "500" →
             ¬ In t (Analysis.transactions r).
Proof.
  split; [by vm_compute|].
  intros kind ts cats t Ht Hel Hnull.
  set (filtered := List.filter (eligible kind) ts).
  assert (In t filtered) as Hf by (apply filter_In; done).
  assert (group_code t = JNull) as Hcode by (unfold group_code; by rewrite Hnull).
  split.
  - assert (JNull ∈ codes_seen filtered) as Hseen.
    { apply codes_seen_elem. eauto. }
    assert (JNull ∈ Analysis.code <$> api_analysis kind ts cats) as Hrow.
    { by rewrite api_analysis_codes. }
    apply list_elem_of_fmap in Hrow as (r & Hr & Hin).
    apply list_elem_of_In in Hin.
    destruct (api_analysis_row kind ts cats r Hin) as [_ Hrf].
    fold filtered in Hrf. rewrite <- Hr in Hrf.
    destruct (row_for_fields cats filtered JNull Hseen) as (_ & _ & Htx & Hname).
    exists r. split_and!; [done|done| |].
    + rewrite Hrf, Htx. apply filter_In. split; [done|].
      by apply bool_decide_eq_true.
    + intros Hcats. rewrite Hrf.
      assert (category_map_get cats JNull = None) as Hnone.
      { unfold category_map_get. apply find_all_false. intros c Hc.
        apply bool_decide_eq_false. apply Hcats. by apply in_rev. }
      rewrite Hnone in Hname. by simplify_eq.
  - intros r Hin H500 Hmem.
    destruct (api_analysis_row kind ts cats r Hin) as [Hseen Hrf].
    fold filtered in Hseen, Hrf.
    destruct (row_for_fields cats filtered _ Hseen) as (_ & _ & Htx & _).
    rewrite Hrf, Htx in Hmem. apply filter_In in Hmem as [_ Hmem].
    apply bool_decide_eq_true in Hmem. congruence.
Qed.

(** *** Rounding to two decimals *)

(** [round_half_even n d] is the integer nearest to n/d, the even one of
    the two when n/d lies half way. *)
Lemma round_half_even_nearest (n d : Z) :
  (0 < d)%Z → (0 ≤ n)%Z →
  let k := round_half_even n d in
  (0 ≤ k)%Z
  ∧ (2 * Z.abs (k * d - n) ≤ d)%Z
  ∧ ((2 * Z.abs (k * d - n))%Z = d → Z.even k = true).
Proof.
  intros Hd Hn k. subst k. unfold round_half_even.
  pose proof (Z.div_mod n d ltac:(lia)) as Hdiv.
  pose proof (Z.mod_pos_bound n d Hd) as Hmod.
  pose proof (Z.div_pos n d Hn Hd) as Hq.
  set (q := (n / d)%Z) in *. set (r := (n mod d)%Z) in *.
  destruct (Z.compare_spec (2 * r) d) as [Heq|Hlt|Hgt].
  - destruct (Z.even q) eqn:Heven.
    + split_and!; [lia|nia|done].
    + split_and!; [lia|nia|].
      intros _. rewrite Z.even_add, Heven. done.
  - split_and!; [lia|nia|]. intros Htie. exfalso. nia.
  - split_and!; [lia|nia|]. intros Htie. exfalso. nia.
Qed.

(** *** The order of the rows *)

Lemma StronglySorted_lookup {A} (R : A → A → Prop) l i j x y :
  StronglySorted R l → i < j → l !! i = Some x → l !! j = Some y → R x y.
Proof.
  intros Hs. revert i j. induction Hs as [|a l Hs IH Hall]; intros i j Hij Hi Hj.
  - done.
  - destruct j as [|j]; [lia|]. destruct i as [|i]; simpl in *.
    + simplify_eq. eapply (proj1 (List.Forall_forall _ _) Hall).
      by eapply list_elem_of_In, list_elem_of_lookup_2.
    + eapply (IH i j); [lia|done|done].
Qed.

Lemma api_analysis_sums_nonneg kind ts cats r :
  (∀ t, In t ts → eligible kind t = true →
        is_nan (Transaction.amount t) = false) →
  In r (api_analysis kind ts cats) →
  sf_nonneg (Prim2SF (sum_abs (Analysis.transactions r))).
Proof.
  intros Hnan Hr.
  destruct (api_analysis_row kind ts cats r Hr) as [Hseen Hrf].
  destruct (row_for_fields cats (List.filter (eligible kind) ts) _ Hseen)
    as (_ & _ & Htx & _).
  rewrite Hrf, Htx. apply sum_abs_nonneg. intros t Ht.
  apply filter_In in Ht as [Ht _]. apply filter_In in Ht as [Ht Hel]. auto.
Qed.

Lemma api_analysis_descending kind ts cats i j r1 r2 :
  (∀ t, In t ts → eligible kind t = true →
        is_nan (Transaction.amount t) = false) →
  i < j →
  api_analysis kind ts cats !! i = Some r1 →
  api_analysis kind ts cats !! j = Some r2 →
  PrimFloat.leb (sum_abs (Analysis.transactions r2))
    (sum_abs (Analysis.transactions r1)) = true.
Proof.
  intros Hnan Hij Hi Hj.
  set (sum := λ r : Analysis.row, Prim2SF (sum_abs (Analysis.transactions r))).
  set (R := λ r1 r2 : Analysis.row,
              sf_nonneg (sum r1) ∧ sf_nonneg (sum r2)
              ∧ SFleb (sum r2) (sum r1) = true).
  assert (Sorted R (api_analysis kind ts cats)) as Hsorted.
  { pose proof (api_analysis_Sorted kind ts cats) as Hs.
    assert (Forall (λ r, sf_nonneg (sum r)) (api_analysis kind ts cats)) as Hall.
    { apply List.Forall_forall. intros r Hr.
      by apply (api_analysis_sums_nonneg kind ts cats). }
    revert Hall. generalize (api_analysis kind ts cats) Hs. clear.
    intros l Hs. induction Hs as [|r l Hs IH Hhd]; intros Hall; [constructor|].
    apply Forall_cons in Hall as [Hr Hall]. constructor; [by apply IH|].
    destruct Hhd as [|r' l' Hlt]; constructor.
    apply Forall_cons in Hall as [Hr' _]. split_and!; [done|done|].
    apply SFcompare_nonneg_total; [done|done|]. unfold sum.
    by rewrite <- ltb_spec. }
  assert (Transitive R) as Htrans.
  { intros a b c (Ha & Hb & Hab) (_ & Hc & Hbc). split_and!; [done|done|].
    by apply (SFleb_nonneg_trans (sum c) (sum b) (sum a)). }
  pose proof (StronglySorted_lookup R _ i j r1 r2
                (@sorting.Sorted_StronglySorted _ R Htrans _ Hsorted) Hij Hi Hj)
    as (_ & _ & Hle).
  by rewrite leb_spec.
Qed.

Lemma eligible_signed_not_nan kind t :
  kind = "expenses" ∨ kind = "income" →
  eligible kind t = true →
  is_nan (Transaction.amount t) = false.
Proof.
  intros Hkind Hel. apply is_nan_false. intros Hnan. revert Hel.
  unfold eligible. rewrite !ltb_spec, Hnan.
  destruct Hkind as [-> | ->]; simpl; by rewrite andb_false_r.
Qed.

(** C6, against the claim as stated: the rows are not always in descending
    order of their totals.  An amount that reads as NaN gives its category
    the total NaN, which compares as neither smaller nor larger than any
    total; the sort then finds nothing to move (no total is smaller than
    the one before it in the list it sorts) and the rows stay in the order
    in which their codes were first seen.  Here the row with total 5 comes
    before the row with total 7. *)
Lemma C6_counterexample :
  api_analysis "all"
    [spend "t1" (-5) "X" true; spend "t2" nan "Y" true;
     spend "t3" (-7) "Z" true]
    ledger_categories
  = [Analysis.mk (JStr "X") "Unknown" "variable" 5 [spend "t1" (-5) "X" true];
     Analysis.mk (JStr "Y") "Unknown" "variable" nan [spend "t2" nan "Y" true];
     Analysis.mk (JStr "Z") "Unknown" "variable" 7 [spend "t3" (-7) "Z" true]]
  ∧ PrimFloat.ltb 5 7 = true.
Proof. by vm_compute. Qed.

(** C6 (amended): for the four transactions of the example the report on
    expenses has exactly two rows, A with total 20 and the two reconciled A
    transactions, then B with total 10 and its transaction; the unreconciled
    transaction is in neither.  Totals are rounded: the amounts 1.0625 and
    1.0625 give the total 2.12 and the amount 0.375 the total 0.38.  In
    general a row lists exactly the reconciled transactions of the requested
    kind (expenses: amount < 0; income: amount > 0; anything else: all) that
    are grouped under its code, in the order of the store, and lists at least
    one; its total is round(., 2) of the sum of their absolute amounts; every
    such transaction has a row; no code has two rows.  When no transaction
    of the requested kind has the amount NaN (none has for expenses and for
    income), the rows are in descending order of these sums: of any two
    rows the later one has the smaller or the same sum (the sort key is the
    sum before rounding).  round(x, 2) leaves a float without a fractional
    part, an infinity and NaN as they are; otherwise it is k/100 as a float,
    for the integer k nearest to 100 times the exact magnitude of x, the
    even one when two are equally near, with the sign of x. *)
Theorem C6_aggregation_is_sorted_when_no_amount_is_nan :
  api_analysis "expenses" example_ledger ledger_categories
  = [Analysis.mk (JStr "A") "Groceries" "variable" 20
       [spend "t1" (-12.5) "A" true; spend "t2" (-7.5) "A" true];
     Analysis.mk (JStr "B") "Transport" "variable" 10
       [spend "t3" (-10) "B" true]]
  ∧ api_analysis "expenses"
      [spend "t1" (-0.375) "B" true; spend "t2" (-1.0625) "A" true;
       spend "t3" (-1.0625) "A" true]
      ledger_categories
    = [Analysis.mk (JStr "A") "Groceries" "variable" (212 / 100)
         [spend "t2" (-1.0625) "A" true; spend "t3" (-1.0625) "A" true];
       Analysis.mk (JStr "B") "Transport" "variable" (38 / 100)
         [spend "t1" (-0.375) "B" true]]
  ∧ (∀ transaction_type transactions categories,
      let of_kind (t : transaction) : bool :=
        truthy_get (Transaction.reconciled t)
        && (if String.eqb transaction_type "expenses"
            then PrimFloat.ltb (Transaction.amount t) 0
            else if String.eqb transaction_type "income"
            then PrimFloat.ltb 0 (Transaction.amount t)
            else true) in
      let rows := api_analysis transaction_type transactions categories in
      (∀ r, In r rows →
         Analysis.transactions r
         = List.filter
             (λ t, of_kind t
                   && bool_decide (default (JStr "500") (Transaction.category_code t)
                                   = Analysis.code r))
             transactions
         ∧ Analysis.transactions r ≠ []
         ∧ Analysis.total r
           = round2 (sum_abs (Analysis.transactions r)))
      ∧ (∀ t, In t transactions → of_kind t = true →
           ∃ r, In r rows ∧ In t (Analysis.transactions r))
      ∧ NoDup (Analysis.code <$> rows)
      ∧ ((∀ t, In t transactions → of_kind t = true →
               is_nan (Transaction.amount t) = false) →
         ∀ i j r1 r2,
           i < j → rows !! i = Some r1 → rows !! j = Some r2 →
           PrimFloat.leb (sum_abs (Analysis.transactions r2))
             (sum_abs (Analysis.transactions r1)) = true)
      ∧ (transaction_type = "expenses" ∨ transaction_type = "income" →
         ∀ t, of_kind t = true → is_nan (Transaction.amount t) = false))
  ∧ (∀ x : float,
       match Prim2SF x with
       | S754_finite s m e =>
           if (0 <=? e)%Z then round2 x = x
           else
             ∃ k : Z,
               (0 ≤ k)%Z
               ∧ (2 * Z.abs (k * 2 ^ (- e) - 100 * Z.pos m) ≤ 2 ^ (- e))%Z
               ∧ ((2 * Z.abs (k * 2 ^ (- e) - 100 * Z.pos m))%Z = (2 ^ (- e))%Z →
                  Z.even k = true)
               ∧ round2 x
                 = SF2Prim
                     match k with
                     | Z.pos p =>
                         SFdiv prec emax (S754_finite s p 0)
                           (S754_finite false 100 0)
                     | _ => S754_zero s
                     end
       | _ => round2 x = x
       end).
Proof.
  split; [by vm_compute|]. split; [by vm_compute|]. split.
  2: { intros x. unfold round2.
       destruct (Prim2SF x) as [| | |s m e]; try done.
       destruct (0 <=? e)%Z eqn:He; [done|]. apply Z.leb_gt in He.
       assert (0 < 2 ^ (- e))%Z as Hd by (apply Z.pow_pos_nonneg; lia).
       destruct (round_half_even_nearest (Z.pos m * 100) (2 ^ (- e)) Hd
                   ltac:(lia)) as (Hk & Hnear & Htie).
       exists (round_half_even (Z.pos m * 100) (2 ^ (- e))).
       rewrite (Z.mul_comm 100 (Z.pos m)). split_and!; [done|done|done|].
       by destruct (round_half_even _ _). }
  intros kind ts cats of_kind rows.
  assert (∀ t, of_kind t = eligible kind t) as Hkind.
  { intros t. unfold of_kind, eligible.
    destruct (String.eqb kind "expenses"); [done|].
    destruct (String.eqb kind "income"); [done|]. by rewrite andb_true_r. }
  set (filtered := List.filter (eligible kind) ts).
  assert (∀ code,
            members code filtered
            = List.filter
                (λ t, of_kind t
                      && bool_decide (default (JStr "500")
                                        (Transaction.category_code t) = code))
                ts) as Hmembers.
  { intros code. unfold members, filtered. clear -Hkind.
    induction ts as [|t ts IH]; simpl; [done|]. rewrite Hkind.
    destruct (eligible kind t); simpl; [|done].
    unfold group_code at 1, default_code.
    destruct (bool_decide _); by rewrite IH. }
  split_and!.
  - intros r Hr.
    destruct (api_analysis_row kind ts cats r Hr) as [Hseen Hrf].
    fold filtered in Hseen, Hrf.
    destruct (row_for_fields cats filtered _ Hseen) as (_ & Htot & Htx & _).
    rewrite <- Hrf in Htot, Htx. rewrite Htx at 1 2. split_and!.
    + apply Hmembers.
    + apply codes_seen_elem in Hseen as (t & Ht & Hc). intros Hnil.
      assert (In t (members (Analysis.code r) filtered)) as Hin.
      { apply filter_In. split; [done|]. by apply bool_decide_eq_true. }
      by rewrite Hnil in Hin.
    + rewrite Htot. by rewrite Htx.
  - intros t Ht Hk. rewrite Hkind in Hk.
    assert (In t filtered) as Hf by (apply filter_In; done).
    assert (group_code t ∈ Analysis.code <$> rows) as Hrow.
    { unfold rows. rewrite api_analysis_codes. apply codes_seen_elem. eauto. }
    apply list_elem_of_fmap in Hrow as (r & Hr & Hin).
    apply list_elem_of_In in Hin. exists r. split; [done|].
    destruct (api_analysis_row kind ts cats r Hin) as [Hseen Hrf].
    fold filtered in Hseen, Hrf.
    destruct (row_for_fields cats filtered _ Hseen) as (_ & _ & Htx & _).
    rewrite Hrf, Htx. apply filter_In. split; [done|].
    by apply bool_decide_eq_true.
  - unfold rows. rewrite api_analysis_codes. apply codes_seen_NoDup.
  - intros Hnan i j r1 r2. apply api_analysis_descending.
    intros t Ht Hel. apply Hnan; [done|]. by rewrite Hkind.
  - intros Hsigned t Hk. rewrite Hkind in Hk.
    by apply (eligible_signed_not_nan kind).
Qed.

(** ** The reconciled flag across the operations *)

Lemma categorized_reconciled `{PyEnv} cache ts cats k t :
  Transaction.reconciled (categorized cache ts cats k t)
  = Transaction.reconciled t.
Proof.
  unfold categorized, mark_other, apply_entry.
  repeat case_match; done.
Qed.

Lemma upload_csv_keeps_stored `{PyEnv} reader ts cats cache :
  ∃ added, Permutation (upload_csv reader ts cats cache).1.2 (ts ++ added).
Proof.
  rewrite upload_csv_unfold.
  destruct (read_rows ∅ reader) as [cands|]; cbn zeta.
  - destruct (List.filter _ cands) as [|t new].
    + exists []. by rewrite app_nil_r.
    + eexists. cbn [fst snd]. apply sorted_reverse_Permutation.
  - exists []. by rewrite app_nil_r.
Qed.

(** C2, against the claim as first stated: an update by id whose body carries
    reconciled = false sets the flag of a reconciled transaction back to
    false. *)
Lemma C2_counterexample :
  truthy_get (Transaction.reconciled settled) = true
  ∧ (api_transaction "2024-03-02_7.5_9"
       (UpdateRequest.mk None (Some (JBool false)) None None) [settled] ∅).1
    = [Transaction.set_reconciled (JBool false) settled]
  ∧ truthy_get (Transaction.reconciled
                  (Transaction.set_reconciled (JBool false) settled)) = false.
Proof. split_and!; reflexivity. Qed.

(** C2 (amended): a transaction whose reconciled flag is true keeps a true
    flag under the single reconcile, reconcile-all, categorisation, import
    and aggregation; under an update by id it keeps it when the body has no
    reconciled key or a true one.  An update by id whose body has a
    reconciled key stores that value, whatever it is, on the first
    transaction with the id. *)
Theorem C2_reconciled_flag_is_kept_unless_an_update_overwrites_it :
  (* update by id *)
  (∀ trans_id data transactions merchant_cache k t,
     transactions !! k = Some t →
     truthy_get (Transaction.reconciled t) = true →
     UpdateRequest.reconciled data = None
     ∨ truthy_get (UpdateRequest.reconciled data) = true →
     ∃ t', (api_transaction trans_id data transactions merchant_cache).1 !! k
           = Some t'
           ∧ truthy_get (Transaction.reconciled t') = true)
  ∧ (∀ trans_id data before t after merchant_cache v,
       (∀ t0, In t0 before → Transaction.id t0 ≠ trans_id) →
       Transaction.id t = trans_id →
       UpdateRequest.reconciled data = Some v →
       ∃ t', (api_transaction trans_id data (before ++ t :: after)
                merchant_cache).1
             = before ++ t' :: after
             ∧ Transaction.reconciled t' = Some v)
  (* single reconcile *)
  ∧ (∀ transaction_id category_code transactions merchant_cache saved cache' k t,
       reconcile_transaction transaction_id category_code transactions
         merchant_cache = Some (saved, cache') →
       transactions !! k = Some t →
       truthy_get (Transaction.reconciled t) = true →
       ∃ t', saved !! k = Some t'
             ∧ truthy_get (Transaction.reconciled t') = true)
  (* reconcile-all *)
  ∧ (∀ transactions merchant_cache k t,
       transactions !! k = Some t →
       truthy_get (Transaction.reconciled t) = true →
       (reconcile_all transactions merchant_cache).1.1 !! k = Some t)
  (* categorisation *)
  ∧ (∀ (env : PyEnv) merchant_cache transactions categories k t,
       transactions !! k = Some t →
       ∃ t', (categorize_transactions_batch merchant_cache transactions
                categories).1 !! k = Some t'
             ∧ Transaction.reconciled t' = Transaction.reconciled t)
  (* import: the stored transactions stay as they are *)
  ∧ (∀ (env : PyEnv) reader transactions categories merchant_cache,
       ∃ added,
         Permutation
           (upload_csv reader transactions categories merchant_cache).1.2
           (transactions ++ added))
  (* aggregation: the rows list stored transactions, and only reconciled ones *)
  ∧ (∀ transaction_type transactions categories r t,
       In r (api_analysis transaction_type transactions categories) →
       In t (Analysis.transactions r) →
       In t transactions ∧ truthy_get (Transaction.reconciled t) = true).
Proof.
  split_and!.
  - intros trans_id data ts cache k t Hk Ht Hdata.
    destruct (api_transaction_lookup trans_id data ts cache k t Hk) as [->| ->];
      eexists; (split; [done|]); [done|].
    rewrite update_transaction_reconciled.
    destruct Hdata as [-> | Hd]; [done|].
    by destruct (UpdateRequest.reconciled data).
  - intros trans_id data before t after cache v Hb Ht Hv.
    rewrite (api_transaction_first _ _ _ _ _ _ Hb Ht).
    eexists. split; [done|]. by rewrite update_transaction_reconciled, Hv.
  - intros tid code ts cache saved cache' k t Hr Hk Ht.
    unfold reconcile_transaction in Hr.
    destruct (negb _ || negb _); [done|].
    destruct tid as [[| |trans_id]|], code as [c|]; simplify_eq; eauto.
    pose proof (reconcile_loop_lookup trans_id c ts cache k t Hk) as Hl.
    match goal with Heq : reconcile_loop _ _ _ _ = _ |- _ => rewrite Heq in Hl end.
    cbn [fst] in Hl. destruct Hl as [->| ->]; eauto.
  - intros ts cache k t Hk Ht. unfold reconcile_all.
    rewrite reconcile_all_loop_spec. cbn [fst snd].
    rewrite list_lookup_fmap, Hk. simpl.
    unfold wants_reconcile. by rewrite Ht.
  - intros env cache ts cats k t Hk. eexists.
    split; [by apply categorize_lookup|]. apply categorized_reconciled.
  - intros env reader ts cats cache. apply upload_csv_keeps_stored.
  - intros kind ts cats r t Hr Ht.
    destruct (api_analysis_row kind ts cats r Hr) as [Hseen Hrf].
    destruct (row_for_fields cats _ _ Hseen) as (_ & _ & Htx & _).
    rewrite Hrf, Htx in Ht. apply filter_In in Ht as [Ht _].
    apply filter_In in Ht as [Hin Hel]. split; [done|].
    unfold eligible in Hel.
    destruct (String.eqb kind "expenses"); [by apply andb_true_iff in Hel as [? _]|].
    destruct (String.eqb kind "income"); [by apply andb_true_iff in Hel as [? _]|].
    done.
Qed.

(** ** The merchant normaliser *)

Section Spans.
Context {A : Type} (p : A → bool).

Lemma take_drop_while l : take_while p l ++ drop_while p l = l.
Proof. induction l as [|x l IH]; simpl; [done|]. destruct (p x); simpl; by f_equal. Qed.

Lemma take_while_Forall l : Forall (λ x, p x = true) (take_while p l).
Proof.
  induction l as [|x l IH]; simpl; [constructor|].
  destruct (p x) eqn:Hx; by constructor.
Qed.

Lemma drop_while_head l x l' : drop_while p l = x :: l' → p x = false.
Proof.
  induction l as [|y l IH]; simpl; [done|].
  destruct (p y) eqn:Hy; [done|]. intros. by simplify_eq.
Qed.

Lemma take_while_app_all l1 l2 :
  Forall (λ x, p x = true) l1 →
  take_while p (l1 ++ l2) = l1 ++ take_while p l2.
Proof. induction 1 as [|x l1 Hx _ IH]; simpl; [done|]. by rewrite Hx, IH. Qed.

Lemma drop_while_app_all l1 l2 :
  Forall (λ x, p x = true) l1 → drop_while p (l1 ++ l2) = drop_while p l2.
Proof. induction 1 as [|x l1 Hx _ IH]; simpl; [done|]. by rewrite Hx, IH. Qed.

Lemma drop_while_app_stop l1 l2 :
  drop_while p l1 ≠ [] → drop_while p (l1 ++ l2) = drop_while p l1 ++ l2.
Proof.
  induction l1 as [|x l1 IH]; simpl; [done|]. destruct (p x); [done|]. done.
Qed.

Lemma drop_while_nil_all l : drop_while p l = [] → Forall (λ x, p x = true) l.
Proof.
  induction l as [|x l IH]; simpl; [constructor|].
  destruct (p x) eqn:Hx; [|done]. intros. constructor; auto.
Qed.
End Spans.

Lemma space_not_newline c : is_space c = false → Ascii.eqb c newline = false.
Proof.
  intros Hc. destruct (Ascii.eqb c newline) eqn:He; [|done].
  apply Ascii.eqb_eq in He as ->. done.
Qed.

Lemma at_end_long l : 2 ≤ length l → at_end l = false.
Proof. destruct l as [|? [|? ?]]; simpl; [lia|lia|done]. Qed.

Lemma no_trail_cons c l : no_trail (c :: l) → no_trail l.
Proof.
  unfold no_trail. simpl. destruct (rev l) as [|x r]; simpl; done.
Qed.

Lemma no_trail_has_text l : no_trail l → l ≠ [] → drop_while is_space l ≠ [].
Proof.
  intros Ht Hl Hd. apply drop_while_nil_all in Hd.
  unfold no_trail in Ht.
  assert (rev l ≠ []) as Hr.
  { intros Hr. apply Hl. by rewrite <- (rev_involutive l), Hr. }
  destruct (rev l) as [|x r] eqn:Hrev; [done|]. simpl in Ht.
  assert (In x l) as Hx by (apply in_rev; rewrite Hrev; by left).
  rewrite Forall_forall in Hd. apply list_elem_of_In in Hx.
  rewrite (Hd x Hx) in Ht. done.
Qed.

Section Trailing.
Context (cls : ascii → bool) (lo : nat) (hi : option nat).
Hypothesis cls_not_space : ∀ c, cls c = true → is_space c = false.

Lemma re_sub_trailing_unfold s :
  re_sub_trailing cls lo hi s
  = match match_trailing cls lo hi s with
    | Some rest => rest
    | None =>
        match s with
        | [] => []
        | c :: s' => c :: re_sub_trailing cls lo hi s'
        end
    end.
Proof. by destruct s. Qed.

Lemma take_upto_stops_at_space hi' Q c0 X :
  is_space c0 = true →
  length (take_upto hi' cls (Q ++ c0 :: X)) ≤ length Q.
Proof.
  intros Hc0. revert hi'. induction Q as [|q Q IH]; intros hi'; simpl.
  - destruct hi' as [[|h]|]; simpl; [done| |].
    + destruct (cls c0) eqn:Hc; [|done]. apply cls_not_space in Hc. congruence.
    + destruct (cls c0) eqn:Hc; [|done]. apply cls_not_space in Hc. congruence.
  - destruct hi' as [[|h]|]; simpl; [lia| |].
    + destruct (cls q); simpl; [|lia]. specialize (IH (Some h)). simpl in IH. lia.
    + destruct (cls q); simpl; [|lia]. specialize (IH None). simpl in IH. lia.
Qed.

(** On a token, the greedy repetition followed by [$] succeeds exactly when
    the whole token is taken. *)
Lemma take_upto_token hi' tok :
  Forall (λ c, is_space c = false) tok →
  at_end (drop (length (take_upto hi' cls tok)) tok)
  = forallb cls tok
    && match hi' with Some h => length tok <=? h | None => true end
  ∧ (at_end (drop (length (take_upto hi' cls tok)) tok) = true →
     drop (length (take_upto hi' cls tok)) tok = []
     ∧ length (take_upto hi' cls tok) = length tok).
Proof.
  intros Htok. revert hi'. induction Htok as [|c tok Hc Htok IH]; intros hi'.
  - destruct hi' as [[|h]|]; simpl; done.
  - assert (at_end (c :: tok) = false) as Hend.
    { destruct tok; simpl; [by apply space_not_newline|done]. }
    destruct hi' as [[|h]|].
    + change (take_upto (Some 0) cls (c :: tok)) with (@nil ascii).
      cbn [length drop]. rewrite Hend, andb_false_r. done.
    + change (take_upto (Some (S h)) cls (c :: tok))
        with (if cls c then c :: take_upto (Some h) cls tok else []).
      cbn [forallb]. destruct (cls c); cbn [length drop andb];
        [|by rewrite Hend].
      destruct (IH (Some h)) as [IH1 IH2].
      split; [exact IH1|]. intros He. destruct (IH2 He). split; [done|lia].
    + change (take_upto None cls (c :: tok))
        with (if cls c then c :: take_upto None cls tok else []).
      cbn [forallb]. destruct (cls c); cbn [length drop andb];
        [|by rewrite Hend].
      destruct (IH None) as [IH1 IH2].
      split; [exact IH1|]. intros He. destruct (IH2 He). split; [done|lia].
Qed.

Lemma match_trailing_gap_token w tok :
  Forall (λ c, is_space c = true) w → w ≠ [] →
  Forall (λ c, is_space c = false) tok →
  match_trailing cls lo hi (w ++ tok)
  = if token_ok cls lo hi tok then Some [] else None.
Proof.
  intros Hw Hne Htok. unfold match_trailing.
  assert (take_while is_space tok = []) as Htw.
  { destruct Htok as [|c tok Hc _]; simpl; [done|]. by rewrite Hc. }
  assert (drop_while is_space tok = tok) as Hdw.
  { destruct Htok as [|c tok Hc _]; simpl; [done|]. by rewrite Hc. }
  rewrite take_while_app_all, drop_while_app_all, Htw, Hdw, app_nil_r by done.
  assert ((length w =? 0) = false) as ->.
  { apply Nat.eqb_neq. destruct w; simpl; [done|lia]. }
  simpl.
  destruct (take_upto_token hi tok Htok) as [Hend Hfull].
  unfold token_ok.
  destruct (at_end _) eqn:He.
  - destruct (Hfull eq_refl) as [-> ->].
    symmetry in Hend. apply andb_true_iff in Hend as [-> ->].
    simpl. rewrite andb_true_r. by destruct (lo <=? length tok).
  - rewrite andb_false_r.
    destruct (forallb cls tok); simpl in *.
    + rewrite <- Hend. by rewrite andb_false_r.
    + done.
Qed.

Lemma match_trailing_inside P w tok :
  P ≠ [] → no_trail P →
  Forall (λ c, is_space c = true) w → w ≠ [] → tok ≠ [] →
  match_trailing cls lo hi (P ++ w ++ tok) = None.
Proof.
  intros HP Htrail Hw Hne Htok. unfold match_trailing.
  pose proof (no_trail_has_text P Htrail HP) as Htext.
  rewrite drop_while_app_stop by done.
  destruct w as [|c0 w]; [done|]. apply Forall_cons in Hw as [Hc0 Hw].
  set (Q := drop_while is_space P) in *. simpl.
  pose proof (take_upto_stops_at_space hi Q c0 (w ++ tok) Hc0) as Hlen.
  rewrite drop_app_le by done.
  rewrite at_end_long; [by rewrite andb_false_r|].
  rewrite length_app. simpl. rewrite length_app.
  destruct tok; [done|]. simpl. lia.
Qed.

Lemma re_sub_trailing_token tok :
  Forall (λ c, is_space c = false) tok → re_sub_trailing cls lo hi tok = tok.
Proof.
  induction 1 as [|c tok Hc Htok IH]; [done|].
  rewrite re_sub_trailing_unfold. unfold match_trailing at 1. simpl.
  rewrite Hc. simpl. by rewrite IH.
Qed.

Lemma re_sub_trailing_kept w tok :
  token_ok cls lo hi tok = false →
  Forall (λ c, is_space c = true) w →
  Forall (λ c, is_space c = false) tok →
  re_sub_trailing cls lo hi (w ++ tok) = w ++ tok.
Proof.
  intros Hok Hw Htok. induction Hw as [|c w Hc Hw IH].
  - by apply re_sub_trailing_token.
  - change ((c :: w) ++ tok) with (c :: (w ++ tok)).
    rewrite re_sub_trailing_unfold.
    pose proof (match_trailing_gap_token (c :: w) tok) as Hm.
    cbn [app] in Hm. rewrite Hm by (done || by constructor).
    rewrite Hok. cbv beta iota. by rewrite IH.
Qed.

(** The substitution on a text that ends with a gap and a token. *)
Lemma re_sub_trailing_decomp P w tok :
  no_trail P →
  Forall (λ c, is_space c = true) w → w ≠ [] →
  Forall (λ c, is_space c = false) tok → tok ≠ [] →
  re_sub_trailing cls lo hi (P ++ w ++ tok)
  = if token_ok cls lo hi tok then P else P ++ w ++ tok.
Proof.
  intros HP Hw Hne Htok Htne. induction P as [|c P IH].
  - simpl. destruct (token_ok cls lo hi tok) eqn:Hok.
    + rewrite re_sub_trailing_unfold, match_trailing_gap_token by done.
      by rewrite Hok.
    + by apply re_sub_trailing_kept.
  - rewrite re_sub_trailing_unfold.
    rewrite (match_trailing_inside (c :: P) w tok) by done.
    simpl. rewrite IH by by eapply no_trail_cons.
    by destruct (token_ok cls lo hi tok).
Qed.
End Trailing.

Lemma digit_not_space c : is_digit c = true → is_space c = false.
Proof. destruct c as [[] [] [] [] [] [] [] []]; vm_compute; congruence. Qed.

Lemma upper_not_space c : is_upper c = true → is_space c = false.
Proof. destruct c as [[] [] [] [] [] [] [] []]; vm_compute; congruence. Qed.

Lemma no_lead_prefix l1 l2 : no_lead (l1 ++ l2) → no_lead l1.
Proof. by destruct l1. Qed.

Lemma no_lead_drop_while l : no_lead (drop_while is_space l).
Proof.
  destruct (drop_while is_space l) as [|x l'] eqn:Hd; simpl; [done|].
  by eapply drop_while_head.
Qed.

Lemma drop_while_no_lead l : no_lead l → drop_while is_space l = l.
Proof. destruct l as [|c l]; simpl; [done|]. by intros ->. Qed.

(** *** Trimming *)

Lemma strip_chars_no_trail l : no_trail (strip_chars l).
Proof.
  unfold no_trail, strip_chars. rewrite rev_involutive. apply no_lead_drop_while.
Qed.

Lemma strip_chars_no_lead l : no_lead (strip_chars l).
Proof.
  unfold strip_chars. set (D := drop_while is_space l).
  apply (no_lead_prefix _ (rev (take_while is_space (rev D)))).
  rewrite <- rev_app_distr, take_drop_while, rev_involutive.
  apply no_lead_drop_while.
Qed.

Lemma strip_chars_trimmed l : no_lead l → no_trail l → strip_chars l = l.
Proof.
  intros Hl Ht. unfold strip_chars. rewrite (drop_while_no_lead l Hl).
  rewrite (drop_while_no_lead (rev l) Ht). apply rev_involutive.
Qed.

(** *** Truncating at the first gap *)

Lemma re_split_gap_head_cons c d s :
  re_split_gap_head (c :: d :: s)
  = if is_space c && is_space d then [] else c :: re_split_gap_head (d :: s).
Proof. done. Qed.

Lemma gap_index_cons c d s :
  NormalizeSpec.gap_index (c :: d :: s)
  = if is_space c && is_space d then Some 0
    else S <$> NormalizeSpec.gap_index (d :: s).
Proof. done. Qed.

Lemma re_split_gap_head_truncate s :
  re_split_gap_head s = NormalizeSpec.truncate_at_gap s.
Proof.
  unfold NormalizeSpec.truncate_at_gap.
  induction s as [|c s IH]; [done|].
  destruct s as [|d s]; [done|].
  rewrite re_split_gap_head_cons, gap_index_cons.
  destruct (is_space c && is_space d); [done|].
  rewrite IH. by destruct (NormalizeSpec.gap_index (d :: s)).
Qed.

Lemma re_split_gap_head_no_lead s : no_lead s → no_lead (re_split_gap_head s).
Proof.
  destruct s as [|c [|d s]]; simpl; [done|done|].
  by destruct (is_space c && is_space d).
Qed.

Lemma re_split_gap_head_nil d s :
  re_split_gap_head (d :: s) = [] → is_space d = true.
Proof.
  destruct s as [|d' s]; simpl; [done|].
  destruct (is_space d); simpl; [done|]. done.
Qed.

Lemma no_trail_cons_intro c l :
  (l = [] → is_space c = false) → (l ≠ [] → no_trail l) → no_trail (c :: l).
Proof.
  unfold no_trail. simpl. intros H1 H2.
  destruct (rev l) as [|x r] eqn:Hr; simpl.
  - apply H1. by rewrite <- (rev_involutive l), Hr.
  - assert (l ≠ []) as Hl by (intros ->; done).
    specialize (H2 Hl). done.
Qed.

Lemma re_split_gap_head_no_trail s : no_trail s → no_trail (re_split_gap_head s).
Proof.
  induction s as [|c s IH]; [done|]. intros Ht.
  destruct s as [|d s]; [done|].
  rewrite re_split_gap_head_cons.
  destruct (is_space c && is_space d) eqn:Hcd; [done|].
  apply no_trail_cons_intro.
  - intros Hnil%re_split_gap_head_nil. rewrite Hnil, andb_true_r in Hcd. done.
  - intros _. apply IH. by eapply no_trail_cons.
Qed.

(** *** Stripping the trailing token *)

Lemma Forall_not_space l :
  Forall (λ c, negb (is_space c) = true) l → Forall (λ c, is_space c = false) l.
Proof.
  intros H. eapply Forall_impl; [exact H|]. intros c Hc.
  by apply negb_true_iff in Hc.
Qed.

Section TrailingToken.
Context (cls : ascii → bool) (lo : nat) (hi : option nat).
Hypothesis cls_not_space : ∀ c, cls c = true → is_space c = false.

(** The text is either one token, or a prefix that does not end with a
    space, a gap and a token. *)
Lemma strip_trailing_token_cases u :
  no_trail u →
  (Forall (λ c, is_space c = false) u
   ∧ ∀ ok, NormalizeSpec.strip_trailing_token ok u = u)
  ∨ ∃ P w tok,
      u = P ++ w ++ tok ∧ no_trail P
      ∧ Forall (λ c, is_space c = true) w ∧ w ≠ []
      ∧ Forall (λ c, is_space c = false) tok ∧ tok ≠ []
      ∧ ∀ ok, NormalizeSpec.strip_trailing_token ok u
              = if ok tok then P else u.
Proof.
  intros Ht. unfold NormalizeSpec.strip_trailing_token.
  set (r := rev u).
  set (tokr := take_while (λ c, negb (is_space c)) r).
  set (before := drop_while (λ c, negb (is_space c)) r).
  set (gapr := take_while is_space before).
  set (Pr := drop_while is_space before).
  assert (r = tokr ++ gapr ++ Pr) as Hr.
  { unfold gapr, Pr. rewrite take_drop_while. unfold tokr, before.
    by rewrite take_drop_while. }
  assert (u = rev Pr ++ rev gapr ++ rev tokr) as Hu.
  { rewrite <- (rev_involutive u). fold r. rewrite Hr.
    by rewrite !rev_app_distr, <- app_assoc. }
  assert (Forall (λ c, is_space c = false) (rev tokr)) as Htok.
  { apply Forall_not_space, Forall_rev. apply take_while_Forall. }
  destruct gapr as [|g gs] eqn:Hgap.
  - left. assert (before = []) as Hb.
    { destruct before as [|x b] eqn:Hbefore; [done|]. exfalso.
      pose proof (drop_while_head _ _ _ _ Hbefore) as Hx. simpl in Hx.
      unfold gapr in Hgap. simpl in Hgap.
      destruct (is_space x); simpl in *; done. }
    assert (Pr = []) as HP by (unfold Pr; by rewrite Hb).
    rewrite HP in Hu. simpl in Hu. split; [by rewrite Hu|].
    intros ok. by rewrite andb_false_r.
  - right. exists (rev Pr), (rev (g :: gs)), (rev tokr).
    assert (tokr ≠ []) as Htne.
    { unfold no_trail in Ht. fold r in Ht. unfold tokr.
      destruct r as [|x r']; [by destruct tokr|]. simpl in Ht. simpl.
      by rewrite Ht. }
    split_and!.
    + done.
    + unfold no_trail. rewrite rev_involutive. apply no_lead_drop_while.
    + apply Forall_rev. rewrite <- Hgap. apply take_while_Forall.
    + intros Hn. apply (f_equal (@rev ascii)) in Hn.
      rewrite rev_involutive in Hn. done.
    + done.
    + intros Hn. apply Htne. apply (f_equal (@rev ascii)) in Hn.
      by rewrite rev_involutive in Hn.
    + intros ok. simpl. by rewrite andb_true_r.
Qed.

(** The regular expression deletes what the specification calls the trailing
    token. *)
Lemma re_sub_trailing_strips_token u :
  no_trail u →
  re_sub_trailing cls lo hi u
  = NormalizeSpec.strip_trailing_token (token_ok cls lo hi) u.
Proof.
  intros Ht.
  destruct (strip_trailing_token_cases u Ht)
    as [[Hu Hst]|(P & w & tok & Hu & HP & Hw & Hwne & Htok & Htne & Hst)].
  - rewrite Hst. by apply re_sub_trailing_token.
  - rewrite Hst. rewrite Hu at 1 2. by apply re_sub_trailing_decomp.
Qed.

Lemma strip_trailing_token_trimmed ok u :
  no_lead u → no_trail u →
  no_lead (NormalizeSpec.strip_trailing_token ok u)
  ∧ no_trail (NormalizeSpec.strip_trailing_token ok u).
Proof.
  intros Hl Ht.
  destruct (strip_trailing_token_cases u Ht)
    as [[Hu Hst]|(P & w & tok & Hu & HP & Hw & Hwne & Htok & Htne & Hst)];
    rewrite Hst; [done|].
  destruct (ok tok); [|done]. split; [|done].
  rewrite Hu in Hl. by eapply no_lead_prefix.
Qed.
End TrailingToken.

Lemma numeric_token_ok tok :
  NormalizeSpec.numeric tok = token_ok is_digit 1 None tok.
Proof. unfold NormalizeSpec.numeric, token_ok. by rewrite andb_true_r. Qed.

Lemma strip_trailing_token_ext ok ok' u :
  (∀ tok, ok tok = ok' tok) →
  NormalizeSpec.strip_trailing_token ok u
  = NormalizeSpec.strip_trailing_token ok' u.
Proof. intros H. unfold NormalizeSpec.strip_trailing_token. by rewrite H. Qed.

Lemma extract_merchant_chars_normalize l :
  extract_merchant_chars l
  = NormalizeSpec.strip_trailing_token NormalizeSpec.upper_code
      (NormalizeSpec.strip_trailing_token NormalizeSpec.numeric
         (NormalizeSpec.truncate_at_gap (strip_chars l))).
Proof.
  unfold extract_merchant_chars.
  pose proof (strip_chars_no_lead l) as Hl0.
  pose proof (strip_chars_no_trail l) as Ht0.
  set (u0 := strip_chars l) in *.
  pose proof (re_split_gap_head_no_lead u0 Hl0) as Hl1.
  pose proof (re_split_gap_head_no_trail u0 Ht0) as Ht1.
  rewrite <- re_split_gap_head_truncate.
  set (u1 := re_split_gap_head u0) in *.
  rewrite (re_sub_trailing_strips_token is_digit 1 None digit_not_space u1 Ht1).
  rewrite <- (strip_trailing_token_ext _ _ u1 numeric_token_ok).
  destruct (strip_trailing_token_trimmed NormalizeSpec.numeric u1 Hl1 Ht1)
    as [Hl2 Ht2].
  set (u2 := NormalizeSpec.strip_trailing_token NormalizeSpec.numeric u1) in *.
  rewrite (re_sub_trailing_strips_token is_upper 2 (Some 3) upper_not_space u2 Ht2).
  change (token_ok is_upper 2 (Some 3)) with NormalizeSpec.upper_code.
  destruct (strip_trailing_token_trimmed NormalizeSpec.upper_code u2 Hl2 Ht2)
    as [Hl3 Ht3].
  by apply strip_chars_trimmed.
Qed.

(** C8: the merchant normaliser is a function defined on every string (it has
    no failing case: the result is a string, possibly empty) that does what
    the four steps say: it trims whitespace, truncates at the first run of
    two or more spaces, strips a trailing numeric token and then strips a
    trailing token of two or three upper-case letters; the cache key is the
    lower-cased result.  The description "WOOLWORTHS 1234   MELBOURNE VIC"
    has the key "woolworths"; the empty and the blank description give the
    empty string. *)
Theorem C8_normalizer_trims_truncates_and_strips_trailing_tokens :
  (∀ description,
     extract_merchant_name description = NormalizeSpec.normalize description)
  ∧ (∀ description,
       merchant_key description
       = py_lower (NormalizeSpec.normalize description))
  ∧ merchant_key "WOOLWORTHS 1234   MELBOURNE VIC" = "woolworths"
  ∧ extract_merchant_name "WOOLWORTHS 1234   MELBOURNE VIC" = "WOOLWORTHS"
  ∧ extract_merchant_name "" = ""
  ∧ extract_merchant_name "   " = "".
Proof.
  assert (∀ description,
            extract_merchant_name description
            = NormalizeSpec.normalize description) as Heq.
  { intros description. unfold extract_merchant_name, NormalizeSpec.normalize.
    by rewrite extract_merchant_chars_normalize. }
  split_and!; [done| |by vm_compute..].
  intros description. unfold merchant_key. by rewrite Heq.
Qed.

(** * Further properties of the application *)

(** ** The category catalogue *)

Lemma find_filter_same {A} (p q : A → bool) l :
  (∀ x, p x = true → q x = true) →
  List.find p (List.filter q l) = List.find p l.
Proof.
  intros Hpq. induction l as [|x l IH]; simpl; [done|].
  destruct (q x) eqn:Hq; simpl.
  - by rewrite IH.
  - destruct (p x) eqn:Hp; [|done]. apply Hpq in Hp. congruence.
Qed.

Lemma category_map_get_snoc cats c code :
  category_map_get (cats ++ [c]) code
  = if bool_decide (Category.code c = code) then Some c
    else category_map_get cats code.
Proof. unfold category_map_get. by rewrite rev_app_distr. Qed.

Lemma existsb_code_elem code cats :
  existsb (λ c, bool_decide (Category.code c = code)) cats = true
  ↔ code ∈ Category.code <$> cats.
Proof.
  rewrite existsb_exists, list_elem_of_fmap. split.
  - intros (c & Hc & Heq). apply bool_decide_eq_true in Heq.
    exists c. split; [done|]. by apply list_elem_of_In.
  - intros (c & -> & Hc). exists c. split; [by apply list_elem_of_In|].
    by apply bool_decide_eq_true.
Qed.

(** X1: a POST to /api/categories never makes a second category with a code
    that is taken: a body whose code is that of a category is answered with
    400 and nothing is saved; whatever the answer, codes that were distinct
    stay distinct; and unless the answer is the success the list is saved
    unchanged. *)
Theorem X1_post_keeps_category_codes_distinct
    (data : CategoryRequest.data) (categories : list category) :
  let '(response, saved) := api_categories POST data categories in
  (NoDup (Category.code <$> categories) → NoDup (Category.code <$> saved))
  ∧ (∀ code,
       CategoryRequest.code data = Some code →
       code ∈ Category.code <$> categories →
       response = CategoryError 400 "Category code already exists")
  ∧ (response ≠ CategorySuccess → saved = categories)
  ∧ (response = CategorySuccess → length saved = S (length categories)).
Proof.
  unfold api_categories.
  destruct (CategoryRequest.code data) as [code|]; [|by split_and!].
  destruct (existsb _ categories) eqn:Hex.
  - split_and!; try done.
  - assert (code ∉ Category.code <$> categories) as Hfresh.
    { intros Hin. apply existsb_code_elem in Hin. congruence. }
    destruct (CategoryRequest.name data) as [name|].
    + split_and!; try done.
      * intros Hnd. rewrite fmap_app. apply NoDup_app. split_and!; [done| |].
        -- intros c Hc Hc'. apply list_elem_of_singleton in Hc' as ->. done.
        -- apply NoDup_singleton.
      * intros c Hc Hin. by simplify_eq.
      * intros _. rewrite length_app. simpl. lia.
    + split_and!; try done. intros c Hc Hin. by simplify_eq.
Qed.

Lemma post_fresh_category data categories code name :
  CategoryRequest.code data = Some code →
  CategoryRequest.name data = Some name →
  code ∉ Category.code <$> categories →
  api_categories POST data categories
  = (CategorySuccess,
     categories
     ++ [Category.mk code name (default "variable" (CategoryRequest.type data))
           (default "Expense" (CategoryRequest.category_type data))]).
Proof.
  intros Hcode Hname Hfresh. unfold api_categories. rewrite Hcode, Hname.
  destruct (existsb _ categories) eqn:Hex; [|done].
  apply existsb_code_elem in Hex. done.
Qed.

(** X2: a category created by a POST is the one that the aggregation finds
    for its code: when the code of the body is not taken and the body has a
    name, the category is appended, with 'variable' and 'Expense' standing in
    for an absent type and category_type, a lookup of the code finds it and
    the lookup of every other code is as before. *)
Theorem X2_created_category_is_found_by_its_code
    (data : CategoryRequest.data) (categories : list category)
    (code : jval) (name : string) :
  CategoryRequest.code data = Some code →
  CategoryRequest.name data = Some name →
  code ∉ Category.code <$> categories →
  let created :=
    Category.mk code name (default "variable" (CategoryRequest.type data))
      (default "Expense" (CategoryRequest.category_type data)) in
  api_categories POST data categories = (CategorySuccess, categories ++ [created])
  ∧ category_map_get (api_categories POST data categories).2 code = Some created
  ∧ ∀ other, other ≠ code →
      category_map_get (api_categories POST data categories).2 other
      = category_map_get categories other.
Proof.
  intros Hcode Hname Hfresh created.
  pose proof (post_fresh_category _ _ _ _ Hcode Hname Hfresh) as Hpost.
  fold created in Hpost. rewrite Hpost. cbn [snd]. split_and!; [done| |].
  - rewrite category_map_get_snoc. by rewrite bool_decide_eq_true_2.
  - intros other Hother. rewrite category_map_get_snoc.
    by rewrite bool_decide_eq_false_2.
Qed.

Lemma X2_witness :
  (CategoryRequest.code transport_request = Some (JStr "300")
   ∧ CategoryRequest.name transport_request = Some "Transport"
   ∧ JStr "300" ∉ Category.code <$> example_categories)
  ∧ api_categories POST transport_request example_categories
    = (CategorySuccess, example_categories ++ [transport])
  ∧ category_map_get (api_categories POST transport_request example_categories).2
      (JStr "300") = Some transport
  ∧ ∀ other, other ≠ JStr "300" →
      category_map_get (api_categories POST transport_request example_categories).2
        other
      = category_map_get example_categories other.
Proof.
  assert (JStr "300" ∉ Category.code <$> example_categories) as Hfresh.
  { intros Hin. by repeat (apply elem_of_cons in Hin as [Hin|Hin]; [done|]);
      apply elem_of_nil in Hin. }
  split; [split_and!; [reflexivity|reflexivity|exact Hfresh]|].
  exact (X2_created_category_is_found_by_its_code transport_request
           example_categories (JStr "300") "Transport" eq_refl eq_refl Hfresh).
Defined.

Lemma category_map_get_none cats code :
  category_map_get cats code = None ↔ code ∉ Category.code <$> cats.
Proof.
  unfold category_map_get. split.
  - intros Hnone Hin. apply list_elem_of_fmap in Hin as (c & -> & Hc).
    apply list_elem_of_In, in_rev in Hc.
    pose proof (find_none _ _ Hnone c Hc) as Hf.
    by apply bool_decide_eq_false in Hf.
  - intros Hfresh. apply find_all_false. intros c Hc.
    apply bool_decide_eq_false. intros Heq. apply Hfresh.
    apply list_elem_of_fmap. exists c. split; [done|].
    by apply list_elem_of_In, in_rev.
Qed.

Lemma NoDup_codes_filter (q : category → bool) l :
  NoDup (Category.code <$> l) → NoDup (Category.code <$> List.filter q l).
Proof.
  induction l as [|c l IH]; csimpl; [done|].
  intros [Hc Hnd]%NoDup_cons. destruct (q c); [|by apply IH].
  csimpl. apply NoDup_cons. split; [|by apply IH].
  intros Hin. apply Hc. apply list_elem_of_fmap in Hin as (c' & -> & Hc').
  apply list_elem_of_fmap. exists c'. split; [done|].
  by apply list_elem_of_In, filter_In in Hc' as [?%list_elem_of_In _].
Qed.

Lemma delete_absent_code code l :
  JStr code ∉ Category.code <$> l →
  List.filter (λ c, negb (bool_decide (Category.code c = JStr code))) l = l.
Proof.
  induction l as [|c l IH]; intros Hl; csimpl; [done|].
  csimpl in Hl. rewrite bool_decide_eq_false_2.
  - simpl. f_equal. apply IH. intros Hin. apply Hl. by right.
  - intros Heq. apply Hl. rewrite Heq. by left.
Qed.

(** X3: a DELETE of /api/categories/<code> removes every category with the
    code and nothing else: the categories saved are those with another code,
    in their order; a lookup of the code finds nothing afterwards and the
    lookup of every other code is as before; when no category has the code
    the list is saved unchanged, so a second DELETE changes nothing; and
    distinct codes stay distinct. *)
Theorem X3_delete_removes_the_code_and_nothing_else
    (code : string) (data : CategoryRequest.data) (categories : list category) :
  let saved := (api_category DELETE code data categories).2 in
  (∀ c, In c saved ↔ In c categories ∧ Category.code c ≠ JStr code)
  ∧ sublist saved categories
  ∧ category_map_get saved (JStr code) = None
  ∧ (∀ other, other ≠ JStr code →
       category_map_get saved other = category_map_get categories other)
  ∧ (JStr code ∉ Category.code <$> categories → saved = categories)
  ∧ (api_category DELETE code data saved).2 = saved
  ∧ (NoDup (Category.code <$> categories) → NoDup (Category.code <$> saved)).
Proof.
  intros saved. unfold api_category in *. cbn [snd] in *.
  set (keep := λ c : category, negb (bool_decide (Category.code c = JStr code)))
    in *.
  assert (∀ c, keep c = true ↔ Category.code c ≠ JStr code) as Hkeep.
  { intros c. unfold keep. rewrite negb_true_iff. apply bool_decide_eq_false. }
  assert (∀ l, (∀ c, In c l → Category.code c ≠ JStr code) →
               List.filter keep l = l) as Hid.
  { induction l as [|c l IH]; intros Hl; simpl; [done|].
    rewrite (proj2 (Hkeep c)) by (apply Hl; by left).
    f_equal. apply IH. intros c' Hc'. apply Hl. by right. }
  assert (sublist saved categories) as Hsub.
  { subst saved. clear. induction categories as [|c l IH]; simpl; [done|].
    destruct (keep c); by constructor. }
  split_and!.
  - intros c. subst saved. rewrite filter_In. by rewrite Hkeep.
  - done.
  - apply category_map_get_none. intros Hin.
    apply list_elem_of_fmap in Hin as (c & Hc & Hin).
    apply list_elem_of_In, filter_In in Hin as [_ Hk]. apply Hkeep in Hk. done.
  - intros other Hother. unfold category_map_get. subst saved.
    rewrite <- filter_rev. apply find_filter_same.
    intros c Hc. apply bool_decide_eq_true in Hc. apply Hkeep. congruence.
  - intros Hfresh. apply Hid. intros c Hc Heq. apply Hfresh.
    apply list_elem_of_fmap. exists c. split; [done|]. by apply list_elem_of_In.
  - apply Hid. intros c [_ Hk]%filter_In. by apply Hkeep.
  - apply NoDup_codes_filter.

Qed.

Lemma update_first_category_codes code data cats :
  Category.code <$> update_first_category code data cats = Category.code <$> cats.
Proof.
  induction cats as [|c cats IH]; csimpl; [done|].
  destruct (bool_decide _); csimpl; [done|]. by rewrite IH.
Qed.

(** X4: a PUT of /api/categories/<code> changes no code and adds or removes
    no category: the codes saved are the codes before, in their order.  Only
    the first category with the code is changed; it gets the name, type and
    category_type of the body, each kept as it was when the body lacks the
    key; the categories before and after it are saved as they were.  When
    no category has the code nothing changes (the answer is the success all
    the same). *)
Theorem X4_put_updates_the_first_category_with_the_code
    (code : string) (data : CategoryRequest.data) (categories : list category) :
  let '(response, saved) := api_category PUT code data categories in
  response = CategorySuccess
  ∧ Category.code <$> saved = Category.code <$> categories
  ∧ (JStr code ∉ Category.code <$> categories → saved = categories)
  ∧ (∀ before c after,
       categories = before ++ c :: after →
       JStr code ∉ Category.code <$> before →
       Category.code c = JStr code →
       saved
       = before
         ++ Category.mk (JStr code)
              (default (Category.name c) (CategoryRequest.name data))
              (default (Category.type c) (CategoryRequest.type data))
              (default (Category.category_type c)
                 (CategoryRequest.category_type data))
         :: after).
Proof.
  unfold api_category.
  assert (∀ l, JStr code ∉ Category.code <$> l →
               update_first_category code data l = l) as Hid.
  { induction l as [|c l IH]; intros Hl; csimpl; [done|]. csimpl in Hl.
    rewrite bool_decide_eq_false_2.
    - f_equal. apply IH. intros Hin. apply Hl. by right.
    - intros Heq. apply Hl. rewrite Heq. by left. }
  split_and!; [done|apply update_first_category_codes|apply Hid|].
  intros before c after -> Hbefore Hc.
  induction before as [|b before IH]; csimpl.
  - rewrite bool_decide_eq_true_2 by done. unfold update_category.
    by rewrite Hc.
  - csimpl in Hbefore.
    rewrite bool_decide_eq_false_2.
    + f_equal. apply IH. intros Hin. apply Hbefore. by right.
    + intros Heq. apply Hbefore. rewrite Heq. by left.
Qed.

(** X5: creating a category and deleting it again gives back the catalogue:
    when the code of the body is a string that is not taken and the body has
    a name, a POST followed by a DELETE of that code saves the list that was
    there before. *)
Theorem X5_post_then_delete_restores_the_catalogue
    (data other : CategoryRequest.data) (categories : list category)
    (code name : string) :
  CategoryRequest.code data = Some (JStr code) →
  CategoryRequest.name data = Some name →
  JStr code ∉ Category.code <$> categories →
  (api_categories POST data categories).1 = CategorySuccess
  ∧ (api_category DELETE code other (api_categories POST data categories).2).2
    = categories.
Proof.
  intros Hcode Hname Hfresh.
  rewrite (post_fresh_category _ _ _ _ Hcode Hname Hfresh).
  cbn [fst snd]. split; [done|].
  unfold api_category. cbn [snd]. rewrite List.filter_app. simpl.
  rewrite bool_decide_eq_true_2 by done. simpl. rewrite app_nil_r.
  by apply delete_absent_code.
Qed.

Lemma X5_witness :
  (CategoryRequest.code transport_request = Some (JStr "300")
   ∧ CategoryRequest.name transport_request = Some "Transport"
   ∧ JStr "300" ∉ Category.code <$> example_categories)
  ∧ (api_categories POST transport_request example_categories).1
    = CategorySuccess
  ∧ (api_category DELETE "300" transport_request
       (api_categories POST transport_request example_categories).2).2
    = example_categories.
Proof.
  assert (JStr "300" ∉ Category.code <$> example_categories) as Hfresh.
  { intros Hin. by repeat (apply elem_of_cons in Hin as [Hin|Hin]; [done|]);
      apply elem_of_nil in Hin. }
  split; [split_and!; [reflexivity|reflexivity|exact Hfresh]|].
  exact (X5_post_then_delete_restores_the_catalogue transport_request
           transport_request example_categories "300" "Transport"
           eq_refl eq_refl Hfresh).
Defined.

(** ** The report and the catalogue *)

Lemma category_map_get_deleted code cats other :
  category_map_get
    (List.filter (λ c, negb (bool_decide (Category.code c = JStr code))) cats)
    other
  = if bool_decide (other = JStr code) then None
    else category_map_get cats other.
Proof.
  destruct (bool_decide (other = JStr code)) eqn:Ho.
  - apply bool_decide_eq_true in Ho as ->. apply category_map_get_none.
    intros Hin. apply list_elem_of_fmap in Hin as (c & Hc & Hin).
    apply list_elem_of_In, filter_In in Hin as [_ Hk].
    apply negb_true_iff, bool_decide_eq_false in Hk. done.
  - apply bool_decide_eq_false in Ho. unfold category_map_get.
    rewrite <- filter_rev. apply find_filter_same.
    intros c Hc. apply bool_decide_eq_true in Hc.
    apply negb_true_iff, bool_decide_eq_false. congruence.
Qed.

(** X6: deleting a category does not reach the transactions that carry its
    code.  A report made after the DELETE has the same rows, in the same
    order, with the same codes, totals and transactions as a report made
    before it; a row whose code is not the deleted one is the same row; a row
    for the deleted code still is there and gets the name 'Unknown' and the
    type 'variable'. *)
Theorem X6_report_after_deleting_a_category
    (transaction_type code : string) (data : CategoryRequest.data)
    (transactions : list transaction) (categories : list category) :
  let rows := api_analysis transaction_type transactions categories in
  let rows' :=
    api_analysis transaction_type transactions
      (api_category DELETE code data categories).2 in
  length rows' = length rows
  ∧ ∀ i r,
      rows !! i = Some r →
      ∃ r',
        rows' !! i = Some r'
        ∧ Analysis.code r' = Analysis.code r
        ∧ Analysis.total r' = Analysis.total r
        ∧ Analysis.transactions r' = Analysis.transactions r
        ∧ if bool_decide (Analysis.code r = JStr code)
          then Analysis.name r' = "Unknown" ∧ Analysis.type r' = "variable"
          else r' = r.
Proof.
  intros rows rows'. subst rows rows'. unfold api_analysis, api_category.
  cbn [snd].
  destruct (fold_left group_step _ _) as [totals txs].
  split; [by rewrite !length_fmap|].
  intros i r Hr. rewrite list_lookup_fmap in *.
  destruct (sorted_reverse total_lt totals !! i) as [[c total]|]; [|done].
  simpl in *. simplify_eq. eexists. split; [done|].
  unfold analysis_row. rewrite category_map_get_deleted.
  destruct (category_map_get categories c) as [cat|];
    destruct (bool_decide (c = JStr code)) eqn:Hc; simpl; rewrite ?Hc; done.
Qed.

(** ** Nothing is counted twice *)

Lemma filter_split {A} (f : A → bool) l :
  Permutation l (List.filter f l ++ List.filter (λ x, negb (f x)) l).
Proof.
  induction l as [|x l IH]; simpl; [done|].
  destruct (f x); simpl.
  - by constructor.
  - rewrite <- Permutation_middle. by constructor.
Qed.

Lemma members_of_rest c c' l :
  c' ≠ c →
  members c' (List.filter (λ t, negb (bool_decide (group_code t = c))) l)
  = members c' l.
Proof.
  intros Hne. unfold members. induction l as [|t l IH]; simpl; [done|].
  destruct (bool_decide (group_code t = c)) eqn:Hc; simpl.
  - apply bool_decide_eq_true in Hc.
    rewrite bool_decide_eq_false_2 by congruence. done.
  - destruct (bool_decide (group_code t = c')); by rewrite IH.
Qed.

Lemma groups_cover (L : list jval) (l : list transaction) :
  NoDup L →
  (∀ t, In t l → group_code t ∈ L) →
  Permutation (concat ((λ c, members c l) <$> L)) l.
Proof.
  intros Hnd. revert l. induction Hnd as [|c L Hc Hnd IH]; intros l Hl.
  - destruct l as [|t l]; [done|]. specialize (Hl t (or_introl eq_refl)).
    by apply elem_of_nil in Hl.
  - csimpl.
    etrans; [|symmetry; apply (filter_split (λ t, bool_decide (group_code t = c)) l)].
    apply Permutation_app; [done|].
    set (l' := List.filter (λ t, negb (bool_decide (group_code t = c))) l).
    rewrite <- (IH l').
    + assert ((λ c0, members c0 l) <$> L = (λ c0, members c0 l') <$> L) as ->;
        [|done].
      apply list_fmap_ext. intros i c' Hc'. symmetry. apply members_of_rest.
      intros ->. apply Hc. by eapply list_elem_of_lookup_2.
    + intros t [Ht Hk]%filter_In.
      apply negb_true_iff, bool_decide_eq_false in Hk.
      specialize (Hl t Ht). by apply elem_of_cons in Hl as [?|?].
Qed.

(** X7: every transaction that qualifies for a report is listed in exactly
    one of its rows: the transactions of all the rows together are the
    reconciled transactions of the requested kind, each as often as it is
    stored.  For a type other than 'expenses' and 'income' these are the
    transactions that GET /api/transactions?filter=reconciled lists. *)
Theorem X7_rows_partition_the_eligible_transactions
    (transaction_type : string) (transactions : list transaction)
    (categories : list category) :
  let rows := api_analysis transaction_type transactions categories in
  Permutation (concat (Analysis.transactions <$> rows))
    (List.filter (eligible transaction_type) transactions)
  ∧ (transaction_type ≠ "expenses" → transaction_type ≠ "income" →
     Permutation (concat (Analysis.transactions <$> rows))
       (api_transactions "reconciled" transactions)).
Proof.
  intros rows.
  set (filtered := List.filter (eligible transaction_type) transactions).
  assert (Permutation (concat (Analysis.transactions <$> rows)) filtered)
    as Hperm.
  { assert (Analysis.transactions <$> rows
            = (λ c, members c filtered) <$> (Analysis.code <$> rows)) as ->.
    { rewrite <- list_fmap_compose. apply list_fmap_ext. intros i r Hr.
      apply list_elem_of_lookup_2, list_elem_of_In in Hr.
      destruct (api_analysis_row _ _ _ r Hr) as [Hseen Hrf].
      fold filtered in Hseen, Hrf.
      destruct (row_for_fields categories filtered _ Hseen) as (_ & _ & Htx & _).
      simpl. by rewrite Hrf at 1. }
    apply groups_cover.
    - unfold rows. rewrite api_analysis_codes. apply codes_seen_NoDup.
    - intros t Ht. unfold rows. rewrite api_analysis_codes.
      apply codes_seen_elem. eauto. }
  split; [done|]. intros He Hi. rewrite Hperm.
  unfold filtered, api_transactions, eligible. simpl.
  rewrite (proj2 (String.eqb_neq _ _) He), (proj2 (String.eqb_neq _ _) Hi).
  done.
Qed.

(** ** Reconciling *)

Lemma accepted_not_wanted t :
  wants_reconcile (if wants_reconcile t then accept_suggestion t else t) = false.
Proof.
  destruct (wants_reconcile t) eqn:Hw; [|done].
  unfold wants_reconcile, accept_suggestion. by destruct t.
Qed.

Lemma reconciled_after_step t :
  truthy_get (Transaction.reconciled
                (if wants_reconcile t then accept_suggestion t else t))
  = truthy_get (Transaction.reconciled t)
    || truthy_get (Transaction.ai_suggested_code t).
Proof.
  unfold wants_reconcile, accept_suggestion.
  destruct (truthy_get (Transaction.reconciled t)) eqn:Hr,
    (truthy_get (Transaction.ai_suggested_code t)); simpl; by rewrite ?Hr.
Qed.

Lemma step_kept t :
  truthy_get (Transaction.ai_suggested_code t) = false →
  (if wants_reconcile t then accept_suggestion t else t) = t.
Proof. intros Hs. unfold wants_reconcile. by rewrite Hs, andb_false_r. Qed.

(** X8: POST /api/reconcile-all leaves nothing for a second run: on the
    transactions and the cache that one run saved, a second run saves the
    same transactions and the same cache and reports a count of 0.  What is
    still listed as unreconciled after a run are the transactions that were
    unreconciled and had no truthy suggestion, unchanged; and the number of
    reconciled transactions has grown by the count reported. *)
Theorem X8_reconcile_all_leaves_nothing_to_reconcile
    (transactions : list transaction)
    (merchant_cache : gmap string cache_entry) :
  let '(saved, cache', reconciled_count) :=
    reconcile_all transactions merchant_cache in
  reconcile_all saved cache' = (saved, cache', 0)
  ∧ api_transactions "unreconciled" saved
    = List.filter
        (λ t, negb (truthy_get (Transaction.reconciled t))
              && negb (truthy_get (Transaction.ai_suggested_code t)))
        transactions
  ∧ length (api_transactions "reconciled" saved)
    = length (api_transactions "reconciled" transactions) + reconciled_count.
Proof.
  unfold reconcile_all. rewrite !reconcile_all_loop_spec.
  set (step := λ t, if wants_reconcile t then accept_suggestion t else t).
  assert (∀ t, wants_reconcile (step t) = false) as Hw
    by exact accepted_not_wanted.
  assert (∀ t, truthy_get (Transaction.reconciled (step t))
               = truthy_get (Transaction.reconciled t)
                 || truthy_get (Transaction.ai_suggested_code t)) as Hrec
    by exact reconciled_after_step.
  assert (∀ t, truthy_get (Transaction.ai_suggested_code t) = false →
               step t = t) as Hkept by exact step_kept.
  assert (List.filter wants_reconcile (step <$> transactions) = []) as Hnone.
  { apply filter_none. intros t Hin.
    apply list_elem_of_In, list_elem_of_fmap in Hin as (t0 & -> & _).
    apply Hw. }
  split_and!.
  - assert (step <$> (step <$> transactions) = step <$> transactions) as Hmap.
    { rewrite <- list_fmap_compose. apply list_fmap_ext. intros i t _. simpl.
      unfold step at 1. by rewrite Hw. }
    by rewrite Hnone, Hmap.
  - unfold api_transactions. cbn [String.eqb Ascii.eqb Bool.eqb]. clear Hnone.
    induction transactions as [|t ts IH]; [done|].
    rewrite fmap_cons. cbn [List.filter]. rewrite IH, Hrec.
    destruct (truthy_get (Transaction.reconciled t)); [done|].
    destruct (truthy_get (Transaction.ai_suggested_code t)) eqn:Hs; [done|].
    cbn [negb andb orb]. by rewrite (Hkept t Hs).
  - unfold api_transactions. cbn [String.eqb Ascii.eqb Bool.eqb]. clear Hnone.
    induction transactions as [|t ts IH]; [done|].
    rewrite fmap_cons. cbn [List.filter]. rewrite Hrec.
    unfold wants_reconcile at 1.
    destruct (truthy_get (Transaction.reconciled t)); cbn [negb andb orb length].
    + rewrite IH. lia.
    + destruct (truthy_get (Transaction.ai_suggested_code t));
        cbn [negb andb orb length]; rewrite IH; lia.
Qed.

Lemma reconcile_loop_first trans_id code before t after cache :
  (∀ t0, In t0 before → Transaction.id t0 ≠ trans_id) →
  Transaction.id t = trans_id →
  reconcile_loop trans_id code (before ++ t :: after) cache
  = (before
     ++ Transaction.set_reconciled (JBool true)
          (Transaction.set_category_code code t) :: after,
     learn (Transaction.description t) code trans_id cache).
Proof.
  intros Hb Ht. induction before as [|t0 before IH]; simpl.
  - by rewrite (proj2 (String.eqb_eq _ _) Ht).
  - rewrite (proj2 (String.eqb_neq _ _)) by (apply Hb; by left).
    rewrite IH by (intros t1 H1; apply Hb; by right). done.
Qed.

Lemma reconcile_loop_absent trans_id code ts cache :
  (∀ t, In t ts → Transaction.id t ≠ trans_id) →
  reconcile_loop trans_id code ts cache = (ts, cache).
Proof.
  intros Hts. induction ts as [|t ts IH]; simpl; [done|].
  rewrite (proj2 (String.eqb_neq _ _)) by (apply Hts; by left).
  rewrite IH by (intros t1 H1; apply Hts; by right). done.
Qed.

(** X9: what a reconciliation teaches is used by the next categorisation.
    After POST /api/reconcile for a stored id with a category code, the
    first transaction with the id carries the code and is reconciled, the
    other transactions are as they were, and in any later batch every
    transaction whose merchant key is that of the reconciled transaction is
    a cache hit: it comes back with this code as ai_suggested_code, with
    'high' and with ai_from_cache true. *)
Theorem X9_a_reconciled_merchant_is_a_cache_hit_afterwards
    `{PyEnv} (trans_id : string) (code : jval)
    (before after : list transaction) (t : transaction)
    (merchant_cache : gmap string cache_entry) :
  trans_id ≠ "" →
  truthy code = true →
  (∀ t0, In t0 before → Transaction.id t0 ≠ trans_id) →
  Transaction.id t = trans_id →
  ∃ cache',
    reconcile_transaction (Some (JStr trans_id)) (Some code)
      (before ++ t :: after) merchant_cache
    = Some (before
            ++ Transaction.mk (Transaction.id t) (Transaction.date t)
                 (Transaction.amount t) (Transaction.description t)
                 (Some code) (Some (JBool true)) (Transaction.note t)
                 (Transaction.ai_suggested_code t)
                 (Transaction.ai_confidence t) (Transaction.ai_from_cache t)
            :: after,
            cache')
    ∧ ∀ batch categories k t2,
        batch !! k = Some t2 →
        merchant_key (Transaction.description t2)
        = merchant_key (Transaction.description t) →
        (categorize_transactions_batch cache' batch categories).1 !! k
        = Some (Transaction.set_ai code (JStr "high") (JBool true) t2).
Proof.
  intros Hid Hcode Hbefore Ht.
  exists (learn (Transaction.description t) code trans_id merchant_cache).
  split.
  - unfold reconcile_transaction. simpl. rewrite Hcode.
    assert (String.eqb trans_id "" = false) as -> by by apply String.eqb_neq.
    simpl. rewrite (reconcile_loop_first _ _ _ _ _ _ Hbefore Ht).
    by destruct t.
  - intros batch categories k t2 Hk Hkey.
    rewrite (categorize_lookup _ _ _ _ _ Hk). unfold categorized.
    unfold cache_lookup, learn. rewrite Hkey, lookup_insert_eq. done.
Qed.

Lemma X9_witness :
  let env := example_env None None in
  ("2024-03-01_12.5_18" ≠ ""
   ∧ truthy (JStr "100") = true
   ∧ (∀ t0, In t0 [uber] → Transaction.id t0 ≠ "2024-03-01_12.5_18")
   ∧ Transaction.id coles = "2024-03-01_12.5_18")
  ∧ merchant_key (Transaction.description coles_again)
    = merchant_key (Transaction.description coles)
  ∧ ∃ cache',
      reconcile_transaction (Some (JStr "2024-03-01_12.5_18"))
        (Some (JStr "100")) ([uber] ++ coles :: []) ∅
      = Some ([uber]
              ++ Transaction.mk (Transaction.id coles) (Transaction.date coles)
                   (Transaction.amount coles) (Transaction.description coles)
                   (Some (JStr "100")) (Some (JBool true))
                   (Transaction.note coles)
                   (Transaction.ai_suggested_code coles)
                   (Transaction.ai_confidence coles)
                   (Transaction.ai_from_cache coles)
              :: [],
              cache')
      ∧ ∀ batch categories k t2,
          batch !! k = Some t2 →
          merchant_key (Transaction.description t2)
          = merchant_key (Transaction.description coles) →
          (@categorize_transactions_batch env cache' batch categories).1 !! k
          = Some (Transaction.set_ai (JStr "100") (JStr "high") (JBool true) t2).
Proof.
  intros env.
  assert ("2024-03-01_12.5_18" ≠ "") as H1 by discriminate.
  assert (truthy (JStr "100") = true) as H2 by reflexivity.
  assert (∀ t0, In t0 [uber] → Transaction.id t0 ≠ "2024-03-01_12.5_18") as H3.
  { intros t0 [<-|[]]. discriminate. }
  assert (Transaction.id coles = "2024-03-01_12.5_18") as H4 by reflexivity.
  split; [by split_and!|]. split; [by vm_compute|].
  exact (@X9_a_reconciled_merchant_is_a_cache_hit_afterwards env
           "2024-03-01_12.5_18" (JStr "100") [uber] [] coles ∅ H1 H2 H3 H4).
Defined.

(** X10: a reconcile request that cannot be carried out changes nothing.
    Without a transaction id or a category code, or with an empty one, the
    answer is the error and nothing is saved; with an id that no stored
    transaction has the answer is the success, and the transactions and the
    cache are saved as they were. *)
Theorem X10_reconcile_without_effect
    (transaction_id category_code : option jval)
    (transactions : list transaction)
    (merchant_cache : gmap string cache_entry) :
  (truthy_get transaction_id = false ∨ truthy_get category_code = false →
   reconcile_transaction transaction_id category_code transactions
     merchant_cache = None)
  ∧ (truthy_get transaction_id = true → truthy_get category_code = true →
     (∀ t, In t transactions → Some (JStr (Transaction.id t)) ≠ transaction_id) →
     reconcile_transaction transaction_id category_code transactions
       merchant_cache = Some (transactions, merchant_cache)).
Proof.
  unfold reconcile_transaction. split.
  - intros [-> | ->]; [done|]. by rewrite orb_true_r.
  - intros -> -> Habsent. simpl.
    destruct transaction_id as [[| |trans_id]|], category_code as [code|];
      try done.
    rewrite reconcile_loop_absent; [done|].
    intros t Ht Heq. apply (Habsent t Ht). by rewrite Heq.
Qed.

(** ** Updates by id and the merchant cache *)

Lemma api_transaction_absent trans_id data ts cache :
  (∀ t, In t ts → Transaction.id t ≠ trans_id) →
  api_transaction trans_id data ts cache = (ts, cache).
Proof.
  intros Hts. induction ts as [|t ts IH]; simpl; [done|].
  rewrite (proj2 (String.eqb_neq _ _)) by (apply Hts; by left).
  rewrite IH by (intros t1 H1; apply Hts; by right). done.
Qed.

Lemma api_transaction_cache trans_id data ts cache :
  (api_transaction trans_id data ts cache).2 = cache
  ∨ ∃ t code,
      In t ts ∧ Transaction.id t = trans_id
      ∧ UpdateRequest.category_code data = Some code ∧ truthy code = true
      ∧ truthy (default (JBool true) (UpdateRequest.update_cache data)) = true
      ∧ (api_transaction trans_id data ts cache).2
        = learn (Transaction.description t) code trans_id cache.
Proof.
  induction ts as [|t ts IH]; simpl; [by left|].
  destruct (String.eqb (Transaction.id t) trans_id) eqn:Hid; simpl.
  - destruct (truthy_get (UpdateRequest.category_code data)
              && truthy (default (JBool true) (UpdateRequest.update_cache data)))
      eqn:Hc; [|by left].
    apply andb_true_iff in Hc as [Hc Hu].
    destruct (UpdateRequest.category_code data) as [code|] eqn:Hcode; [|done].
    right. exists t, code. apply String.eqb_eq in Hid.
    split_and!; try done; [by left|].
    simpl. f_equal. unfold update_transaction, assign_if_present.
    destruct data as [? [?|] [?|] ?], t; simpl in *; by simplify_eq.
  - destruct (api_transaction trans_id data ts cache) as [ts' c'].
    simpl in *. destruct IH as [->|(t0 & code & Hin & H1 & H2 & H3 & H4 & ->)];
      [by left|].
    right. exists t0, code. split_and!; try done. by right.
Qed.

(** X11: what PUT /api/transactions/<id> can and cannot change.  The
    transactions keep their places, and each keeps its id, date, amount,
    description and ai_* keys.  When no stored transaction has the id,
    nothing changes at all.  The merchant cache is changed only when the
    body has a truthy category_code and update_cache is not falsy (it counts
    as true when absent); otherwise it is saved as it was. *)
Theorem X11_update_by_id_changes_only_the_request_keys
    (trans_id : string) (data : UpdateRequest.data)
    (transactions : list transaction)
    (merchant_cache : gmap string cache_entry) :
  let '(saved, cache') :=
    api_transaction trans_id data transactions merchant_cache in
  Forall2
    (λ t t',
       Transaction.id t' = Transaction.id t
       ∧ Transaction.date t' = Transaction.date t
       ∧ Transaction.amount t' = Transaction.amount t
       ∧ Transaction.description t' = Transaction.description t
       ∧ Transaction.ai_suggested_code t' = Transaction.ai_suggested_code t
       ∧ Transaction.ai_confidence t' = Transaction.ai_confidence t
       ∧ Transaction.ai_from_cache t' = Transaction.ai_from_cache t)
    transactions saved
  ∧ ((∀ t, In t transactions → Transaction.id t ≠ trans_id) →
     saved = transactions ∧ cache' = merchant_cache)
  ∧ (truthy_get (UpdateRequest.category_code data) = false
     ∨ truthy_get (UpdateRequest.update_cache data) = false
       ∧ UpdateRequest.update_cache data ≠ None →
     cache' = merchant_cache).
Proof.
  pose proof (api_transaction_absent trans_id data transactions merchant_cache)
    as Habsent.
  pose proof (api_transaction_cache trans_id data transactions merchant_cache)
    as Hcache.
  assert (Forall2
            (λ t t',
               Transaction.id t' = Transaction.id t
               ∧ Transaction.date t' = Transaction.date t
               ∧ Transaction.amount t' = Transaction.amount t
               ∧ Transaction.description t' = Transaction.description t
               ∧ Transaction.ai_suggested_code t' = Transaction.ai_suggested_code t
               ∧ Transaction.ai_confidence t' = Transaction.ai_confidence t
               ∧ Transaction.ai_from_cache t' = Transaction.ai_from_cache t)
            transactions
            (api_transaction trans_id data transactions merchant_cache).1)
    as Hsame.
  { clear. induction transactions as [|t ts IH]; simpl; [constructor|].
    destruct (String.eqb _ _); simpl.
    - constructor.
      + unfold update_transaction, assign_if_present.
        by destruct data as [[?|] [?|] [?|] ?], t.
      + clear. induction ts; by constructor.
    - destruct (api_transaction trans_id data ts merchant_cache). simpl in *.
      by constructor. }
  destruct (api_transaction trans_id data transactions merchant_cache)
    as [saved cache'].
  cbn [fst snd] in *. split_and!; [done| |].
  - intros Hts. specialize (Habsent Hts). by simplify_eq.
  - intros Hno.
    destruct Hcache as [->|(t & code & _ & _ & Hcode & Htruthy & Hupd & _)];
      [done|].
    exfalso. destruct Hno as [Hno|[Hno Hsome]].
    + rewrite Hcode in Hno. simpl in Hno. congruence.
    + destruct (UpdateRequest.update_cache data); simpl in *; congruence.
Qed.

Lemma learn_keeps_keys description code from cache key :
  is_Some (cache !! key) → is_Some (learn description code from cache !! key).
Proof.
  intros Hk. unfold learn.
  destruct (decide (merchant_key description = key)) as [<-|Hne].
  - rewrite lookup_insert_eq. eauto.
  - by rewrite lookup_insert_ne.
Qed.

Lemma learn_entries description code from cache key e :
  learn description code from cache !! key = Some e →
  cache !! key = Some e ∨ CacheEntry.confidence e = "high".
Proof.
  unfold learn.
  destruct (decide (merchant_key description = key)) as [<-|Hne].
  - rewrite lookup_insert_eq. intros. simplify_eq. by right.
  - rewrite lookup_insert_ne by done. by left.
Qed.

Lemma fold_learn_keeps_keys l cache key :
  is_Some (cache !! key) → is_Some (fold_left learn_suggestion l cache !! key).
Proof.
  revert cache. induction l as [|t l IH]; intros cache Hk; simpl; [done|].
  apply IH. by apply learn_keeps_keys.
Qed.

Lemma fold_learn_entries l cache key e :
  fold_left learn_suggestion l cache !! key = Some e →
  cache !! key = Some e ∨ CacheEntry.confidence e = "high".
Proof.
  revert cache. induction l as [|t l IH]; intros cache He; simpl in *; [by left|].
  apply IH in He as [He|He]; [|by right]. by apply learn_entries in He.
Qed.

(** X12: the merchant cache only grows under the reconciliation operations.
    After an update by id, a single reconcile or a reconcile-all, every
    merchant key that had an entry still has one, and every entry is either
    the entry that was there or one with confidence 'high'. *)
Theorem X12_reconciliation_never_forgets_a_merchant :
  ∀ (merchant_cache : gmap string cache_entry)
    (transactions : list transaction),
    (∀ trans_id data,
       let cache' :=
         (api_transaction trans_id data transactions merchant_cache).2 in
       (∀ key, is_Some (merchant_cache !! key) → is_Some (cache' !! key))
       ∧ ∀ key e, cache' !! key = Some e →
           merchant_cache !! key = Some e ∨ CacheEntry.confidence e = "high")
    ∧ (∀ transaction_id category_code saved cache',
         reconcile_transaction transaction_id category_code transactions
           merchant_cache = Some (saved, cache') →
         (∀ key, is_Some (merchant_cache !! key) → is_Some (cache' !! key))
         ∧ ∀ key e, cache' !! key = Some e →
             merchant_cache !! key = Some e ∨ CacheEntry.confidence e = "high")
    ∧ (let cache' := (reconcile_all transactions merchant_cache).1.2 in
       (∀ key, is_Some (merchant_cache !! key) → is_Some (cache' !! key))
       ∧ ∀ key e, cache' !! key = Some e →
           merchant_cache !! key = Some e ∨ CacheEntry.confidence e = "high").
Proof.
  intros cache ts. split_and!.
  - intros trans_id data cache'. subst cache'.
    destruct (api_transaction_cache trans_id data ts cache)
      as [->|(t & code & _ & _ & _ & _ & _ & ->)]; [by eauto|].
    split; [intros key; apply learn_keeps_keys|intros key e; apply learn_entries].
  - intros tid code saved cache' Hr. unfold reconcile_transaction in Hr.
    destruct (negb _ || negb _); [done|].
    assert (cache' = cache
            ∨ ∃ d c f, cache' = learn d c f cache) as [->|(d & c & f & ->)].
    { destruct tid as [[| |trans_id]|], code as [c|]; simplify_eq; eauto.
      clear -Hr. revert saved Hr.
      induction ts as [|t ts IH]; intros saved Hr; simpl in Hr.
      - simplify_eq. by left.
      - destruct (String.eqb _ _).
        + simplify_eq. right. eauto.
        + destruct (reconcile_loop trans_id c ts cache) as [s' c'].
          simplify_eq. by eapply IH. }
    + by eauto.
    + split; [intros key; apply learn_keeps_keys
             |intros key e; apply learn_entries].
  - unfold reconcile_all. rewrite reconcile_all_loop_spec. cbn [fst snd].
    fold learn_suggestion.
    split; [intros key; apply fold_learn_keeps_keys
           |intros key e; apply fold_learn_entries].
Qed.

(** ** The categorisation of a batch *)

Lemma categorized_fields `{PyEnv} cache ts cats k t :
  let t' := categorized cache ts cats k t in
  Transaction.id t' = Transaction.id t
  ∧ Transaction.date t' = Transaction.date t
  ∧ Transaction.amount t' = Transaction.amount t
  ∧ Transaction.description t' = Transaction.description t
  ∧ Transaction.category_code t' = Transaction.category_code t
  ∧ Transaction.reconciled t' = Transaction.reconciled t
  ∧ Transaction.note t' = Transaction.note t.
Proof.
  unfold categorized, mark_other, apply_entry.
  repeat case_match; done.
Qed.

Lemma categorize_keeps_fields `{PyEnv} cache ts cats :
  Forall2
    (λ t t',
       Transaction.id t' = Transaction.id t
       ∧ Transaction.date t' = Transaction.date t
       ∧ Transaction.amount t' = Transaction.amount t
       ∧ Transaction.description t' = Transaction.description t
       ∧ Transaction.category_code t' = Transaction.category_code t
       ∧ Transaction.reconciled t' = Transaction.reconciled t
       ∧ Transaction.note t' = Transaction.note t)
    ts (categorize_transactions_batch cache ts cats).1.
Proof.
  apply Forall2_same_length_lookup. split; [by rewrite categorize_length|].
  intros k t t' Hk Hk'. rewrite (categorize_lookup _ _ _ _ _ Hk) in Hk'.
  simplify_eq. apply categorized_fields.
Qed.

Lemma misses_nil cache ts :
  misses cache ts = [] ↔ ∀ t, In t ts → is_Some (cache_lookup cache t).
Proof.
  unfold misses. induction ts as [|t ts IH]; simpl.
  - split; [intros _ ? []|done].
  - unfold cache_miss at 1. destruct (cache_lookup cache t) as [e|] eqn:He.
    + rewrite IH. split.
      * intros Hts t0 [<-|H0]; [by rewrite He|by apply Hts].
      * intros Hts t0 H0. apply Hts. by right.
    + split; [done|]. intros Hts. destruct (Hts t (or_introl eq_refl)) as [? ?].
      congruence.
Qed.

(** X13: categorize_transactions_batch returns the batch in its order and
    changes nothing but the three ai_* keys: id, date, amount, description,
    category_code, reconciled and note of every transaction are as they were
    passed in.  It sends at most one request, and none exactly when every
    transaction of the batch has its merchant key in the cache. *)
Theorem X13_categorisation_changes_only_the_suggestion_keys
    `{PyEnv} (merchant_cache : gmap string cache_entry)
    (transactions : list transaction) (categories : list category) :
  let '(out, calls) :=
    categorize_transactions_batch merchant_cache transactions categories in
  Forall2
    (λ t t',
       Transaction.id t' = Transaction.id t
       ∧ Transaction.date t' = Transaction.date t
       ∧ Transaction.amount t' = Transaction.amount t
       ∧ Transaction.description t' = Transaction.description t
       ∧ Transaction.category_code t' = Transaction.category_code t
       ∧ Transaction.reconciled t' = Transaction.reconciled t
       ∧ Transaction.note t' = Transaction.note t)
    transactions out
  ∧ length calls ≤ 1
  ∧ (calls = [] ↔
     ∀ t, In t transactions →
       is_Some (merchant_cache !! merchant_key (Transaction.description t))).
Proof.
  pose proof (categorize_keeps_fields merchant_cache transactions categories)
    as Hfields.
  pose proof (categorize_calls merchant_cache transactions categories) as Hcalls.
  destruct (categorize_transactions_batch merchant_cache transactions categories)
    as [out calls].
  cbn [fst snd] in *. split_and!; [done| |].
  - subst calls. destruct (misses _ _); simpl; lia.
  - fold (cache_lookup merchant_cache).
    change (∀ t, In t transactions →
              is_Some (merchant_cache !! merchant_key (Transaction.description t)))
      with (∀ t, In t transactions → is_Some (cache_lookup merchant_cache t)).
    rewrite <- misses_nil. subst calls.
    destruct (misses merchant_cache transactions); split; done.
Qed.

(** X14: the fallback of categorize_transactions_batch.  When the call to
    the classifier raises, when the bracketed text of its reply does not
    decode, or when one of the decoded entries that has a cache miss at its
    position is not an object, the whole batch comes back with every cache
    miss set to '500', 'low' and ai_from_cache false (also the misses that an
    earlier entry had given another code) and every cache hit tagged from
    the cache. *)
Theorem X14_failed_classification_marks_every_miss_as_other
    `{PyEnv} (merchant_cache : gmap string cache_entry)
    (transactions : list transaction) (categories : list category) :
  let prompt := build_prompt categories (misses merchant_cache transactions) in
  messages_create prompt = None
  ∨ (∃ text json_match,
       messages_create prompt = Some text
       ∧ re_search_array (py_strip text) = Some json_match
       ∧ (json_loads json_match = None
          ∨ ∃ results i,
              json_loads json_match = Some results
              ∧ i < length (misses merchant_cache transactions)
              ∧ results !! i = Some Reply.NotObject)) →
  (categorize_transactions_batch merchant_cache transactions categories).1
  = (λ t,
       match merchant_cache !! merchant_key (Transaction.description t) with
       | Some cached =>
           Transaction.set_ai (CacheEntry.category_code cached) (JStr "high")
             (JBool true) t
       | None =>
           Transaction.set_ai (JStr "500") (JStr "low") (JBool false) t
       end) <$> transactions.
Proof.
  intros prompt Hfail. apply list_eq. intros k.
  rewrite list_lookup_fmap.
  destruct (transactions !! k) as [t|] eqn:Hk.
  - rewrite (categorize_lookup _ _ _ _ _ Hk). simpl. f_equal.
    unfold categorized, cache_lookup.
    destruct (merchant_cache !! _) as [cached|]; [done|].
    fold prompt.
    destruct Hfail as [->|(text & m & -> & -> & Hm)]; [done|].
    destruct Hm as [->|(results & i & -> & Hi & Hres)]; [done|].
    assert (existsb is_not_object
              (take (length (misses merchant_cache transactions)) results)
            = true) as ->; [|done].
    apply existsb_exists. exists Reply.NotObject. split; [|done].
    apply list_elem_of_In, list_elem_of_lookup. exists i.
    by rewrite lookup_take_lt.
  - simpl. apply lookup_ge_None. rewrite categorize_length.
    by apply lookup_ge_None.
Qed.

Lemma X14_witness :
  let env := example_env None None in
  (@categorize_transactions_batch env example_cache [coles; uber]
     example_categories).1
  = [Transaction.set_ai (JStr "100") (JStr "high") (JBool true) coles;
     Transaction.set_ai (JStr "500") (JStr "low") (JBool false) uber].
Proof.
  intros env.
  rewrite (@X14_failed_classification_marks_every_miss_as_other env
             example_cache [coles; uber] example_categories);
    [reflexivity|].
  left. reflexivity.
Defined.

(** ** The import of a statement *)

Lemma read_rows_rows `{PyEnv} reader cands :
  read_rows ∅ reader = Some cands →
  length cands = length (List.filter (λ row, 3 <=? length row) reader)
  ∧ Forall
      (λ t, ∃ date_str amount_str description rest amount,
              In (date_str :: amount_str :: description :: rest) reader
              ∧ float_of_string
                  (remove_char ","%char (remove_char dquote amount_str))
                = Some amount
              ∧ t = Transaction.mk
                      (make_trans_id (default date_str (reformat_date date_str))
                         amount description)
                      (default date_str (reformat_date date_str)) amount
                      (py_strip description) (Some JNull) (Some (JBool false))
                      None None None None)
      cands.
Proof.
  revert cands. induction reader as [|row reader IH]; intros cands Hr.
  - simpl in Hr. simplify_eq. by split.
  - assert (∀ cands, read_rows ∅ reader = Some cands →
              length cands = length (List.filter (λ row, 3 <=? length row) reader)
              ∧ Forall
                  (λ t, ∃ date_str amount_str description rest amount,
                          In (date_str :: amount_str :: description :: rest)
                             (row :: reader)
                          ∧ float_of_string
                              (remove_char ","%char (remove_char dquote amount_str))
                            = Some amount
                          ∧ t = Transaction.mk
                                  (make_trans_id
                                     (default date_str (reformat_date date_str))
                                     amount description)
                                  (default date_str (reformat_date date_str))
                                  amount (py_strip description) (Some JNull)
                                  (Some (JBool false)) None None None None)
                  cands) as IH'.
    { intros c Hc. destruct (IH c Hc) as [Hl Hall]. split; [done|].
      eapply Forall_impl; [exact Hall|].
      intros t (d & a & de & re & am & Hin & Hf & Ht).
      exists d, a, de, re, am. split_and!; try done. by right. }
    destruct row as [|d [|a [|de re]]]; simpl in Hr |- *; try by apply IH'.
    destruct (float_of_string _) as [amount|] eqn:Hf; [|done].
    destruct (read_rows ∅ reader) as [new|]; simpl in Hr; [|done].
    destruct (decide (_ ∈@{gset string} ∅)) as [Hin0|_]; [set_solver|].
    simplify_eq. destruct (IH' new eq_refl) as [Hl Hall].
    split; [simpl; by rewrite Hl|].
    constructor; [|done].
    exists d, a, de, re, amount. split_and!; try done. by left.
Qed.

Lemma date_lt_asym a b : date_lt a b = true → date_lt b a = false.
Proof.
  unfold date_lt, String.ltb.
  rewrite (String.compare_antisym (Transaction.date b) (Transaction.date a)).
  by destruct (String.compare (Transaction.date a) (Transaction.date b)).
Qed.

Lemma date_lt_same a b :
  Transaction.date a = Transaction.date b → date_lt a b = false.
Proof.
  unfold date_lt, String.ltb. intros ->.
  pose proof (String.compare_antisym (Transaction.date b) (Transaction.date b))
    as Hc.
  by destruct (String.compare (Transaction.date b) (Transaction.date b)).
Qed.

(** The sort is stable: elements with the same key stay in their order. *)
Section Stability.
Context {A K : Type} `{EqDecision K} (key : A → K) (lt : A → A → bool).
Hypothesis lt_same : ∀ a b, key a = key b → lt a b = false.

Lemma insert_sorted_keyed x l d :
  List.filter (λ t, bool_decide (key t = d)) (insert_sorted lt x l)
  = List.filter (λ t, bool_decide (key t = d)) (x :: l).
Proof.
  induction l as [|y l IH]; [done|].
  cbn [insert_sorted]. destruct (lt y x) eqn:Hyx; [|done].
  cbn [List.filter] in *. rewrite IH.
  destruct (bool_decide (key y = d)) eqn:Hy; [|done].
  destruct (bool_decide (key x = d)) eqn:Hx; [|done].
  apply bool_decide_eq_true in Hy, Hx.
  rewrite lt_same in Hyx by congruence. done.
Qed.

Lemma stable_sort_keyed l d :
  List.filter (λ t, bool_decide (key t = d)) (stable_sort lt l)
  = List.filter (λ t, bool_decide (key t = d)) l.
Proof.
  induction l as [|x l IH]; [done|].
  cbn [stable_sort foldr]. fold (stable_sort lt l).
  rewrite insert_sorted_keyed. cbn [List.filter]. by rewrite IH.
Qed.

Lemma sorted_reverse_keyed l d :
  List.filter (λ t, bool_decide (key t = d)) (sorted_reverse lt l)
  = List.filter (λ t, bool_decide (key t = d)) l.
Proof.
  unfold sorted_reverse.
  by rewrite filter_rev, stable_sort_keyed, filter_rev, rev_involutive.
Qed.
End Stability.

(** X15: an import is all or nothing.  The answer is the error exactly when
    some row of three fields or more has an amount that, with its double
    quotes and commas removed, is not read as a number; and then nothing is
    stored and nothing is sent to the classifier, also when the rows before
    it were good. *)
Theorem X15_one_unreadable_amount_rejects_the_whole_file
    `{PyEnv} (reader : list (list string)) (transactions : list transaction)
    (categories : list category) (merchant_cache : gmap string cache_entry) :
  let '(response, stored, calls) :=
    upload_csv reader transactions categories merchant_cache in
  (response = UploadError
   ↔ ∃ date_str amount_str description rest,
       In (date_str :: amount_str :: description :: rest) reader
       ∧ float_of_string (remove_char ","%char (remove_char dquote amount_str))
         = None)
  ∧ (response = UploadError → stored = transactions ∧ calls = []).
Proof.
  rewrite upload_csv_unfold. pose proof (read_rows_None ∅ reader) as Hnone.
  destruct (read_rows ∅ reader) as [cands|]; cbn zeta.
  - assert (∀ r : upload_response * list transaction * list string,
              r.1.1 ≠ UploadError →
              let '(response, stored, calls) := r in
              (response = UploadError
               ↔ ∃ date_str amount_str description rest,
                   In (date_str :: amount_str :: description :: rest) reader
                   ∧ float_of_string
                       (remove_char ","%char (remove_char dquote amount_str))
                     = None)
              ∧ (response = UploadError → stored = transactions ∧ calls = []))
      as Hok.
    { intros [[response stored] calls] Hr. cbn [fst snd] in Hr.
      split; [|done]. split; [done|]. intros Hbad. by apply Hnone in Hbad. }
    apply Hok. by destruct (List.filter _ cands).
  - split; [|done]. split; [intros _; by apply Hnone|done].
Qed.

(** X16: what an import adds.  When the answer is the success, the
    transactions it lists are the ones stored; they are the transactions
    stored before, unchanged, together with as many new ones as the answer
    counts.  Every new one comes from a row of the file with a readable
    amount: it has the id, date and amount computed from that row and the
    stripped description, an id that no stored transaction had, a null
    category_code, reconciled false and no note. *)
Theorem X16_imported_transactions_are_new_and_unreconciled
    `{PyEnv} (reader : list (list string)) (transactions : list transaction)
    (categories : list category) (merchant_cache : gmap string cache_entry) :
  let '(response, stored, _) :=
    upload_csv reader transactions categories merchant_cache in
  match response with
  | UploadError => True
  | UploadOk imported listed =>
      listed = stored
      ∧ length stored = length transactions + imported
      ∧ ∃ added,
          Permutation stored (transactions ++ added)
          ∧ length added = imported
          ∧ Forall
              (λ t,
                 (Transaction.id t ∉ Transaction.id <$> transactions)
                 ∧ Transaction.category_code t = Some JNull
                 ∧ Transaction.reconciled t = Some (JBool false)
                 ∧ Transaction.note t = None
                 ∧ ∃ date_str amount_str description rest amount,
                     In (date_str :: amount_str :: description :: rest) reader
                     ∧ float_of_string
                         (remove_char ","%char (remove_char dquote amount_str))
                       = Some amount
                     ∧ Transaction.id t
                       = make_trans_id
                           (default date_str (reformat_date date_str)) amount
                           description
                     ∧ Transaction.date t
                       = default date_str (reformat_date date_str)
                     ∧ Transaction.amount t = amount
                     ∧ Transaction.description t = py_strip description)
              added
  end.
Proof.
  rewrite upload_csv_unfold.
  destruct (read_rows ∅ reader) as [cands|] eqn:Hr; cbn zeta; [|done].
  apply read_rows_rows in Hr as [_ Hrows].
  set (new := List.filter _ cands).
  assert (Forall
            (λ t,
               (Transaction.id t ∉ Transaction.id <$> transactions)
               ∧ ∃ date_str amount_str description rest amount,
                   In (date_str :: amount_str :: description :: rest) reader
                   ∧ float_of_string
                       (remove_char ","%char (remove_char dquote amount_str))
                     = Some amount
                   ∧ t = Transaction.mk
                           (make_trans_id
                              (default date_str (reformat_date date_str))
                              amount description)
                           (default date_str (reformat_date date_str)) amount
                           (py_strip description) (Some JNull)
                           (Some (JBool false)) None None None None)
            new) as Hnew.
  { apply List.Forall_forall. intros t Ht. apply filter_In in Ht as [Ht Hid].
    apply bool_decide_eq_true in Hid. split; [set_solver|].
    by apply (proj1 (List.Forall_forall _ _) Hrows). }
  clearbody new. destruct new as [|t new].
  { split_and!; [done|simpl; lia|]. exists []. rewrite app_nil_r.
    split_and!; done. }
  set (new' := t :: new) in *. clearbody new'.
  pose proof (categorize_keeps_fields merchant_cache new' categories) as Hf.
  destruct (categorize_transactions_batch merchant_cache new' categories)
    as [out calls].
  cbn [fst snd] in *. split_and!; [done| |].
  - rewrite (Permutation_length (sorted_reverse_Permutation _ _)).
    by rewrite length_app.
  - exists out. split_and!; [apply sorted_reverse_Permutation|done|].
    clear -Hnew Hf. induction Hf as [|t0 t' new out Ht _ IH]; [constructor|].
    apply Forall_cons in Hnew as [Ht0 Hnew]. constructor; [|by apply IH].
    destruct Ht as (Hid & Hdate & Ham & Hde & Hcode & Hrec & Hnote).
    destruct Ht0 as (Hfresh & d & a & de & re & am & Hin & Hfl & ->).
    simpl in *. rewrite Hid. split_and!; try done.
    exists d, a, de, re, am. split_and!; done.
Qed.

Lemma read_rows_row_transactions `{PyEnv} reader cands :
  read_rows ∅ reader = Some cands → cands = omap row_transaction reader.
Proof.
  revert cands. induction reader as [|row reader IH]; intros cands Hr; simpl in *.
  - by simplify_eq.
  - destruct row as [|d [|a [|de re]]]; simpl; try by apply IH.
    destruct (float_of_string _) as [am|]; simpl in *; [|done].
    destruct (read_rows ∅ reader) as [c|]; simpl in Hr; [|done].
    destruct (decide (_ ∈@{gset string} ∅)) as [Hin0|_]; [set_solver|].
    simplify_eq. f_equal. by apply IH.
Qed.

Lemma string_ltb_trans a b c :
  String.ltb a b = false → String.ltb b c = false → String.ltb a c = false.
Proof.
  unfold String.ltb. intros Hab Hbc.
  destruct (String.compare a c) eqn:Hac; try done.
  apply OrderedTypeEx.String_as_OT.cmp_lt in Hac.
  destruct (String.compare a b) eqn:Hab'; try done.
  - apply String.compare_eq_iff in Hab'. subst b.
    apply OrderedTypeEx.String_as_OT.cmp_lt in Hac.
    change (OrderedTypeEx.String_as_OT.cmp a c) with (String.compare a c) in Hac.
    by rewrite Hac in Hbc.
  - rewrite String.compare_antisym in Hab'.
    destruct (String.compare b a) eqn:Hba; try done.
    apply OrderedTypeEx.String_as_OT.cmp_lt in Hba.
    pose proof (OrderedTypeEx.String_as_OT.lt_trans _ _ _ Hba Hac) as Hbc'.
    apply OrderedTypeEx.String_as_OT.cmp_lt in Hbc'.
    change (OrderedTypeEx.String_as_OT.cmp b c) with (String.compare b c) in Hbc'.
    by rewrite Hbc' in Hbc.
Qed.

(** X17: an import that adds something leaves the store sorted by date,
    latest first: of any two stored transactions the later one in the list
    does not have the later date.  The sort is stable: the transactions of
    one date are the stored ones in the order they had, followed by the
    imported ones in the order of the file, where the imported ones are, row
    by row, the transactions built from the rows of the file whose key was
    not stored (with their ai_* keys set by the categorisation).  An import
    that adds nothing, or fails, leaves the store in the order it had. *)
Theorem X17_an_import_sorts_the_store_by_date_latest_first
    `{PyEnv} (reader : list (list string)) (transactions : list transaction)
    (categories : list category) (merchant_cache : gmap string cache_entry) :
  let '(response, stored, _) :=
    upload_csv reader transactions categories merchant_cache in
  match response with
  | UploadError | UploadOk 0 _ => stored = transactions
  | UploadOk (S _ as imported) _ =>
      (∀ i j t1 t2,
         i < j → stored !! i = Some t1 → stored !! j = Some t2 →
         String.ltb (Transaction.date t1) (Transaction.date t2) = false)
      ∧ ∃ added,
          length added = imported
          ∧ Forall2
              (λ t t',
                 Transaction.id t' = Transaction.id t
                 ∧ Transaction.date t' = Transaction.date t
                 ∧ Transaction.amount t' = Transaction.amount t
                 ∧ Transaction.description t' = Transaction.description t
                 ∧ Transaction.category_code t' = Transaction.category_code t
                 ∧ Transaction.reconciled t' = Transaction.reconciled t
                 ∧ Transaction.note t' = Transaction.note t)
              (List.filter
                 (λ t, bool_decide
                         (Transaction.id t ∉ Transaction.id <$> transactions))
                 (omap row_transaction reader))
              added
          ∧ ∀ date,
              List.filter (λ t, bool_decide (Transaction.date t = date)) stored
              = List.filter (λ t, bool_decide (Transaction.date t = date))
                  transactions
                ++ List.filter (λ t, bool_decide (Transaction.date t = date))
                     added
  end.
Proof.
  rewrite upload_csv_unfold.
  destruct (read_rows ∅ reader) as [cands|] eqn:Hr; cbn zeta; [|done].
  apply read_rows_row_transactions in Hr as ->.
  assert (List.filter
            (λ t, bool_decide (Transaction.id t ∉@{gset string}
                                list_to_set (Transaction.id <$> transactions)))
            (omap row_transaction reader)
          = List.filter
              (λ t, bool_decide
                      (Transaction.id t ∉ Transaction.id <$> transactions))
              (omap row_transaction reader)) as ->.
  { apply List.filter_ext. intros t. apply bool_decide_ext.
    by rewrite elem_of_list_to_set. }
  set (fresh := List.filter _ (omap row_transaction reader)).
  pose proof (categorize_keeps_fields merchant_cache fresh categories) as Hf.
  pose proof (categorize_length merchant_cache fresh categories) as Hl.
  clearbody fresh. destruct fresh as [|t fresh]; [done|].
  destruct (categorize_transactions_batch merchant_cache (t :: fresh) categories)
    as [out calls].
  cbn [fst snd] in *. destruct out as [|t' out]; [done|].
  cbn [length]. split.
  - intros i j t1 t2 Hij Hi Hj.
    pose proof (sorted_reverse_Sorted date_lt date_lt_asym
                  (transactions ++ t' :: out)) as Hs.
    apply (@sorting.Sorted_StronglySorted _
             (λ a b, date_lt a b = false)) in Hs.
    + by apply (StronglySorted_lookup _ _ i j t1 t2 Hs).
    + intros a b c. apply string_ltb_trans.
  - exists (t' :: out). split_and!; [done|done|]. intros date.
    rewrite (sorted_reverse_keyed Transaction.date date_lt date_lt_same).
    apply List.filter_app.
Qed.

(** ** Clearing the store *)

Lemma filter_fresh_in_empty_store (cands : list transaction) :
  List.filter
    (λ t, bool_decide (Transaction.id t ∉@{gset string}
                        list_to_set (Transaction.id <$> [])))
    cands
  = cands.
Proof.
  induction cands as [|t cands IH]; [done|]. cbn [List.filter].
  rewrite bool_decide_eq_true_2 by set_solver. by rewrite IH.
Qed.

Lemma upload_csv_empty_store `{PyEnv} reader cats cache :
  upload_csv reader [] cats cache
  = match read_rows ∅ reader with
    | None => (UploadError, [], [])
    | Some [] => (UploadOk 0 [], [], [])
    | Some cands =>
        let r := categorize_transactions_batch cache cands cats in
        let stored := sorted_reverse date_lt r.1 in
        (UploadOk (length r.1) stored, stored, r.2)
    end.
Proof.
  rewrite upload_csv_unfold.
  destruct (read_rows ∅ reader) as [cands|]; [|done]. cbn zeta.
  rewrite filter_fresh_in_empty_store. by destruct cands.
Qed.

Lemma categorized_not_from_cache `{PyEnv} cache ts cats k t :
  cache_lookup cache t = None →
  Transaction.ai_from_cache t ≠ Some (JBool true) →
  Transaction.ai_from_cache (categorized cache ts cats k t) ≠ Some (JBool true).
Proof.
  intros Hc Ht. unfold categorized, mark_other, apply_entry. rewrite Hc.
  repeat case_match; done.
Qed.

(** X18: after the store is cleared a statement is imported in full.  With
    the transactions cleared (by clear_transactions or by clear_data) an
    import either fails, storing nothing, or stores one transaction for
    every row of three fields or more, rows with the same date, amount and
    description included.  After clear_data the cache is empty as well:
    one request is sent for the whole file (none for a file without such a
    row) and no stored transaction is marked as coming from the cache. *)
Theorem X18_after_clearing_every_row_is_imported
    `{PyEnv} (reader : list (list string)) (transactions : list transaction)
    (categories : list category) (merchant_cache : gmap string cache_entry) :
  let rows := length (List.filter (λ row, 3 <=? length row) reader) in
  (∀ cleared,
     cleared = clear_transactions transactions merchant_cache
     ∨ cleared = clear_data transactions merchant_cache →
     let '(response, stored, _) :=
       upload_csv reader cleared.1 categories cleared.2 in
     response = UploadError ∧ stored = []
     ∨ response = UploadOk rows stored ∧ length stored = rows)
  ∧ let '(response, stored, calls) :=
      upload_csv reader (clear_data transactions merchant_cache).1 categories
        (clear_data transactions merchant_cache).2 in
    response ≠ UploadError →
    length calls = Nat.min 1 rows
    ∧ Forall (λ t, Transaction.ai_from_cache t ≠ Some (JBool true)) stored.
Proof.
  intros rows.
  assert (∀ cache,
            let '(response, stored, _) := upload_csv reader [] categories cache in
            response = UploadError ∧ stored = []
            ∨ response = UploadOk rows stored ∧ length stored = rows) as Hall.
  { intros cache. rewrite upload_csv_empty_store.
    destruct (read_rows ∅ reader) as [cands|] eqn:Hr; [|by left].
    apply read_rows_rows in Hr as [Hl _]. fold rows in Hl.
    destruct cands as [|t cands]; [right; by rewrite <- Hl|].
    cbn zeta. right.
    rewrite (Permutation_length (sorted_reverse_Permutation _ _)).
    by rewrite categorize_length, Hl. }
  split.
  - intros cleared [-> | ->]; apply Hall.
  - cbn [clear_data fst snd]. rewrite upload_csv_empty_store.
    destruct (read_rows ∅ reader) as [cands|] eqn:Hr; [|done].
    apply read_rows_rows in Hr as [Hl Hrows]. fold rows in Hl.
    destruct cands as [|t cands]; [intros _; by rewrite <- Hl|].
    cbn zeta. intros _. split.
    + rewrite categorize_calls. unfold misses.
      rewrite <- Hl. cbn [List.filter]. unfold cache_miss at 1, cache_lookup.
      by rewrite lookup_empty.
    + apply List.Forall_forall. intros t' Ht'.
      apply (Permutation_in _ (sorted_reverse_Permutation _ _)) in Ht'.
      apply list_elem_of_In, list_elem_of_lookup in Ht' as [k Hk].
      assert (is_Some ((t :: cands) !! k)) as [t0 Hk0].
      { apply lookup_lt_is_Some. rewrite <- (categorize_length ∅ _ categories).
        by eapply lookup_lt_Some. }
      rewrite (categorize_lookup _ _ _ _ _ Hk0) in Hk. simplify_eq.
      apply categorized_not_from_cache; [apply lookup_empty|].
      apply list_elem_of_lookup_2, list_elem_of_In in Hk0.
      apply (proj1 (List.Forall_forall _ _) Hrows) in Hk0.
      destruct Hk0 as (? & ? & ? & ? & ? & _ & _ & ->). done.
Qed.

(** ** The files of the data directory *)

Lemma chars_str l : chars (str l) = l.
Proof. apply list_ascii_of_string_of_list_ascii. Qed.

Lemma chars_app (s1 s2 : string) : chars (s1 +:+ s2) = chars s1 ++ chars s2.
Proof.
  induction s1 as [|c s1 IH]; [done|].
  change (chars (String c (s1 +:+ s2)) = c :: (chars s1 ++ chars s2)).
  unfold chars in *. simpl. by rewrite IH.
Qed.

Lemma string_app_assoc (a b c : string) : (a +:+ b) +:+ c = a +:+ (b +:+ c).
Proof.
  induction a as [|x a IH]; [done|].
  change (String x ((a +:+ b) +:+ c) = String x (a +:+ (b +:+ c))).
  by rewrite IH.
Qed.

Lemma prefix_app (sub s : string) :
  String.prefix sub s = true ↔ ∃ b, s = sub +:+ b.
Proof.
  revert s. induction sub as [|c sub IH]; intros s.
  - split; [intros _; by exists s|by destruct s].
  - destruct s as [|d s]; simpl; [split; [done|by intros [b ?]]|].
    destruct (Ascii.ascii_dec c d) as [->|Hne].
    + rewrite IH. split; intros [b Hb]; exists b; [by rewrite Hb|].
      change (String d s = String d (sub +:+ b)) in Hb. by simplify_eq.
    + split; [done|]. intros [b Hb].
      change (String d s = String c (sub +:+ b)) in Hb. by simplify_eq.
Qed.

Lemma py_in_app (sub s : string) :
  py_in sub s = true ↔ ∃ a b, s = a +:+ sub +:+ b.
Proof.
  induction s as [|c s IH].
  - change (py_in sub "") with (String.prefix sub "" || false).
    rewrite orb_false_r, prefix_app. split.
    + intros [b Hb]. by exists "", b.
    + intros ([|? a] & b & Hab); [by exists b|done].
  - change (py_in sub (String c s))
      with (String.prefix sub (String c s) || py_in sub s).
    rewrite orb_true_iff, IH, prefix_app. split.
    + intros [[b Hb]|(a & b & Hab)].
      * by exists "", b.
      * exists (String c a), b. by rewrite Hab.
    + intros ([|c' a] & b & Hab).
      * left. by exists b.
      * right. exists a, b.
        change (String c s = String c' (a +:+ sub +:+ b)) in Hab.
        by simplify_eq.
Qed.

Lemma prefix_nil_r (sub : string) :
  String.prefix sub "" = match sub with EmptyString => true | _ => false end.
Proof. by destruct sub. Qed.

Lemma prefix_app_no_straddle (sub x tail : string) :
  no_straddle sub tail = true →
  String.prefix sub (x +:+ tail) = String.prefix sub x.
Proof.
  revert sub. induction x as [|c x IH]; intros sub Hno.
  - change ("" +:+ tail) with tail. rewrite prefix_nil_r.
    destruct sub as [|a sub]; [by destruct tail|].
    simpl in Hno. apply andb_true_iff in Hno as [Hno _].
    by apply negb_true_iff in Hno.
  - change (String c x +:+ tail) with (String c (x +:+ tail)).
    destruct sub as [|a sub]; [done|]. simpl.
    destruct (Ascii.ascii_dec a c); [|done].
    apply IH. simpl in Hno. by apply andb_true_iff in Hno as [_ Hno].
Qed.

Lemma py_in_app_no_straddle (sub d tail : string) :
  sub ≠ "" →
  no_straddle sub tail = true →
  py_in sub (d +:+ tail) = py_in sub d || py_in sub tail.
Proof.
  intros Hsub Hno. induction d as [|c d IH].
  - change ("" +:+ tail) with tail.
    change (py_in sub "") with (String.prefix sub "" || false).
    rewrite prefix_nil_r. by destruct sub.
  - change (String c d +:+ tail) with (String c (d +:+ tail)).
    change (py_in sub (String c (d +:+ tail)))
      with (String.prefix sub (String c d +:+ tail) || py_in sub (d +:+ tail)).
    change (py_in sub (String c d))
      with (String.prefix sub (String c d) || py_in sub d).
    rewrite IH, (prefix_app_no_straddle sub (String c d) tail Hno).
    by rewrite orb_assoc.
Qed.

Lemma ends_with_sep_data (x : string) : ends_with_sep (x +:+ "data") = false.
Proof.
  unfold ends_with_sep. rewrite chars_app, rev_app_distr. done.
Qed.

Lemma path_join_data_dir (dirname name : string) :
  String.prefix "/" name = false →
  path_join (DATA_DIR dirname) name
  = dirname
    +:+ (if String.eqb dirname "" || ends_with_sep dirname
         then "data/" else "/data/")
    +:+ name.
Proof.
  intros Hname. unfold DATA_DIR, path_join at 2.
  change (String.prefix "/" "data") with false. cbv iota.
  destruct (String.eqb dirname "" || ends_with_sep dirname).
  - unfold path_join. rewrite Hname, ends_with_sep_data.
    assert (String.eqb (dirname +:+ "data") "" = false) as ->
      by by destruct dirname.
    simpl. by rewrite !string_app_assoc.
  - unfold path_join. rewrite Hname.
    change (dirname +:+ "/" +:+ "data") with (dirname +:+ "/data").
    assert (ends_with_sep (dirname +:+ "/data") = false) as ->.
    { unfold ends_with_sep. rewrite chars_app, rev_app_distr. done. }
    assert (String.eqb (dirname +:+ "/data") "" = false) as ->
      by by destruct dirname.
    simpl. by rewrite !string_app_assoc.
Qed.

(** X19: what load_json returns for a data file that does not exist.  A
    path without a file loads as the empty list when the text 'categories'
    or 'transactions' occurs anywhere in it, and as the empty dictionary
    otherwise.  So categories.json and transactions.json start as empty
    lists, wherever the application is installed; merchant_cache.json
    starts as the empty dictionary when the path of the application's
    directory contains neither 'categories' nor 'transactions', and as the
    empty list when it contains one of them. *)
Theorem X19_a_missing_file_loads_as_the_default_for_its_path
    {J : Type} (empty_list empty_dict : J)
    (path_exists : string → bool) (read_json : string → option J)
    (dirname : string) :
  let load := load_json empty_list empty_dict path_exists read_json in
  let named (s : string) :=
    ∃ a b, s = a +:+ "categories" +:+ b ∨ s = a +:+ "transactions" +:+ b in
  (∀ filepath,
     path_exists filepath = false →
     (named filepath → load filepath = Some empty_list)
     ∧ (¬ named filepath → load filepath = Some empty_dict))
  ∧ (path_exists (CATEGORIES_FILE dirname) = false →
     load (CATEGORIES_FILE dirname) = Some empty_list)
  ∧ (path_exists (TRANSACTIONS_FILE dirname) = false →
     load (TRANSACTIONS_FILE dirname) = Some empty_list)
  ∧ (path_exists (MERCHANT_CACHE_FILE dirname) = false →
     (named dirname → load (MERCHANT_CACHE_FILE dirname) = Some empty_list)
     ∧ (¬ named dirname →
        load (MERCHANT_CACHE_FILE dirname) = Some empty_dict)).
Proof.
  intros load named.
  assert (∀ s, py_in "categories" s || py_in "transactions" s = true ↔ named s)
    as Hnamed.
  { intros s. rewrite orb_true_iff, !py_in_app. unfold named. split.
    - intros [(a & b & Hs)|(a & b & Hs)]; exists a, b; [by left|by right].
    - intros (a & b & [Hs|Hs]); [left|right]; by exists a, b. }
  assert (∀ filepath,
            path_exists filepath = false →
            (named filepath → load filepath = Some empty_list)
            ∧ (¬ named filepath → load filepath = Some empty_dict)) as Hdefault.
  { intros filepath Hmissing. unfold load, load_json. rewrite Hmissing.
    destruct (py_in "categories" filepath || py_in "transactions" filepath)
      eqn:Hin.
    - split; [done|]. intros Hno. destruct Hno. by apply Hnamed.
    - split; [|done]. intros Hyes. apply Hnamed in Hyes. congruence. }
  split_and!; [done| | |].
  - intros Hmissing. apply (Hdefault _ Hmissing).
    unfold CATEGORIES_FILE. rewrite path_join_data_dir by done.
    eexists _, ".json". left.
    change "categories.json" with ("categories" +:+ ".json").
    by rewrite <- !string_app_assoc.
  - intros Hmissing. apply (Hdefault _ Hmissing).
    unfold TRANSACTIONS_FILE. rewrite path_join_data_dir by done.
    eexists _, ".json". right.
    change "transactions.json" with ("transactions" +:+ ".json").
    by rewrite <- !string_app_assoc.
  - intros Hmissing.
    assert (named (MERCHANT_CACHE_FILE dirname) ↔ named dirname) as Hsame.
    { rewrite <- !Hnamed. unfold MERCHANT_CACHE_FILE.
      rewrite path_join_data_dir by done.
      destruct (String.eqb dirname "" || ends_with_sep dirname);
        rewrite !py_in_app_no_straddle by done;
        by rewrite !orb_false_r. }
    destruct (Hdefault _ Hmissing) as [Hlist Hdict].
    split; intros Hdir; [apply Hlist|apply Hdict]; by rewrite Hsame.
Qed.

(** ** More on the merchant normaliser *)

Lemma strip_chars_idem l : strip_chars (strip_chars l) = strip_chars l.
Proof.
  apply strip_chars_trimmed; [apply strip_chars_no_lead|apply strip_chars_no_trail].
Qed.

Lemma truncate_at_gap_prefix s :
  ∃ rest, s = NormalizeSpec.truncate_at_gap s ++ rest.
Proof.
  unfold NormalizeSpec.truncate_at_gap.
  destruct (NormalizeSpec.gap_index s) as [i|].
  - exists (drop i s). by rewrite take_drop.
  - exists []. by rewrite app_nil_r.
Qed.

Lemma strip_trailing_token_prefix ok s :
  ∃ rest, s = NormalizeSpec.strip_trailing_token ok s ++ rest.
Proof.
  unfold NormalizeSpec.strip_trailing_token.
  destruct (ok _ && _); [|exists []; by rewrite app_nil_r].
  set (T := take_while (λ c, negb (is_space c)) (rev s)).
  set (B := drop_while (λ c, negb (is_space c)) (rev s)).
  exists (rev (take_while is_space B) ++ rev T).
  rewrite app_assoc, <- !rev_app_distr.
  rewrite (take_drop_while is_space B).
  unfold T, B. rewrite (take_drop_while (λ c, negb (is_space c)) (rev s)).
  by rewrite rev_involutive.
Qed.

Lemma strip_chars_rstrip l :
  strip_chars l = rstrip_chars (drop_while is_space l).
Proof. done. Qed.

Lemma rstrip_chars_cons c l :
  rstrip_chars (c :: l)
  = match rstrip_chars l with
    | [] => if is_space c then [] else [c]
    | _ :: _ => c :: rstrip_chars l
    end.
Proof.
  unfold rstrip_chars. cbn [rev].
  destruct (drop_while is_space (rev l)) as [|x r] eqn:Hd.
  - rewrite drop_while_app_all by by apply drop_while_nil_all.
    simpl. by destruct (is_space c).
  - rewrite drop_while_app_stop by by rewrite Hd.
    rewrite Hd, rev_app_distr. simpl.
    destruct (rev r ++ [x]) eqn:Hr; [by destruct (rev r)|done].
Qed.

Lemma rstrip_chars_head d l y r :
  rstrip_chars (d :: l) = y :: r → y = d.
Proof.
  rewrite rstrip_chars_cons. destruct (rstrip_chars l).
  - destruct (is_space d); [done|]. by intros [= ->].
  - by intros [= ->].
Qed.

Lemma rstrip_chars_nil_head d l :
  rstrip_chars (d :: l) = [] → is_space d = true.
Proof.
  rewrite rstrip_chars_cons. destruct (rstrip_chars l); [|done].
  by destruct (is_space d).
Qed.

Lemma rstrip_chars_app l1 l2 :
  rstrip_chars (l1 ++ l2)
  = match rstrip_chars l2 with
    | [] => rstrip_chars l1
    | _ :: _ => l1 ++ rstrip_chars l2
    end.
Proof.
  induction l1 as [|c l1 IH].
  - simpl. by destruct (rstrip_chars l2).
  - rewrite <- app_comm_cons, rstrip_chars_cons, IH.
    destruct (rstrip_chars l2) as [|x r].
    + by rewrite rstrip_chars_cons.
    + by destruct l1.
Qed.

(** What comes after a gap has no part in the text before the gap. *)
Lemma re_split_gap_head_app_gap a c1 c2 x :
  is_space c1 = true → is_space c2 = true →
  re_split_gap_head (a ++ c1 :: c2 :: x) = re_split_gap_head (rstrip_chars a).
Proof.
  intros H1 H2. induction a as [|c a IH].
  - simpl app. rewrite re_split_gap_head_cons, H1, H2. done.
  - destruct a as [|d a].
    + simpl app. rewrite re_split_gap_head_cons, H1, andb_true_r.
      rewrite (re_split_gap_head_cons c1), H1, H2.
      rewrite rstrip_chars_cons. change (rstrip_chars []) with (@nil ascii).
      by destruct (is_space c).
    + change ((c :: d :: a) ++ c1 :: c2 :: x)
        with (c :: d :: (a ++ c1 :: c2 :: x)).
      rewrite re_split_gap_head_cons.
      change (d :: (a ++ c1 :: c2 :: x)) with ((d :: a) ++ c1 :: c2 :: x).
      rewrite IH. rewrite (rstrip_chars_cons c).
      destruct (rstrip_chars (d :: a)) as [|y r] eqn:Hr.
      * rewrite (rstrip_chars_nil_head _ _ Hr), andb_true_r.
        by destruct (is_space c).
      * apply rstrip_chars_head in Hr as Hy. subst y.
        by rewrite re_split_gap_head_cons.
Qed.

Lemma extract_merchant_chars_gap a c1 c2 x :
  is_space c1 = true → is_space c2 = true →
  drop_while is_space a ≠ [] →
  extract_merchant_chars (a ++ c1 :: c2 :: x) = extract_merchant_chars a.
Proof.
  intros H1 H2 Ha. unfold extract_merchant_chars.
  assert (re_split_gap_head (strip_chars (a ++ c1 :: c2 :: x))
          = re_split_gap_head (strip_chars a)) as ->; [|done].
  rewrite !strip_chars_rstrip, drop_while_app_stop by done.
  set (a' := drop_while is_space a).
  rewrite rstrip_chars_app.
  assert (rstrip_chars (c1 :: c2 :: x) = []
          ∨ rstrip_chars (c1 :: c2 :: x) = c1 :: c2 :: rstrip_chars x)
    as [-> | ->].
  { rewrite rstrip_chars_cons, (rstrip_chars_cons c2), H1, H2.
    destruct (rstrip_chars x); [by left|by right]. }
  - done.
  - by apply re_split_gap_head_app_gap.
Qed.

(** X20: the merchant name is a trimmed prefix of the trimmed description:
    it has no whitespace at its start or its end, and the description with
    its surrounding whitespace removed begins with it.  Whitespace around
    the description has no part in it: the import stores the description
    stripped, and the stored text has the name and the cache key of the text
    of the file. *)
Theorem X20_merchant_name_is_a_trimmed_prefix_of_the_description
    (description : string) :
  let name := chars (extract_merchant_name description) in
  no_lead name
  ∧ no_trail name
  ∧ (∃ rest, chars (py_strip description) = name ++ rest)
  ∧ extract_merchant_name (py_strip description)
    = extract_merchant_name description
  ∧ merchant_key (py_strip description) = merchant_key description.
Proof.
  intros name. subst name. unfold extract_merchant_name. rewrite chars_str.
  assert (extract_merchant_chars (chars (py_strip description))
          = extract_merchant_chars (chars description)) as Hstrip.
  { unfold py_strip. rewrite chars_str. unfold extract_merchant_chars.
    by rewrite strip_chars_idem. }
  split_and!.
  - unfold extract_merchant_chars. apply strip_chars_no_lead.
  - unfold extract_merchant_chars. apply strip_chars_no_trail.
  - unfold py_strip. rewrite chars_str, extract_merchant_chars_normalize.
    destruct (truncate_at_gap_prefix (strip_chars (chars description)))
      as [r1 H1].
    destruct (strip_trailing_token_prefix NormalizeSpec.numeric
                (NormalizeSpec.truncate_at_gap (strip_chars (chars description))))
      as [r2 H2].
    destruct (strip_trailing_token_prefix NormalizeSpec.upper_code
                (NormalizeSpec.strip_trailing_token NormalizeSpec.numeric
                   (NormalizeSpec.truncate_at_gap
                      (strip_chars (chars description)))))
      as [r3 H3].
    exists (r3 ++ r2 ++ r1). rewrite !app_assoc.
    rewrite <- H3. rewrite <- H2. exact H1.
  - by rewrite Hstrip.
  - unfold merchant_key, extract_merchant_name. by rewrite Hstrip.
Qed.

(** X21: what follows the first run of two whitespace characters has no part
    in the merchant name.  For a text with something other than whitespace
    in it, the text followed by two whitespace characters and anything at
    all has the merchant name and the cache key of the text alone: two
    descriptions that agree up to such a gap share their cache entry. *)
Theorem X21_text_after_a_gap_has_no_part_in_the_merchant_key
    (merchant : string) (c1 c2 : ascii) (location : string) :
  py_strip merchant ≠ "" →
  is_space c1 = true →
  is_space c2 = true →
  extract_merchant_name (merchant +:+ String c1 (String c2 location))
  = extract_merchant_name merchant
  ∧ merchant_key (merchant +:+ String c1 (String c2 location))
    = merchant_key merchant.
Proof.
  intros Hm H1 H2.
  assert (extract_merchant_name (merchant +:+ String c1 (String c2 location))
          = extract_merchant_name merchant) as Hname.
  { unfold extract_merchant_name. rewrite chars_app. f_equal.
    apply (extract_merchant_chars_gap (chars merchant) c1 c2 (chars location));
      [done|done|].
    intros Hd. apply Hm. unfold py_strip, strip_chars. by rewrite Hd. }
  split; [done|]. unfold merchant_key. by rewrite Hname.
Qed.

Lemma X21_witness :
  py_strip "COLES 0123" ≠ ""
  ∧ merchant_key "COLES 0123  SYDNEY" = merchant_key "COLES 0123"
  ∧ merchant_key "COLES 0123  PERTH" = merchant_key "COLES 0123".
Proof.
  assert (py_strip "COLES 0123" ≠ "") as Hm by (vm_compute; discriminate).
  split_and!; [exact Hm| |].
  - exact (proj2 (X21_text_after_a_gap_has_no_part_in_the_merchant_key
                    "COLES 0123" " " " " "SYDNEY" Hm eq_refl eq_refl)).
  - exact (proj2 (X21_text_after_a_gap_has_no_part_in_the_merchant_key
                    "COLES 0123" " " " " "PERTH" Hm eq_refl eq_refl)).
Defined.

(** ** Renaming a category *)

Lemma find_app_first {A} (p : A → bool) l1 l2 :
  List.find p (l1 ++ l2)
  = match List.find p l1 with
    | Some x => Some x
    | None => List.find p l2
    end.
Proof.
  induction l1 as [|x l1 IH]; simpl; [done|]. by destruct (p x).
Qed.

Lemma category_map_get_cons c cats code :
  category_map_get (c :: cats) code
  = match category_map_get cats code with
    | Some x => Some x
    | None => if bool_decide (Category.code c = code) then Some c else None
    end.
Proof. unfold category_map_get. cbn [rev]. by rewrite find_app_first. Qed.

Lemma category_map_get_unique cats c :
  NoDup (Category.code <$> cats) →
  In c cats →
  category_map_get cats (Category.code c) = Some c.
Proof.
  induction cats as [|c0 cats IH]; [done|].
  rewrite fmap_cons, NoDup_cons. intros [Hfresh Hnd] [->|Hin].
  - rewrite category_map_get_cons.
    rewrite (proj2 (category_map_get_none cats (Category.code c)) Hfresh).
    by rewrite bool_decide_eq_true_2.
  - rewrite category_map_get_cons. by rewrite IH.
Qed.

Lemma category_map_get_updated code data cats other :
  NoDup (Category.code <$> cats) →
  category_map_get (update_first_category code data cats) other
  = if bool_decide (other = JStr code)
    then update_category data <$> category_map_get cats other
    else category_map_get cats other.
Proof.
  induction cats as [|c cats IH]; [intros _; by destruct (bool_decide _)|].
  rewrite fmap_cons, NoDup_cons. intros [Hfresh Hnd].
  cbn [update_first_category].
  destruct (bool_decide (Category.code c = JStr code)) eqn:Hc.
  - apply bool_decide_eq_true in Hc. rewrite !category_map_get_cons.
    change (Category.code (update_category data c)) with (Category.code c).
    destruct (bool_decide (other = JStr code)) eqn:Ho.
    + apply bool_decide_eq_true in Ho as ->. rewrite <- Hc.
      rewrite (proj2 (category_map_get_none cats (Category.code c)) Hfresh).
      by rewrite bool_decide_eq_true_2.
    + apply bool_decide_eq_false in Ho.
      rewrite !(bool_decide_eq_false_2 (Category.code c = other)) by congruence.
      done.
  - apply bool_decide_eq_false in Hc. rewrite !category_map_get_cons.
    rewrite (IH Hnd).
    destruct (bool_decide (other = JStr code)) eqn:Ho; [|done].
    apply bool_decide_eq_true in Ho as ->.
    rewrite (bool_decide_eq_false_2 _ Hc).
    by destruct (category_map_get cats (JStr code)).
Qed.

(** X22: a category that was renamed shows under its new name in the
    report.  When the codes of the catalogue are distinct, a report made
    after PUT /api/categories/<code> has the same rows in the same order
    with the same codes, totals and transactions as a report made before
    it; the row of the code carries the name and the type of the body (the
    old ones where the body lacks the key), and every other row is the same
    row. *)
Theorem X22_a_renamed_category_shows_in_the_report
    (transaction_type code : string) (data : CategoryRequest.data)
    (transactions : list transaction) (categories : list category)
    (c : category) :
  NoDup (Category.code <$> categories) →
  In c categories →
  Category.code c = JStr code →
  let rows := api_analysis transaction_type transactions categories in
  let rows' :=
    api_analysis transaction_type transactions
      (api_category PUT code data categories).2 in
  length rows' = length rows
  ∧ ∀ i r,
      rows !! i = Some r →
      ∃ r',
        rows' !! i = Some r'
        ∧ Analysis.code r' = Analysis.code r
        ∧ Analysis.total r' = Analysis.total r
        ∧ Analysis.transactions r' = Analysis.transactions r
        ∧ if bool_decide (Analysis.code r = JStr code)
          then Analysis.name r'
               = default (Category.name c) (CategoryRequest.name data)
               ∧ Analysis.type r'
                 = default (Category.type c) (CategoryRequest.type data)
          else r' = r.
Proof.
  intros Hnd Hin Hcode rows rows'. subst rows rows'.
  unfold api_analysis, api_category. cbn [snd].
  destruct (fold_left group_step _ _) as [totals txs].
  split; [by rewrite !length_fmap|].
  intros i r Hr. rewrite list_lookup_fmap in *.
  destruct (sorted_reverse total_lt totals !! i) as [[c0 total]|]; [|done].
  simpl in *. simplify_eq. eexists. split; [done|].
  unfold analysis_row. rewrite (category_map_get_updated _ _ _ _ Hnd).
  destruct (bool_decide (c0 = JStr code)) eqn:Hc; simpl; rewrite ?Hc.
  - apply bool_decide_eq_true in Hc as ->. rewrite <- Hcode.
    rewrite (category_map_get_unique _ _ Hnd Hin). simpl.
    by rewrite bool_decide_eq_true_2.
  - destruct (category_map_get categories c0); simpl; by rewrite Hc.
Qed.

Lemma X22_witness :
  let rows := api_analysis "expenses" example_ledger ledger_categories in
  let rows' :=
    api_analysis "expenses" example_ledger
      (api_category PUT "A"
         (CategoryRequest.mk None (Some "Food") None None)
         ledger_categories).2 in
  length rows' = length rows
  ∧ ∀ i r,
      rows !! i = Some r →
      ∃ r',
        rows' !! i = Some r'
        ∧ Analysis.code r' = Analysis.code r
        ∧ Analysis.total r' = Analysis.total r
        ∧ Analysis.transactions r' = Analysis.transactions r
        ∧ if bool_decide (Analysis.code r = JStr "A")
          then Analysis.name r' = "Food" ∧ Analysis.type r' = "variable"
          else r' = r.
Proof.
  apply (X22_a_renamed_category_shows_in_the_report "expenses" "A"
           (CategoryRequest.mk None (Some "Food") None None)
           example_ledger ledger_categories
           (Category.mk (JStr "A") "Groceries" "variable" "Expense")).
  - apply (bool_decide_unpack _). vm_compute. exact I.
  - left. reflexivity.
  - reflexivity.
Defined.
